(** * IDiskRemote: metadata records, reference-counted removal and the
      reservation ledger of a remote-backed disk

    A shallow embedding of [Disks/IDiskRemote.cpp].  The directory tree and the
    metadata files live on local storage, the file bytes live in a remote
    object store.  Local storage is a graph of inodes (so that hard links and
    symbolic links to directories can be expressed), the remote store is the
    trace of delete requests it received, C++ exceptions are values of
    [Exception] and every member function of the disk is a state transformer
    over [World]. *)

From Stdlib Require Import ZArith Lia List Bool Ascii String.
From stdpp Require Import base option gmap strings list.

Local Open Scope Z_scope.

(* ===================================================================== *)
(** * Machine integers *)
(* ===================================================================== *)

(** An unsigned [w]-bit integer is a [Z] in [0, 2^w); arithmetic on it is
    followed by [wrap w]. *)
Definition wrap (w : Z) (x : Z) : Z := x mod 2 ^ w.

Definition in_range (w : Z) (x : Z) : Prop := 0 <= x < 2 ^ w.

(** [UInt32], [UInt64] and [size_t] of the source. *)
Definition UInt32_bits : Z := 32.
Definition UInt64_bits : Z := 64.
Definition size_t_bits : Z := 64.

(* ===================================================================== *)
(** * Exceptions *)
(* ===================================================================== *)

(** The error codes the source declares ([namespace ErrorCodes]) followed by
    the codes raised by the helpers it calls. *)
Inductive ErrorCode : Type :=
  | UNKNOWN_FORMAT
  | INCORRECT_DISK_INDEX
  | FILE_ALREADY_EXISTS
  | CANNOT_DELETE_DIRECTORY
  | ATTEMPT_TO_READ_AFTER_EOF
  | CANNOT_PARSE_INPUT_ASSERTION_FAILED
  | CANNOT_PARSE_NUMBER
  | CANNOT_PARSE_BOOL
  | CANNOT_PARSE_ESCAPE_SEQUENCE
  | FILE_DOESNT_EXIST
  | CANNOT_OPEN_FILE
  | CANNOT_READ_FROM_FILE_DESCRIPTOR
  | CANNOT_LINK
  | TOO_DEEP_RECURSION
  | NETWORK_ERROR.

Definition ErrorCode_eqb (a b : ErrorCode) : bool :=
  match a, b with
  | UNKNOWN_FORMAT, UNKNOWN_FORMAT
  | INCORRECT_DISK_INDEX, INCORRECT_DISK_INDEX
  | FILE_ALREADY_EXISTS, FILE_ALREADY_EXISTS
  | CANNOT_DELETE_DIRECTORY, CANNOT_DELETE_DIRECTORY
  | ATTEMPT_TO_READ_AFTER_EOF, ATTEMPT_TO_READ_AFTER_EOF
  | CANNOT_PARSE_INPUT_ASSERTION_FAILED, CANNOT_PARSE_INPUT_ASSERTION_FAILED
  | CANNOT_PARSE_NUMBER, CANNOT_PARSE_NUMBER
  | CANNOT_PARSE_BOOL, CANNOT_PARSE_BOOL
  | CANNOT_PARSE_ESCAPE_SEQUENCE, CANNOT_PARSE_ESCAPE_SEQUENCE
  | FILE_DOESNT_EXIST, FILE_DOESNT_EXIST
  | CANNOT_OPEN_FILE, CANNOT_OPEN_FILE
  | CANNOT_READ_FROM_FILE_DESCRIPTOR, CANNOT_READ_FROM_FILE_DESCRIPTOR
  | CANNOT_LINK, CANNOT_LINK
  | TOO_DEEP_RECURSION, TOO_DEEP_RECURSION
  | NETWORK_ERROR, NETWORK_ERROR => true
  | _, _ => false
  end.

(** Errors of the local file system, raised by [Poco::File]. *)
Inductive PocoError : Type :=
  | FileNotFoundException
  | FileExistsException
  | DirectoryNotEmptyException
  | OpenFileException.

(** [DBException code nested] is a [DB::Exception] with its code and, when it
    wraps another exception, the code of the wrapped one.  [PocoException] is a
    [Poco::Exception] that is not a [DB::Exception]: a handler written
    [catch (const Exception &)] inside [namespace DB] does not catch it. *)
Inductive Exception : Type :=
  | DBException (code : ErrorCode) (nested : option ErrorCode)
  | PocoException (what : PocoError).

Inductive Result (A : Type) : Type :=
  | Ok (a : A)
  | Throw (e : Exception).
Arguments Ok {A} a.
Arguments Throw {A} e.

(* ===================================================================== *)
(** * Text input and output *)
(* ===================================================================== *)

Module IO.

Definition tab : ascii := "009"%char.
Definition newline : ascii := "010"%char.
Definition backslash : ascii := "\"%char.

(** A [ReadBuffer] is the input that is still unread. *)
Definition ReadBuffer : Type := string.

(** A reader consumes a prefix of the buffer or raises. *)
Definition Reader (A : Type) : Type := ReadBuffer -> Result (A * ReadBuffer).

Definition ret {A} (a : A) : Reader A := fun buf => Ok (a, buf).

Definition bind {A B} (m : Reader A) (k : A -> Reader B) : Reader B :=
  fun buf =>
    match m buf with
    | Ok (a, buf') => k a buf'
    | Throw e => Throw e
    end.

Definition raise {A} (e : Exception) : Reader A := fun _ => Throw e.

Declare Scope reader_scope.
Delimit Scope reader_scope with reader.
Notation "x <- m ;; k" := (bind m (fun x => k))
  (at level 100, m at next level, right associativity) : reader_scope.
Notation "m ;; k" := (bind m (fun _ => k))
  (at level 100, right associativity) : reader_scope.

Definition is_digit (c : ascii) : bool :=
  ((48 <=? N_of_ascii c) && (N_of_ascii c <=? 57))%N.

Definition digit_val (c : ascii) : Z := Z.of_N (N_of_ascii c) - 48.

Definition digit_char (d : Z) : ascii :=
  match d with
  | 0 => "0" | 1 => "1" | 2 => "2" | 3 => "3" | 4 => "4"
  | 5 => "5" | 6 => "6" | 7 => "7" | 8 => "8" | _ => "9"
  end%char.

(** The digit loop of the integer reader: [res = res * 10 + digit] in the
    destination type, until the first character that is not a digit. *)
Fixpoint read_digits (w : Z) (res : Z) (buf : ReadBuffer) : Z * ReadBuffer :=
  match buf with
  | String c rest =>
      if is_digit c then read_digits w (wrap w (res * 10 + digit_val c)) rest
      else (res, buf)
  | EmptyString => (res, buf)
  end.

(** Modelled from the spec: [readIntText] ([IO/ReadHelpers.h]) is not in the
    source.  It reads an unsigned decimal integer ([<version:uint>]) into a
    [w]-bit variable; premature end of input and a malformed integer are
    parse failures. *)
Definition readIntText (w : Z) : Reader Z :=
  fun buf =>
    match buf with
    | EmptyString => Throw (DBException ATTEMPT_TO_READ_AFTER_EOF None)
    | String c _ =>
        if is_digit c then Ok (read_digits w 0 buf)
        else Throw (DBException CANNOT_PARSE_NUMBER None)
    end.

(** Modelled from the spec: [assertChar] ([IO/ReadHelpers.h]) is not in the
    source.  The next character must be the separator [c]; a missing separator
    is a parse failure. *)
Definition assertChar (c : ascii) : Reader unit :=
  fun buf =>
    match buf with
    | String c' rest =>
        if Ascii.eqb c' c then Ok (tt, rest)
        else Throw (DBException CANNOT_PARSE_INPUT_ASSERTION_FAILED None)
    | EmptyString => Throw (DBException CANNOT_PARSE_INPUT_ASSERTION_FAILED None)
    end.

(** Modelled from the spec: [readBoolText] ([IO/ReadHelpers.h]) is not in the
    source.  A boolean is the character 0 or 1. *)
Definition readBoolText : Reader bool :=
  fun buf =>
    match buf with
    | String c rest =>
        if Ascii.eqb c "0" then Ok (false, rest)
        else if Ascii.eqb c "1" then Ok (true, rest)
        else Throw (DBException CANNOT_PARSE_BOOL None)
    | EmptyString => Throw (DBException ATTEMPT_TO_READ_AFTER_EOF None)
    end.

(** The character an escape sequence [\c] stands for. *)
Definition parseEscapeSequence (c : ascii) : ascii :=
  if Ascii.eqb c "b" then "008"
  else if Ascii.eqb c "f" then "012"
  else if Ascii.eqb c "n" then "010"
  else if Ascii.eqb c "r" then "013"
  else if Ascii.eqb c "t" then "009"
  else if Ascii.eqb c "0" then "000"
  else c.

(** Modelled from the spec: [readEscapedString] ([IO/ReadHelpers.h]) is not in
    the source.  The reversible escape scheme of the file format: the string
    ends before the first unescaped tab or newline (or at the end of input),
    and a backslash introduces an escape sequence. *)
Fixpoint readEscapedString (buf : ReadBuffer) : Result (string * ReadBuffer) :=
  match buf with
  | EmptyString => Ok (EmptyString, EmptyString)
  | String c rest =>
      if Ascii.eqb c tab || Ascii.eqb c newline then Ok (EmptyString, buf)
      else if Ascii.eqb c backslash then
        match rest with
        | EmptyString => Throw (DBException CANNOT_PARSE_ESCAPE_SEQUENCE None)
        | String e rest' =>
            match readEscapedString rest' with
            | Ok (s, buf') => Ok (String (parseEscapeSequence e) s, buf')
            | Throw x => Throw x
            end
        end
      else
        match readEscapedString rest with
        | Ok (s, buf') => Ok (String c s, buf')
        | Throw x => Throw x
        end
  end.

(** A [WriteBuffer] is the output written so far. *)
Definition WriteBuffer : Type := string.

Definition writeChar (c : ascii) (buf : WriteBuffer) : WriteBuffer :=
  buf +:+ String c EmptyString.

(** The decimal digits of [n], most significant first, in front of [acc]. *)
Fixpoint write_digits (fuel : nat) (n : Z) (acc : string) : string :=
  match fuel with
  | O => acc
  | S fuel' =>
      let acc' := String (digit_char (n mod 10)) acc in
      if n / 10 =? 0 then acc' else write_digits fuel' (n / 10) acc'
  end.

(** Modelled from the spec: [writeIntText] ([IO/WriteHelpers.h]) is not in the
    source.  It writes an unsigned integer in decimal; twenty digits are
    enough for a 64-bit value. *)
Definition writeIntText (n : Z) (buf : WriteBuffer) : WriteBuffer :=
  buf +:+ write_digits 20 n EmptyString.

(** Modelled from the spec: [writeBoolText] ([IO/WriteHelpers.h]) is not in the
    source.  A boolean is written as the character 1 or 0. *)
Definition writeBoolText (b : bool) (buf : WriteBuffer) : WriteBuffer :=
  writeChar (if b then "1" else "0")%char buf.

Definition escape_char (c : ascii) : string :=
  if Ascii.eqb c "008" then "\b"
  else if Ascii.eqb c "012" then "\f"
  else if Ascii.eqb c "010" then "\n"
  else if Ascii.eqb c "013" then "\r"
  else if Ascii.eqb c "009" then "\t"
  else if Ascii.eqb c "000" then "\0"
  else if Ascii.eqb c "'" then "\'"
  else if Ascii.eqb c backslash then "\\"
  else String c EmptyString.

Fixpoint escape (s : string) : string :=
  match s with
  | EmptyString => EmptyString
  | String c rest => escape_char c +:+ escape rest
  end.

(** Modelled from the spec: [writeEscapedString] ([IO/WriteHelpers.h]) is not
    in the source.  The writing half of the reversible escape scheme. *)
Definition writeEscapedString (s : string) (buf : WriteBuffer) : WriteBuffer :=
  buf +:+ escape s.

End IO.

(* ===================================================================== *)
(** * Local storage *)
(* ===================================================================== *)

(** The local file system behind [Poco::File], [ReadBufferFromFile],
    [WriteBufferFromFile] and [DB::createHardLink]: a table of inodes.  A
    regular file holds bytes, a directory holds named entries in enumeration
    order.  Two entries naming the same file inode are hard links to it.  An
    entry flagged [d_symlink] is a symbolic link, recorded with the inode its
    target resolves to: every operation below except [remove] follows it, as
    [stat] does. *)
Module LocalFS.

Record dirent : Type := { d_name : string; d_ino : nat; d_symlink : bool }.

Inductive inode : Type :=
  | IFile (data : string)
  | IDir (entries : list dirent).

Abbreviation t := (gmap nat inode).

Definition root_ino : nat := 0%nat.

(** The components of a path: the maximal runs of characters other than the
    separator.  [cur] is the component being read. *)
Fixpoint split_path_from (cur : string) (path : string) : list string :=
  match path with
  | EmptyString =>
      match cur with EmptyString => [] | _ => [cur] end
  | String c rest =>
      if Ascii.eqb c "/" then
        match cur with
        | EmptyString => split_path_from EmptyString rest
        | _ => cur :: split_path_from EmptyString rest
        end
      else split_path_from (cur +:+ String c EmptyString) rest
  end.

Definition split_path (path : string) : list string :=
  split_path_from EmptyString path.

Definition lookup_entry (name : string) (es : list dirent) : option dirent :=
  List.find (fun e => String.eqb (d_name e) name) es.

Definition unlink_entry (name : string) (es : list dirent) : list dirent :=
  List.filter (fun e => negb (String.eqb (d_name e) name)) es.

(** Follow the components [comps] from the inode [cur]. *)
Fixpoint walk (fs : t) (cur : nat) (comps : list string) : option nat :=
  match comps with
  | [] => Some cur
  | c :: cs =>
      match fs !! cur with
      | Some (IDir es) =>
          match lookup_entry c es with
          | Some e => walk fs (d_ino e) cs
          | None => None
          end
      | _ => None
      end
  end.

Definition resolve (fs : t) (path : string) : option nat :=
  walk fs root_ino (split_path path).

Definition stat (fs : t) (path : string) : option inode :=
  match resolve fs path with
  | Some n => fs !! n
  | None => None
  end.

(** The last component of a path and the components before it. *)
Fixpoint split_last (comps : list string) : option (list string * string) :=
  match comps with
  | [] => None
  | c :: cs =>
      match split_last cs with
      | None => Some ([], c)
      | Some (init, last) => Some (c :: init, last)
      end
  end.

(** The directory a path lies in (its inode and entries) and the path's
    name in it. *)
Definition parent (fs : t) (path : string) : option (nat * list dirent * string) :=
  match split_last (split_path path) with
  | None => None
  | Some (init, name) =>
      match walk fs root_ino init with
      | Some p =>
          match fs !! p with
          | Some (IDir es) => Some (p, es, name)
          | _ => None
          end
      | None => None
      end
  end.

(** [Poco::File::exists]. *)
Definition exists_ (fs : t) (path : string) : bool :=
  match stat fs path with Some _ => true | None => false end.

(** [Poco::File::isFile]: raises when the path does not exist. *)
Definition isFile (fs : t) (path : string) : Result bool :=
  match stat fs path with
  | Some (IFile _) => Ok true
  | Some (IDir _) => Ok false
  | None => Throw (PocoException FileNotFoundException)
  end.

(** [Poco::File::isDirectory]. *)
Definition isDirectory (fs : t) (path : string) : Result bool :=
  match stat fs path with
  | Some (IFile _) => Ok false
  | Some (IDir _) => Ok true
  | None => Throw (PocoException FileNotFoundException)
  end.

(** [Poco::File::remove] (not recursive): unlinks a file or a symbolic link,
    removes a directory only when it is empty. *)
Definition remove (fs : t) (path : string) : Result t :=
  match parent fs path with
  | Some (p, es, name) =>
      match lookup_entry name es with
      | Some e =>
          match fs !! d_ino e with
          | None => Throw (PocoException FileNotFoundException)
          | Some target =>
              match target, d_symlink e with
              | IDir (_ :: _), false => Throw (PocoException DirectoryNotEmptyException)
              | _, _ => Ok (<[p := IDir (unlink_entry name es)]> fs)
              end
          end
      | None => Throw (PocoException FileNotFoundException)
      end
  | None => Throw (PocoException FileNotFoundException)
  end.

(** Modelled from the spec: [ReadBufferFromFile] ([IO/ReadBufferFromFile.h]) is
    not in the source.  Opening a file of local storage for reading gives its
    bytes, or the [DB::Exception] that opening or reading raises. *)
Definition ReadBufferFromFile (fs : t) (path : string) : Result string :=
  match stat fs path with
  | Some (IFile data) => Ok data
  | Some (IDir _) => Throw (DBException CANNOT_READ_FROM_FILE_DESCRIPTOR None)
  | None => Throw (DBException FILE_DOESNT_EXIST None)
  end.

(** Modelled from the spec: [WriteBufferFromFile] ([IO/WriteBufferFromFile.h])
    is not in the source.  The file is opened with the default flags (create,
    truncate), written with [data] and finalized.  An existing file is
    rewritten in place: every hard link to it sees the new bytes.  A new file
    needs its directory to exist and its name to be free there. *)
Definition WriteBufferFromFile (fs : t) (path : string) (data : string) : Result t :=
  match resolve fs path with
  | Some n =>
      match fs !! n with
      | Some (IFile _) => Ok (<[n := IFile data]> fs)
      | _ => Throw (DBException CANNOT_OPEN_FILE None)
      end
  | None =>
      match parent fs path with
      | Some (p, es, name) =>
          match lookup_entry name es with
          | None =>
              let n := fresh (dom fs) in
              let e := {| d_name := name; d_ino := n; d_symlink := false |} in
              Ok (<[n := IFile data]> (<[p := IDir (es ++ [e])]> fs))
          | Some _ => Throw (DBException CANNOT_OPEN_FILE None)
          end
      | None => Throw (DBException CANNOT_OPEN_FILE None)
      end
  end.

(** Modelled from the spec: [DB::createHardLink] ([Common/createHardLink.h]) is
    not in the source.  It creates a file-system hard link: a new entry at
    [dst], whose name must be free, for the inode of the file at [src]. *)
Definition createHardLink (fs : t) (src dst : string) : Result t :=
  match resolve fs src with
  | Some n =>
      match fs !! n with
      | Some (IFile _) =>
          match parent fs dst with
          | Some (p, es, name) =>
              match lookup_entry name es with
              | None =>
                  let e := {| d_name := name; d_ino := n; d_symlink := false |} in
                  Ok (<[p := IDir (es ++ [e])]> fs)
              | Some _ => Throw (DBException CANNOT_LINK None)
              end
          | None => Throw (DBException CANNOT_LINK None)
          end
      | _ => Throw (DBException CANNOT_LINK None)
      end
  | None => Throw (DBException CANNOT_LINK None)
  end.

(** [Poco::DirectoryIterator]: the names in a directory, in enumeration
    order. *)
Definition DirectoryIterator (fs : t) (path : string) : Result (list string) :=
  match stat fs path with
  | Some (IDir es) => Ok (map d_name es)
  | Some (IFile _) => Throw (PocoException OpenFileException)
  | None => Throw (PocoException FileNotFoundException)
  end.

End LocalFS.

(* ===================================================================== *)
(** * The disk and its surroundings *)
(* ===================================================================== *)

Inductive LogLevel : Type := Debug | Warning | Error.

(** One constructor per logging statement of the source, with the arguments
    of its format string. *)
Inductive LogMessage : Type :=
  | RemoveFileByPath (path : string)
  | MetadataCantBeRead (path : string) (reason : Exception)
  | UnbalancedReservationsSize (disk : string)
  | UnbalancedReservationCount (disk : string)
  | ReservingZeroBytes (disk : string)
  | Reserving (bytes : Z) (disk : string) (unreserved : Z).

(** The immutable members of [IDiskRemote]. *)
Record IDiskRemote : Type := {
  disk_name : string;
  remote_fs_root_path : string;
  metadata_path : string
}.

(** What the member functions read and change: local storage, the remote
    store (the delete requests it received, the error it answers with while it
    is failing, the free space it reports), the disk's reservation counters
    and its logger. *)
Record World : Type := {
  local_fs : gmap nat LocalFS.inode;
  remote_removed : list string;
  remote_error : option Exception;
  available_space : Z;
  reserved_bytes : Z;
  reservation_count : Z;
  log : list (LogLevel * LogMessage)
}.

Definition set_local_fs (fs : gmap nat LocalFS.inode) (w : World) : World :=
  {| local_fs := fs; remote_removed := remote_removed w;
     remote_error := remote_error w; available_space := available_space w;
     reserved_bytes := reserved_bytes w; reservation_count := reservation_count w;
     log := log w |}.

Definition set_remote_removed (r : list string) (w : World) : World :=
  {| local_fs := local_fs w; remote_removed := r;
     remote_error := remote_error w; available_space := available_space w;
     reserved_bytes := reserved_bytes w; reservation_count := reservation_count w;
     log := log w |}.

Definition set_reserved_bytes (x : Z) (w : World) : World :=
  {| local_fs := local_fs w; remote_removed := remote_removed w;
     remote_error := remote_error w; available_space := available_space w;
     reserved_bytes := x; reservation_count := reservation_count w;
     log := log w |}.

Definition set_reservation_count (x : Z) (w : World) : World :=
  {| local_fs := local_fs w; remote_removed := remote_removed w;
     remote_error := remote_error w; available_space := available_space w;
     reserved_bytes := reserved_bytes w; reservation_count := x;
     log := log w |}.

Definition add_log (l : LogLevel) (m : LogMessage) (w : World) : World :=
  {| local_fs := local_fs w; remote_removed := remote_removed w;
     remote_error := remote_error w; available_space := available_space w;
     reserved_bytes := reserved_bytes w; reservation_count := reservation_count w;
     log := log w ++ [(l, m)] |}.

(** A member function returns or throws, and leaves a world behind in both
    cases: what was done before an exception stays done. *)
Definition M (A : Type) : Type := World -> Result A * World.

Definition ret {A} (a : A) : M A := fun w => (Ok a, w).

Definition bind {A B} (m : M A) (k : A -> M B) : M B :=
  fun w =>
    match m w with
    | (Ok a, w') => k a w'
    | (Throw e, w') => (Throw e, w')
    end.

Definition throw {A} (e : Exception) : M A := fun w => (Throw e, w).

(** [try { body } catch (...) { handler }]: the handler runs in the world the
    body left. *)
Definition try_catch {A} (body : M A) (handler : Exception -> M A) : M A :=
  fun w =>
    match body w with
    | (Ok a, w') => (Ok a, w')
    | (Throw e, w') => handler e w'
    end.

Declare Scope disk_scope.
Delimit Scope disk_scope with disk.
Notation "x <- m ;; k" := (bind m (fun x => k))
  (at level 100, m at next level, right associativity) : disk_scope.
Notation "m ;; k" := (bind m (fun _ => k))
  (at level 100, right associativity) : disk_scope.

(** Lift an operation of local storage. *)
Definition on_fs (op : gmap nat LocalFS.inode -> Result (gmap nat LocalFS.inode)) : M unit :=
  fun w =>
    match op (local_fs w) with
    | Ok fs' => (Ok tt, set_local_fs fs' w)
    | Throw e => (Throw e, w)
    end.

Definition ask_fs {A} (q : gmap nat LocalFS.inode -> Result A) : M A :=
  fun w =>
    match q (local_fs w) with
    | Ok a => (Ok a, w)
    | Throw e => (Throw e, w)
    end.

Definition LOG (l : LogLevel) (m : LogMessage) : M unit :=
  fun w => (Ok tt, add_log l m w).

(** [std::string::substr(pos)]: the string from position [pos] on. *)
Fixpoint substr (s : string) (pos : nat) : string :=
  match pos, s with
  | O, _ => s
  | S pos', String _ rest => substr rest pos'
  | S _, EmptyString => EmptyString
  end.

(** [boost::algorithm::starts_with]. *)
Definition starts_with (s prefix : string) : bool := String.prefix prefix s.

(* ===================================================================== *)
(** * Metadata records *)
(* ===================================================================== *)

Module Metadata.

(** Modelled from the spec: the version constants are declared in
    [Disks/IDiskRemote.h], which is not in the source.  Version 1 stores
    absolute remote paths, version 2 relative ones, and the newest version
    additionally stores the read-only flag. *)
Definition VERSION_ABSOLUTE_PATHS : Z := 1.
Definition VERSION_RELATIVE_PATHS : Z := 2.
Definition VERSION_READ_ONLY_FLAG : Z := 3.

(** The members of [IDiskRemote::Metadata].  [total_size] is a [size_t],
    [ref_count] a [UInt32]; an object is its path relative to the remote root
    and its size. *)
Record t : Type := {
  remote_fs_root_path : string;
  disk_path : string;
  metadata_file_path : string;
  total_size : Z;
  remote_fs_objects : list (string * Z);
  ref_count : Z;
  read_only : bool
}.

Definition set_ref_count (x : Z) (m : t) : t :=
  {| remote_fs_root_path := remote_fs_root_path m; disk_path := disk_path m;
     metadata_file_path := metadata_file_path m; total_size := total_size m;
     remote_fs_objects := remote_fs_objects m; ref_count := x;
     read_only := read_only m |}.

Definition set_read_only (b : bool) (m : t) : t :=
  {| remote_fs_root_path := remote_fs_root_path m; disk_path := disk_path m;
     metadata_file_path := metadata_file_path m; total_size := total_size m;
     remote_fs_objects := remote_fs_objects m; ref_count := ref_count m;
     read_only := b |}.

Import IO.
Local Open Scope reader_scope.

(** One pass of the loop over the objects of the file. *)
Definition read_object (version : Z) (root : string) : Reader (string * Z) :=
  remote_fs_object_size <- readIntText size_t_bits ;;
  assertChar tab ;;
  remote_fs_object_path <- readEscapedString ;;
  remote_fs_object_path <-
    (if version =? VERSION_ABSOLUTE_PATHS then
       if negb (starts_with remote_fs_object_path root) then
         raise (DBException UNKNOWN_FORMAT None)
       else ret (substr remote_fs_object_path (String.length root))
     else ret remote_fs_object_path) ;;
  assertChar newline ;;
  ret (remote_fs_object_path, remote_fs_object_size).

Fixpoint read_objects (version : Z) (root : string) (count : nat)
  : Reader (list (string * Z)) :=
  match count with
  | O => ret []
  | S count' =>
      o <- read_object version root ;;
      os <- read_objects version root count' ;;
      ret (o :: os)
  end.

(** The body of the [try] block of the constructor, after the file has been
    opened. *)
Definition read_fields (root disk_path_ metadata_file_path_ : string) : Reader t :=
  version <- readIntText UInt32_bits ;;
  assertChar newline ;;
  if (version <? VERSION_ABSOLUTE_PATHS) || (VERSION_READ_ONLY_FLAG <? version) then
    raise (DBException UNKNOWN_FORMAT None)
  else
    remote_fs_objects_count <- readIntText UInt32_bits ;;
    assertChar tab ;;
    total_size_ <- readIntText size_t_bits ;;
    assertChar newline ;;
    objects <- read_objects version root (Z.to_nat remote_fs_objects_count) ;;
    ref_count_ <- readIntText UInt32_bits ;;
    assertChar newline ;;
    read_only_ <-
      (if VERSION_READ_ONLY_FLAG <=? version then
         b <- readBoolText ;;
         assertChar newline ;;
         ret b
       else ret false) ;;
    ret {| remote_fs_root_path := root; disk_path := disk_path_;
           metadata_file_path := metadata_file_path_;
           total_size := total_size_; remote_fs_objects := objects;
           ref_count := ref_count_; read_only := read_only_ |}.

(** The [catch] block of the constructor: a format error is rethrown as it
    is, every other [DB::Exception] is wrapped into a format error. *)
Definition rethrow_as_unknown_format (e : Exception) : Exception :=
  match e with
  | DBException code nested =>
      if ErrorCode_eqb code UNKNOWN_FORMAT then e
      else DBException UNKNOWN_FORMAT (Some code)
  | PocoException _ => e
  end.

(** [IDiskRemote::Metadata::Metadata]: load metadata by path or create empty
    if the [create] flag is set.  A member that is not read keeps the initial
    value of its declaration; for [read_only] that is false. *)
Definition Metadata (remote_fs_root_path_ disk_path_ metadata_file_path_ : string)
    (create : bool) (fs : gmap nat LocalFS.inode) : Result t :=
  if create then
    Ok {| remote_fs_root_path := remote_fs_root_path_; disk_path := disk_path_;
          metadata_file_path := metadata_file_path_;
          total_size := 0; remote_fs_objects := []; ref_count := 0;
          read_only := false |}
  else
    match LocalFS.ReadBufferFromFile fs (disk_path_ +:+ metadata_file_path_) with
    | Ok buf =>
        match read_fields remote_fs_root_path_ disk_path_ metadata_file_path_ buf with
        | Ok (m, _) => Ok m
        | Throw e => Throw (rethrow_as_unknown_format e)
        end
    | Throw e => Throw (rethrow_as_unknown_format e)
    end.

(** [IDiskRemote::Metadata::addObject]. *)
Definition addObject (path : string) (size : Z) (m : t) : t :=
  {| remote_fs_root_path := remote_fs_root_path m; disk_path := disk_path m;
     metadata_file_path := metadata_file_path m;
     total_size := wrap size_t_bits (total_size m + size);
     remote_fs_objects := remote_fs_objects m ++ [(path, size)];
     ref_count := ref_count m; read_only := read_only m |}.

Definition write_object (buf : WriteBuffer) (o : string * Z) : WriteBuffer :=
  let '(remote_fs_object_path, remote_fs_object_size) := o in
  let buf := writeIntText remote_fs_object_size buf in
  let buf := writeChar tab buf in
  let buf := writeEscapedString remote_fs_object_path buf in
  writeChar newline buf.

(** What [save] writes into its buffer. *)
Definition save_buffer (m : t) : WriteBuffer :=
  let buf := EmptyString in
  let buf := writeIntText VERSION_RELATIVE_PATHS buf in
  let buf := writeChar newline buf in
  let buf := writeIntText (Z.of_nat (length (remote_fs_objects m))) buf in
  let buf := writeChar tab buf in
  let buf := writeIntText (total_size m) buf in
  let buf := writeChar newline buf in
  let buf := fold_left write_object (remote_fs_objects m) buf in
  let buf := writeIntText (ref_count m) buf in
  let buf := writeChar newline buf in
  let buf := writeBoolText (read_only m) buf in
  writeChar newline buf.

(** [IDiskRemote::Metadata::save].  Durability is outside the model: [sync]
    changes nothing that can be observed here. *)
Definition save (m : t) (sync : bool) : M unit :=
  on_fs (fun fs =>
    LocalFS.WriteBufferFromFile fs (disk_path m +:+ metadata_file_path m) (save_buffer m)).

End Metadata.

(* ===================================================================== *)
(** * The member functions of IDiskRemote *)
(* ===================================================================== *)

Local Open Scope disk_scope.

Fixpoint forM_ {A} (l : list A) (f : A -> M unit) : M unit :=
  match l with
  | [] => ret tt
  | x :: l' => f x ;; forM_ l' f
  end.

(** [IDiskRemote::readMeta]. *)
Definition readMeta (this : IDiskRemote) (path : string) : M Metadata.t :=
  ask_fs (Metadata.Metadata (remote_fs_root_path this) (metadata_path this) path false).

(** [IDiskRemote::createMeta]. *)
Definition createMeta (this : IDiskRemote) (path : string) : M Metadata.t :=
  ask_fs (Metadata.Metadata (remote_fs_root_path this) (metadata_path this) path true).

(** One delete request to the remote store: recorded, unless the store is
    failing, in which case its error is raised. *)
Definition remote_delete (object_path : string) : M unit :=
  fun w =>
    match remote_error w with
    | Some e => (Throw e, w)
    | None => (Ok tt, set_remote_removed (remote_removed w ++ [object_path]) w)
    end.

(** Modelled from the spec: [removeFromRemoteFS] is pure virtual in
    [IDiskRemote]; its implementations are not in the source.  It issues a
    delete of every remote object listed in the record, and an error of the
    remote store propagates. *)
Definition removeFromRemoteFS (this : IDiskRemote) (metadata : Metadata.t) : M unit :=
  forM_ (Metadata.remote_fs_objects metadata) (fun o => remote_delete (fst o)).

(** [Poco::File file(metadata_path + path)] and its methods. *)
Definition file_isFile (file : string) : M bool :=
  ask_fs (fun fs => LocalFS.isFile fs file).

Definition file_exists (file : string) : M bool :=
  ask_fs (fun fs => Ok (LocalFS.exists_ fs file)).

Definition file_remove (file : string) : M unit :=
  on_fs (fun fs => LocalFS.remove fs file).

(** The [try] block of [removeMeta]. *)
Definition removeMeta_try (this : IDiskRemote) (path : string) (keep_in_remote_fs : bool)
  : M unit :=
  let file := metadata_path this +:+ path in
  metadata <- readMeta this path ;;
  if Metadata.ref_count metadata =? 0 then
    file_remove file ;;
    if negb keep_in_remote_fs then removeFromRemoteFS this metadata else ret tt
  else
    let metadata :=
      Metadata.set_ref_count (wrap UInt32_bits (Metadata.ref_count metadata - 1)) metadata in
    Metadata.save metadata false ;;
    file_remove file.

(** The [catch (const Exception & e)] block of [removeMeta]: it receives
    [DB::Exception]s only. *)
Definition removeMeta_catch (this : IDiskRemote) (path : string) (e : Exception) : M unit :=
  let file := metadata_path this +:+ path in
  match e with
  | DBException code nested =>
      if ErrorCode_eqb code UNKNOWN_FORMAT then
        LOG Warning (MetadataCantBeRead path e) ;;
        file_remove file
      else throw e
  | PocoException _ => throw e
  end.

(** [IDiskRemote::removeMeta]. *)
Definition removeMeta (this : IDiskRemote) (path : string) (keep_in_remote_fs : bool)
  : M unit :=
  let file := metadata_path this +:+ path in
  LOG Debug (RemoveFileByPath (metadata_path this +:+ path)) ;;
  is_file <- file_isFile file ;;
  if negb is_file then throw (DBException CANNOT_DELETE_DIRECTORY None)
  else
    try_catch (removeMeta_try this path keep_in_remote_fs) (removeMeta_catch this path).

(** Modelled from the spec: [RemoteDiskDirectoryIterator] is declared in
    [Disks/IDiskRemote.h], which is not in the source.  Iterating a directory
    yields its immediate children in enumeration order; the path of a child
    is the path of the directory followed by the child's name, and by a slash
    when the child is a directory. *)
Definition iterateDirectory (this : IDiskRemote) (path : string) : M (list string) :=
  ask_fs (fun fs => LocalFS.DirectoryIterator fs (metadata_path this +:+ path)).

Definition iterator_path (this : IDiskRemote) (folder_path name : string) : M string :=
  is_dir <- ask_fs (fun fs =>
              LocalFS.isDirectory fs (metadata_path this +:+ folder_path +:+ "/" +:+ name)) ;;
  ret (if is_dir : bool then folder_path +:+ name +:+ "/" else folder_path +:+ name).

(** Modelled from the spec: [checkStackSize] ([Common/checkStackSize.h]) is
    not in the source.  It is the explicit stack check of the recursive walk:
    it raises once the stack of the thread is used up.  [stack] is the number
    of frames of the walk that still fit. *)
Definition checkStackSize (stack : nat) : M unit :=
  match stack with
  | O => throw (DBException TOO_DEEP_RECURSION None)
  | S _ => ret tt
  end.

(** [IDiskRemote::removeMetaRecursive].  Every nested call runs with one
    frame less. *)
Fixpoint removeMetaRecursive (this : IDiskRemote) (stack : nat) (path : string)
    (keep_in_remote_fs : bool) : M unit :=
  checkStackSize stack ;;
  match stack with
  | O => ret tt
  | S stack' =>
      let file := metadata_path this +:+ path in
      is_file <- file_isFile file ;;
      if is_file : bool then removeMeta this path keep_in_remote_fs
      else
        names <- iterateDirectory this path ;;
        forM_ names (fun name =>
          it_path <- iterator_path this path name ;;
          removeMetaRecursive this stack' it_path keep_in_remote_fs) ;;
        file_remove file
  end.

(** [IDiskRemote::removeSharedFile]. *)
Definition removeSharedFile (this : IDiskRemote) (path : string) (keep_in_remote_fs : bool)
  : M unit :=
  removeMeta this path keep_in_remote_fs.

(** [IDiskRemote::removeSharedRecursive]. *)
Definition removeSharedRecursive (this : IDiskRemote) (stack : nat) (path : string)
    (keep_in_remote_fs : bool) : M unit :=
  removeMetaRecursive this stack path keep_in_remote_fs.

(** Modelled from the spec: [removeFile] is defined in the header, which is
    not in the source.  It is the removal of a file without the keep-remote-data
    variant: remote data is not kept. *)
Definition removeFile (this : IDiskRemote) (path : string) : M unit :=
  removeSharedFile this path false.

(** [IDiskRemote::removeFileIfExists]. *)
Definition removeFileIfExists (this : IDiskRemote) (path : string) : M unit :=
  e <- file_exists (metadata_path this +:+ path) ;;
  if e : bool then removeMeta this path false else ret tt.

(** [IDiskRemote::removeRecursive]. *)
Fixpoint removeRecursive (this : IDiskRemote) (stack : nat) (path : string) : M unit :=
  checkStackSize stack ;;
  match stack with
  | O => ret tt
  | S stack' =>
      let file := metadata_path this +:+ path in
      is_file <- file_isFile file ;;
      if is_file : bool then removeFile this path
      else
        names <- iterateDirectory this path ;;
        forM_ names (fun name =>
          it_path <- iterator_path this path name ;;
          removeRecursive this stack' it_path) ;;
        file_remove file
  end.

(** [IDiskRemote::exists] and [IDiskRemote::isFile]. *)
Definition exists_ (this : IDiskRemote) (path : string) : M bool :=
  file_exists (metadata_path this +:+ path).

Definition isFile (this : IDiskRemote) (path : string) : M bool :=
  file_isFile (metadata_path this +:+ path).

(** [IDiskRemote::createFile]: create an empty metadata file. *)
Definition createFile (this : IDiskRemote) (path : string) : M unit :=
  metadata <- createMeta this path ;;
  Metadata.save metadata false.

(** [IDiskRemote::getFileSize]. *)
Definition getFileSize (this : IDiskRemote) (path : string) : M Z :=
  metadata <- readMeta this path ;;
  ret (Metadata.total_size metadata).

(** [IDiskRemote::setReadOnly]: the flag is stored inside the metadata file. *)
Definition setReadOnly (this : IDiskRemote) (path : string) : M unit :=
  metadata <- readMeta this path ;;
  Metadata.save (Metadata.set_read_only true metadata) false.

(** [IDiskRemote::createHardLink]. *)
Definition createHardLink (this : IDiskRemote) (src_path dst_path : string) : M unit :=
  src <- readMeta this src_path ;;
  let src := Metadata.set_ref_count (wrap UInt32_bits (Metadata.ref_count src + 1)) src in
  Metadata.save src false ;;
  on_fs (fun fs =>
    LocalFS.createHardLink fs (metadata_path this +:+ src_path) (metadata_path this +:+ dst_path)).

(* ===================================================================== *)
(** * Reservations *)
(* ===================================================================== *)

(** The disk's counters, [UInt64] both.  Every function below holds
    [reservation_mutex] for its whole body, so it runs in one step. *)
Definition get_reserved_bytes : M Z := fun w => (Ok (reserved_bytes w), w).
Definition put_reserved_bytes (x : Z) : M unit := fun w => (Ok tt, set_reserved_bytes x w).
Definition get_reservation_count : M Z := fun w => (Ok (reservation_count w), w).
Definition put_reservation_count (x : Z) : M unit :=
  fun w => (Ok tt, set_reservation_count x w).

(** [getAvailableSpace] is virtual: the remote store's answer is part of the
    world. *)
Definition getAvailableSpace : M Z := fun w => (Ok (available_space w), w).

Module DiskRemoteReservation.

Record t : Type := { disk : IDiskRemote; size : Z }.

(** [DiskRemoteReservation::getDisk]. *)
Definition getDisk (r : t) (i : Z) : M IDiskRemote :=
  if negb (i =? 0) then throw (DBException INCORRECT_DISK_INDEX None)
  else ret (disk r).

(** [DiskRemoteReservation::update]: returns the reservation with its new
    size. *)
Definition update (r : t) (new_size : Z) : M t :=
  reserved <- get_reserved_bytes ;;
  let reserved := wrap UInt64_bits (reserved - size r) in
  let r := {| disk := disk r; size := new_size |} in
  put_reserved_bytes (wrap UInt64_bits (reserved + size r)) ;;
  ret r.

(** The [try] block of the destructor. *)
Definition destructor_try (r : t) : M unit :=
  reserved <- get_reserved_bytes ;;
  (if reserved <? size r then
     put_reserved_bytes 0 ;;
     LOG Error (UnbalancedReservationsSize (disk_name (disk r)))
   else
     put_reserved_bytes (wrap UInt64_bits (reserved - size r))) ;;
  count <- get_reservation_count ;;
  if count =? 0 then
    LOG Error (UnbalancedReservationCount (disk_name (disk r)))
  else
    put_reservation_count (wrap UInt64_bits (count - 1)).

(** [DiskRemoteReservation::~DiskRemoteReservation]: [catch (...)] swallows
    whatever the body raises. *)
Definition destructor (r : t) : M unit :=
  try_catch (destructor_try r) (fun _ => ret tt).

End DiskRemoteReservation.

(** [IDiskRemote::tryReserve]. *)
Definition tryReserve (this : IDiskRemote) (bytes : Z) : M bool :=
  if bytes =? 0 then
    LOG Debug (ReservingZeroBytes (disk_name this)) ;;
    count <- get_reservation_count ;;
    put_reservation_count (wrap UInt64_bits (count + 1)) ;;
    ret true
  else
    available <- getAvailableSpace ;;
    reserved <- get_reserved_bytes ;;
    let unreserved_space := wrap UInt64_bits (available - Z.min available reserved) in
    if bytes <=? unreserved_space then
      LOG Debug (Reserving bytes (disk_name this) unreserved_space) ;;
      count <- get_reservation_count ;;
      put_reservation_count (wrap UInt64_bits (count + 1)) ;;
      put_reserved_bytes (wrap UInt64_bits (reserved + bytes)) ;;
      ret true
    else ret false.

(** [IDiskRemote::reserve]: a reservation, or nothing when the space cannot
    be reserved. *)
Definition reserve (this : IDiskRemote) (bytes : Z) : M (option DiskRemoteReservation.t) :=
  ok <- tryReserve this bytes ;;
  if ok : bool then
    ret (Some {| DiskRemoteReservation.disk := this; DiskRemoteReservation.size := bytes |})
  else ret None.

(* ===================================================================== *)
(** * Renaming, replacing and listing *)
(* ===================================================================== *)

(** [Poco::File::renameTo] is rename(2) on local storage. *)
Module PocoFile.

Import LocalFS.

(** The inodes a walk passes, the start included. *)
Fixpoint visited (fs : gmap nat inode) (cur : nat) (comps : list string) : list nat :=
  cur ::
  match comps with
  | [] => []
  | c :: cs =>
      match fs !! cur with
      | Some (IDir es) =>
          match lookup_entry c es with
          | Some e => visited fs (d_ino e) cs
          | None => []
          end
      | _ => []
      end
  end.

(** The directory of [path] lies at or below the inode [n]. *)
Definition passes (fs : gmap nat inode) (n : nat) (path : string) : bool :=
  match split_last (split_path path) with
  | Some (init, _) => existsb (Nat.eqb n) (visited fs root_ino init)
  | None => false
  end.

(** An entry that is a directory itself, not a link to one. *)
Definition is_directory_entry (fs : gmap nat inode) (e : dirent) : bool :=
  negb (d_symlink e) &&
  match fs !! d_ino e with Some (IDir _) => true | _ => false end.

Definition is_empty_directory (fs : gmap nat inode) (e : dirent) : bool :=
  match fs !! d_ino e with Some (IDir []) => true | _ => false end.

(** The entry [e], named [name] in the directory [p], becomes the entry
    [name'] of the directory [q], in place of what has that name there. *)
Definition move_entry (fs : gmap nat inode) (p : nat) (es : list dirent) (name : string)
    (e : dirent) (q : nat) (name' : string) : Result (gmap nat inode) :=
  let fs1 := <[p := IDir (unlink_entry name es)]> fs in
  match fs1 !! q with
  | Some (IDir esq) =>
      let e' := {| d_name := name'; d_ino := d_ino e; d_symlink := d_symlink e |} in
      Ok (<[q := IDir (unlink_entry name' esq ++ [e'])]> fs1)
  | _ => Throw (PocoException FileNotFoundException)
  end.

(** Modelled from the spec: [Poco::File::renameTo] is not in the source; it
    calls rename(2) and raises the exception of its error.  The entry at
    [from_path] is moved, a link as the link it is.  An existing destination is
    replaced when it is of the same kind (a directory only when empty); two
    hard links to one file are left alone; a directory does not move below
    itself (Poco raises its general file exception there, counted here with
    the not-a-file and not-a-directory errors). *)
Definition renameTo (fs : gmap nat inode) (from_path to_path : string)
  : Result (gmap nat inode) :=
  match parent fs from_path with
  | Some (p, es, name) =>
      match lookup_entry name es with
      | Some e =>
          match parent fs to_path with
          | Some (q, esq, name') =>
              if Nat.eqb p q && String.eqb name name' then Ok fs
              else if is_directory_entry fs e && passes fs (d_ino e) to_path then
                Throw (PocoException OpenFileException)
              else
                match lookup_entry name' esq with
                | None => move_entry fs p es name e q name'
                | Some e' =>
                    match is_directory_entry fs e, is_directory_entry fs e' with
                    | true, true =>
                        if is_empty_directory fs e' then move_entry fs p es name e q name'
                        else Throw (PocoException DirectoryNotEmptyException)
                    | true, false => Throw (PocoException OpenFileException)
                    | false, true => Throw (PocoException OpenFileException)
                    | false, false =>
                        if Nat.eqb (d_ino e) (d_ino e')
                           && negb (d_symlink e) && negb (d_symlink e')
                        then Ok fs
                        else move_entry fs p es name e q name'
                    end
                end
          | None => Throw (PocoException FileNotFoundException)
          end
      | None => Throw (PocoException FileNotFoundException)
      end
  | None => Throw (PocoException FileNotFoundException)
  end.

End PocoFile.

(** [IDiskRemote::moveFile]. *)
Definition moveFile (this : IDiskRemote) (from_path to_path : string) : M unit :=
  e <- exists_ this to_path ;;
  if e : bool then throw (DBException FILE_ALREADY_EXISTS None)
  else
    on_fs (fun fs =>
      PocoFile.renameTo fs (metadata_path this +:+ from_path) (metadata_path this +:+ to_path)).

(** [IDiskRemote::replaceFile]. *)
Definition replaceFile (this : IDiskRemote) (from_path to_path : string) : M unit :=
  e <- exists_ this to_path ;;
  if e : bool then
    let tmp_path := to_path +:+ ".old" in
    moveFile this to_path tmp_path ;;
    moveFile this from_path to_path ;;
    removeFile this tmp_path
  else moveFile this from_path to_path.

(** [IDiskRemote::isDirectory]. *)
Definition isDirectory (this : IDiskRemote) (path : string) : M bool :=
  ask_fs (fun fs => LocalFS.isDirectory fs (metadata_path this +:+ path)).

(** [IDiskRemote::clearDirectory]: the loop body asks the iterator for the
    path of the child twice. *)
Definition clearDirectory (this : IDiskRemote) (path : string) : M unit :=
  names <- iterateDirectory this path ;;
  forM_ names (fun name =>
    it_path <- iterator_path this path name ;;
    is_file <- isFile this it_path ;;
    if is_file : bool then
      it_path <- iterator_path this path name ;;
      removeFile this it_path
    else ret tt).

(** [IDiskRemote::removeDirectory]. *)
Definition removeDirectory (this : IDiskRemote) (path : string) : M unit :=
  file_remove (metadata_path this +:+ path).

(** [IDiskRemote::listFiles]: the names are appended to [file_names], which
    is passed by reference; the vector it holds afterwards is returned. *)
Definition listFiles (this : IDiskRemote) (path : string) (file_names : list string)
  : M (list string) :=
  names <- iterateDirectory this path ;;
  ret (fold_left (fun v name => v ++ [name]) names file_names).

(* ===================================================================== *)
(** * The metadata file format *)
(* ===================================================================== *)

(** The layout of a metadata file of any version, as the format description
    gives it: the version, the object count and the total size, one line per
    object (size, then the stored path, escaped), the reference count, and
    whatever follows ([tail]; for the newest version, the read-only flag).
    [save] writes version 2 files only; files of the other versions are
    written by older and newer builds. *)
Module Format.

Definition digits (n : Z) : string := IO.write_digits 20 n EmptyString.

Definition render_object (o : string * Z) (rest : string) : string :=
  digits (snd o) +:+ String IO.tab (IO.escape (fst o) +:+ String IO.newline rest).

Definition render_objects (stored : list (string * Z)) (rest : string) : string :=
  fold_right render_object rest stored.

Definition render (version : Z) (stored : list (string * Z)) (total ref : Z)
    (tail : string) : string :=
  digits version +:+ String IO.newline
    (digits (Z.of_nat (length stored)) +:+ String IO.tab
       (digits total +:+ String IO.newline
          (render_objects stored (digits ref +:+ String IO.newline tail)))).

Definition render_flag (b : bool) : string :=
  String (if b then "1" else "0")%char (String IO.newline EmptyString).

(** The object a stored line stands for: in a version 1 file the stored path
    is absolute and the remote root is cut off. *)
Definition relative (version : Z) (root : string) (o : string * Z) : string * Z :=
  (if version =? Metadata.VERSION_ABSOLUTE_PATHS
   then substr (fst o) (String.length root) else fst o, snd o).

(** The stored line of an object in a version 1 file. *)
Definition absolute (root : string) (o : string * Z) : string * Z :=
  (root +:+ fst o, snd o).

End Format.

(** A record whose members hold values of their types: at most [2^32 - 1]
    objects (the count is read back into a [UInt32]), [size_t] sizes, a
    [UInt32] reference count. *)
Definition valid_objects (objects : list (string * Z)) : Prop :=
  Z.of_nat (length objects) < 2 ^ 32 /\
  Forall (fun o => in_range size_t_bits (snd o)) objects.

Definition valid_record (m : Metadata.t) : Prop :=
  valid_objects (Metadata.remote_fs_objects m) /\
  in_range size_t_bits (Metadata.total_size m) /\
  in_range UInt32_bits (Metadata.ref_count m).

(** ** Vocabulary for statements about local storage *)

(** The root of local storage is a directory. *)
Definition root_is_directory (fs : gmap nat LocalFS.inode) : Prop :=
  exists es, fs !! LocalFS.root_ino = Some (LocalFS.IDir es).

(** [path] names the regular file with inode [n], which holds [data]. *)
Definition regular_file (fs : gmap nat LocalFS.inode) (path : string) (n : nat)
    (data : string) : Prop :=
  LocalFS.resolve fs path = Some n /\ fs !! n = Some (LocalFS.IFile data).

(** [path] is a name that is free in an existing directory. *)
Definition free_name (fs : gmap nat LocalFS.inode) (path : string) : Prop :=
  exists p es name,
    LocalFS.parent fs path = Some (p, es, name) /\ LocalFS.lookup_entry name es = None.

(** The directory entry a path denotes: the inode of its directory and its
    name there.  Two paths with the same entry are the same link. *)
Definition dir_entry (fs : gmap nat LocalFS.inode) (path : string) : option (nat * string) :=
  match LocalFS.parent fs path with
  | Some (p, _, name) => Some (p, name)
  | None => None
  end.

(** Local storage once the entry at [path] is unlinked. *)
Definition unlinked (fs : gmap nat LocalFS.inode) (path : string) : gmap nat LocalFS.inode :=
  match LocalFS.parent fs path with
  | Some (p, es, name) => <[p := LocalFS.IDir (LocalFS.unlink_entry name es)]> fs
  | None => fs
  end.

(** The record that reading a file written by [save] gives back: a version 2
    file carries no read-only flag for the reader. *)
Definition reread (root disk_path_ metadata_file_path_ : string) (m : Metadata.t)
  : Metadata.t :=
  {| Metadata.remote_fs_root_path := root; Metadata.disk_path := disk_path_;
     Metadata.metadata_file_path := metadata_file_path_;
     Metadata.total_size := Metadata.total_size m;
     Metadata.remote_fs_objects := Metadata.remote_fs_objects m;
     Metadata.ref_count := Metadata.ref_count m; Metadata.read_only := false |}.

(** The record a file of the given version, stored lines, total size,
    reference count and flag parses to. *)
Definition parsed (version : Z) (root disk_path_ metadata_file_path_ : string)
    (stored : list (string * Z)) (total ref : Z) (flag : bool) : Metadata.t :=
  {| Metadata.remote_fs_root_path := root; Metadata.disk_path := disk_path_;
     Metadata.metadata_file_path := metadata_file_path_;
     Metadata.total_size := total;
     Metadata.remote_fs_objects := map (Format.relative version root) stored;
     Metadata.ref_count := ref; Metadata.read_only := flag |}.

(** A buffer on which the digit loop stops at once. *)
Definition no_digit_ahead (buf : string) : Prop :=
  match buf with
  | EmptyString => True
  | String c _ => IO.is_digit c = false
  end.

(** A format error: a [DB::Exception] with the code [UNKNOWN_FORMAT]. *)
Definition is_format_error (e : Exception) : Prop :=
  exists nested, e = DBException UNKNOWN_FORMAT nested.

Definition is_DBException (e : Exception) : Prop :=
  match e with DBException _ _ => True | PocoException _ => False end.

(** A reader that raises [DB::Exception]s only. *)
Definition throws_db {A} (r : IO.Reader A) : Prop :=
  forall buf e, r buf = Throw e -> is_DBException e.

(** A sequence of [addObject] calls, and the sum of the sizes added. *)
Definition addObjects (objects : list (string * Z)) (m : Metadata.t) : Metadata.t :=
  fold_left (fun m o => Metadata.addObject (fst o) (snd o) m) objects m.

Definition sum_sizes (objects : list (string * Z)) : Z :=
  fold_right Z.add 0 (map snd objects).

(** A name without the path separator. *)
Fixpoint no_slash (name : string) : bool :=
  match name with
  | EmptyString => true
  | String c rest => negb (Ascii.eqb c "/") && no_slash rest
  end.

(** A name a directory entry can have. *)
Definition valid_name (name : string) : Prop := name <> EmptyString /\ no_slash name = true.

(** A path written as a directory: with a slash at its end. *)
Definition ends_with_slash (path : string) : Prop := exists p, path = p +:+ "/".

(** Every directory in [C] has a first entry, which leads to a directory in
    [C] again: following first entries never ends.  Local storage is finite,
    so this is a cycle. *)
Definition descends_forever (fs : gmap nat LocalFS.inode) (C : nat -> Prop) : Prop :=
  forall d, C d ->
    exists e rest,
      fs !! d = Some (LocalFS.IDir (e :: rest)) /\
      valid_name (LocalFS.d_name e) /\ C (LocalFS.d_ino e).

(** ** A small disk, for examples *)

Definition example_disk : IDiskRemote :=
  {| disk_name := "s3"; remote_fs_root_path := "root/"; metadata_path := "/disk/" |}.

Definition example_record (ref : Z) (flag : bool) : Metadata.t :=
  {| Metadata.remote_fs_root_path := "root/"; Metadata.disk_path := "/disk/";
     Metadata.metadata_file_path := "f"; Metadata.total_size := 30;
     Metadata.remote_fs_objects := [("abc"%string, 10); ("d"%string, 20)];
     Metadata.ref_count := ref; Metadata.read_only := flag |}.

(** Local storage with the directory [/disk] and the file [/disk/f]. *)
Definition example_fs (data : string) : gmap nat LocalFS.inode :=
  <[0%nat := LocalFS.IDir
               [{| LocalFS.d_name := "disk"; LocalFS.d_ino := 1%nat;
                   LocalFS.d_symlink := false |}]]>
  (<[1%nat := LocalFS.IDir
                [{| LocalFS.d_name := "f"; LocalFS.d_ino := 2%nat;
                    LocalFS.d_symlink := false |}]]>
   (<[2%nat := LocalFS.IFile data]> ∅)).

Definition example_world (data : string) : World :=
  {| local_fs := example_fs data; remote_removed := []; remote_error := None;
     available_space := 100; reserved_bytes := 40; reservation_count := 2;
     log := [] |}.

(** Local storage with a cycle: the directory [/disk/a] holds the symbolic
    link [loop] to itself, and a file. *)
Definition example_cyclic_fs : gmap nat LocalFS.inode :=
  <[0%nat := LocalFS.IDir
               [{| LocalFS.d_name := "disk"; LocalFS.d_ino := 1%nat;
                   LocalFS.d_symlink := false |}]]>
  (<[1%nat := LocalFS.IDir
                [{| LocalFS.d_name := "a"; LocalFS.d_ino := 2%nat;
                    LocalFS.d_symlink := false |}]]>
   (<[2%nat := LocalFS.IDir
                 [{| LocalFS.d_name := "loop"; LocalFS.d_ino := 2%nat;
                     LocalFS.d_symlink := true |};
                  {| LocalFS.d_name := "f"; LocalFS.d_ino := 3%nat;
                     LocalFS.d_symlink := false |}]]>
    (<[3%nat := LocalFS.IFile EmptyString]> ∅))).

Definition example_cyclic_world : World :=
  {| local_fs := example_cyclic_fs; remote_removed := []; remote_error := None;
     available_space := 100; reserved_bytes := 0; reservation_count := 0;
     log := [] |}.

(** ** More vocabulary and examples *)

(** The record of a file that has just been created: no object, and no
    reference besides the file itself. *)
Definition empty_record (root disk_path_ metadata_file_path_ : string) : Metadata.t :=
  {| Metadata.remote_fs_root_path := root; Metadata.disk_path := disk_path_;
     Metadata.metadata_file_path := metadata_file_path_; Metadata.total_size := 0;
     Metadata.remote_fs_objects := []; Metadata.ref_count := 0;
     Metadata.read_only := false |}.

(** Local storage with the directory [/disk] and two files in it: [f] and
    [name]. *)
Definition example_two_files_fs (name data data' : string) : gmap nat LocalFS.inode :=
  <[0%nat := LocalFS.IDir
               [{| LocalFS.d_name := "disk"; LocalFS.d_ino := 1%nat;
                   LocalFS.d_symlink := false |}]]>
  (<[1%nat := LocalFS.IDir
                [{| LocalFS.d_name := "f"; LocalFS.d_ino := 2%nat;
                    LocalFS.d_symlink := false |};
                 {| LocalFS.d_name := name; LocalFS.d_ino := 3%nat;
                    LocalFS.d_symlink := false |}]]>
   (<[2%nat := LocalFS.IFile data]> (<[3%nat := LocalFS.IFile data']> ∅))).

Definition example_two_files_world (name data data' : string) : World :=
  {| local_fs := example_two_files_fs name data data'; remote_removed := [];
     remote_error := None; available_space := 100; reserved_bytes := 0;
     reservation_count := 0; log := [] |}.

(** Local storage once the entry [name] of the directory [p] (with the
    entries [es]) has left it and [e'] has been appended to the directory [q]
    (with the entries [esq]): the two steps of a move. *)
Definition moved (fs : gmap nat LocalFS.inode) (p : nat) (es : list LocalFS.dirent)
    (name : string) (q : nat) (esq : list LocalFS.dirent) (e' : LocalFS.dirent)
  : gmap nat LocalFS.inode :=
  let fs1 := <[p := LocalFS.IDir (LocalFS.unlink_entry name es)]> fs in
  <[q := LocalFS.IDir
           ((if decide (q = p) then LocalFS.unlink_entry name es else esq) ++ [e'])]> fs1.

(** The record [m] as it is read through another path of the same disk. *)
Definition at_path (metadata_file_path_ : string) (m : Metadata.t) : Metadata.t :=
  {| Metadata.remote_fs_root_path := Metadata.remote_fs_root_path m;
     Metadata.disk_path := Metadata.disk_path m;
     Metadata.metadata_file_path := metadata_file_path_;
     Metadata.total_size := Metadata.total_size m;
     Metadata.remote_fs_objects := Metadata.remote_fs_objects m;
     Metadata.ref_count := Metadata.ref_count m;
     Metadata.read_only := Metadata.read_only m |}.

(** A member function that sends no delete request to the remote store,
    whatever it returns or raises. *)
Definition keeps_remote {A} (m : M A) : Prop :=
  forall w, remote_removed (snd (m w)) = remote_removed w.

(** The inode is a directory. *)
Definition is_directory_inode (fs : gmap nat LocalFS.inode) (n : nat) : bool :=
  match fs !! n with Some (LocalFS.IDir _) => true | _ => false end.

(** The entries of a directory that are directories (or links to
    directories) on the local storage [fs]. *)
Definition subdirectories (fs : gmap nat LocalFS.inode) (es : list LocalFS.dirent)
  : list LocalFS.dirent :=
  List.filter (fun e => is_directory_inode fs (LocalFS.d_ino e)) es.

(** Local storage [fs] while the files of the directory [d] at [dir] are
    being removed, starting from [fs0]: the entries [done] have been visited
    and [todo] are still to come.  Every other directory is as it was, files
    are still files, and [d] holds the directories among [done], then
    [todo]. *)
Definition clearing (fs0 : gmap nat LocalFS.inode) (dir : string) (d : nat)
    (done todo : list LocalFS.dirent) (fs : gmap nat LocalFS.inode) : Prop :=
  (forall x sub, fs0 !! x = Some (LocalFS.IDir sub) -> x <> d ->
                 fs !! x = Some (LocalFS.IDir sub)) /\
  (forall x data, fs0 !! x = Some (LocalFS.IFile data) ->
                  exists data', fs !! x = Some (LocalFS.IFile data')) /\
  fs !! d = Some (LocalFS.IDir (subdirectories fs0 done ++ todo)) /\
  LocalFS.resolve fs dir = Some d /\
  root_is_directory fs.

(** Local storage with the directory [/disk/a], which holds the file [f]
    and the directory [sub], which holds the file [x]. *)
Definition example_tree_fs (data : string) : gmap nat LocalFS.inode :=
  <[0%nat := LocalFS.IDir
               [{| LocalFS.d_name := "disk"; LocalFS.d_ino := 1%nat;
                   LocalFS.d_symlink := false |}]]>
  (<[1%nat := LocalFS.IDir
                [{| LocalFS.d_name := "a"; LocalFS.d_ino := 2%nat;
                    LocalFS.d_symlink := false |}]]>
   (<[2%nat := LocalFS.IDir
                 [{| LocalFS.d_name := "f"; LocalFS.d_ino := 3%nat;
                     LocalFS.d_symlink := false |};
                  {| LocalFS.d_name := "sub"; LocalFS.d_ino := 4%nat;
                     LocalFS.d_symlink := false |}]]>
    (<[3%nat := LocalFS.IFile data]>
     (<[4%nat := LocalFS.IDir
                   [{| LocalFS.d_name := "x"; LocalFS.d_ino := 5%nat;
                       LocalFS.d_symlink := false |}]]>
      (<[5%nat := LocalFS.IFile data]> ∅))))).

Definition example_tree_world (data : string) : World :=
  {| local_fs := example_tree_fs data; remote_removed := []; remote_error := None;
     available_space := 100; reserved_bytes := 0; reservation_count := 0;
     log := [] |}.

(** [path] is a link to the file with inode [n], and the record read there
    has the reference count [k] and the objects [objects]. *)
Definition linked (this : IDiskRemote) (fs : gmap nat LocalFS.inode) (n : nat) (k : Z)
    (objects : list (string * Z)) (path : string) : Prop :=
  LocalFS.resolve fs (metadata_path this +:+ path) = Some n /\
  exists m,
    Metadata.Metadata (remote_fs_root_path this) (metadata_path this) path false fs = Ok m /\
    Metadata.ref_count m = k /\ Metadata.remote_fs_objects m = objects.

(** Local storage with the directory [/disk] and one file with three hard
    links in it: [f], [g] and [h]. *)
Definition example_links_fs (data : string) : gmap nat LocalFS.inode :=
  <[0%nat := LocalFS.IDir
               [{| LocalFS.d_name := "disk"; LocalFS.d_ino := 1%nat;
                   LocalFS.d_symlink := false |}]]>
  (<[1%nat := LocalFS.IDir
                [{| LocalFS.d_name := "f"; LocalFS.d_ino := 2%nat;
                    LocalFS.d_symlink := false |};
                 {| LocalFS.d_name := "g"; LocalFS.d_ino := 2%nat;
                    LocalFS.d_symlink := false |};
                 {| LocalFS.d_name := "h"; LocalFS.d_ino := 2%nat;
                    LocalFS.d_symlink := false |}]]>
   (<[2%nat := LocalFS.IFile data]> ∅)).

Definition example_links_world (data : string) : World :=
  {| local_fs := example_links_fs data; remote_removed := []; remote_error := None;
     available_space := 100; reserved_bytes := 0; reservation_count := 0;
     log := [] |}.

(** A tree of height at most [h] below the inode [n]: a file, or a directory
    whose entries have proper and distinct names and lead to trees of lower
    height.  [F] holds the directories of the tree; along a branch no
    directory comes twice. *)
Fixpoint tree (fs : gmap nat LocalFS.inode) (h : nat) (n : nat) (F : gset nat) : Prop :=
  (exists data, fs !! n = Some (LocalFS.IFile data)) \/
  match h with
  | O => False
  | S h' =>
      exists es,
        fs !! n = Some (LocalFS.IDir es) /\ n ∈ F /\
        Forall (fun e => valid_name (LocalFS.d_name e)) es /\
        List.NoDup (map LocalFS.d_name es) /\
        Forall (fun e => tree fs h' (LocalFS.d_ino e) (F ∖ {[n]})) es
  end.

(** Local storage [fs'] has what [fs] has, or less: files are still files,
    and directories hold some of their entries, in their order. *)
Definition shrunk (fs fs' : gmap nat LocalFS.inode) : Prop :=
  forall x,
    match fs !! x with
    | Some (LocalFS.IFile _) => exists data', fs' !! x = Some (LocalFS.IFile data')
    | Some (LocalFS.IDir sub) =>
        exists sub', fs' !! x = Some (LocalFS.IDir sub') /\ sublist sub' sub
    | None => True
    end.

(** What the removal of the entry [name] of the directory [d], with what is
    below it, leaves of [fs]: the directory has lost the entry, the directories
    outside [F] are as they were, and nothing has been added. *)
Definition entry_removed (fs fs' : gmap nat LocalFS.inode) (d : nat) (name : string)
    (F : gset nat) : Prop :=
  (exists es, fs !! d = Some (LocalFS.IDir es) /\
              fs' !! d = Some (LocalFS.IDir (LocalFS.unlink_entry name es))) /\
  (forall x sub, fs !! x = Some (LocalFS.IDir sub) -> x <> d -> x ∉ F ->
                 fs' !! x = Some (LocalFS.IDir sub)) /\
  shrunk fs fs'.

(** The directories passed on the way to the directory that [path] lies
    in, that directory included. *)
Definition ancestors (fs : gmap nat LocalFS.inode) (path : string) : list nat :=
  match LocalFS.split_last (LocalFS.split_path path) with
  | Some (init, _) => PocoFile.visited fs LocalFS.root_ino init
  | None => []
  end.

(* ===================================================================== *)
(** * Properties of the text helpers *)
(* ===================================================================== *)

Example readIntText_example :
  IO.readIntText 32 ("42" +:+ String IO.newline "x") = Ok (42, String IO.newline "x").
Proof. reflexivity. Qed.

Example writeIntText_example :
  IO.writeIntText 18446744073709551615 EmptyString = "18446744073709551615"%string.
Proof. reflexivity. Qed.

Example escape_example :
  IO.readEscapedString (IO.escape ("a" +:+ String IO.tab "b\c'") +:+ String IO.tab "rest")
  = Ok ("a" +:+ String IO.tab "b\c'", String IO.tab "rest").
Proof. reflexivity. Qed.

Example save_buffer_example :
  Metadata.save_buffer
    {| Metadata.remote_fs_root_path := "root/"; Metadata.disk_path := "/disk/";
       Metadata.metadata_file_path := "f"; Metadata.total_size := 30;
       Metadata.remote_fs_objects := [("abc"%string, 10); ("d"%string, 20)];
       Metadata.ref_count := 1; Metadata.read_only := true |}
  = ("2" +:+ String IO.newline ("2" +:+ String IO.tab ("30" +:+ String IO.newline
    ("10" +:+ String IO.tab ("abc" +:+ String IO.newline
    ("20" +:+ String IO.tab ("d" +:+ String IO.newline
    ("1" +:+ String IO.newline ("1" +:+ String IO.newline EmptyString)))))))))%string.
Proof. reflexivity. Qed.

Lemma wrap_small w x : in_range w x -> wrap w x = x.
Proof. unfold in_range, wrap. intros H. apply Z.mod_small. exact H. Qed.

Lemma in_range_literal w x : (0 <=? x) && (x <? 2 ^ w) = true -> in_range w x.
Proof. unfold in_range. intros H. apply andb_true_iff in H as [H1 H2]. lia. Qed.

Lemma wrap_range w x : 0 <= w -> in_range w (wrap w x).
Proof.
  intros Hw. unfold in_range, wrap. apply Z.mod_pos_bound.
  apply Z.pow_pos_nonneg; lia.
Qed.

Lemma wrap_add_l w x y : wrap w (wrap w x + y) = wrap w (x + y).
Proof. unfold wrap. apply Zplus_mod_idemp_l. Qed.

Lemma string_app_nil_l (b : string) : EmptyString +:+ b = b.
Proof. reflexivity. Qed.

Lemma string_app_cons c (a b : string) : String c a +:+ b = String c (a +:+ b).
Proof. reflexivity. Qed.

Lemma string_app_assoc (a b c : string) : (a +:+ b) +:+ c = a +:+ (b +:+ c).
Proof.
  induction a as [|x a IH]; [reflexivity |].
  now rewrite !string_app_cons, IH.
Qed.

Lemma string_app_nil_r (a : string) : a +:+ EmptyString = a.
Proof.
  induction a as [|x a IH]; [reflexivity |].
  now rewrite string_app_cons, IH.
Qed.

Section IntText.

Import IO.

Lemma digit_char_spec d :
  0 <= d < 10 -> is_digit (digit_char d) = true /\ digit_val (digit_char d) = d.
Proof.
  intros H.
  assert (d = 0 \/ d = 1 \/ d = 2 \/ d = 3 \/ d = 4 \/
          d = 5 \/ d = 6 \/ d = 7 \/ d = 8 \/ d = 9) as Hd by lia.
  repeat (destruct Hd as [-> | Hd]; [split; reflexivity |]).
  subst d. split; reflexivity.
Qed.

Lemma write_digits_app fuel n acc rest :
  write_digits fuel n acc +:+ rest = write_digits fuel n (acc +:+ rest).
Proof.
  revert n acc. induction fuel as [|fuel IH]; intros n acc; simpl.
  - reflexivity.
  - destruct (n / 10 =? 0); [reflexivity | apply IH].
Qed.

Lemma write_digits_head fuel n acc :
  exists c s, write_digits (S fuel) n acc = String c s /\ is_digit c = true.
Proof.
  revert n acc. induction fuel as [|fuel IH]; intros n acc.
  - simpl. destruct (n / 10 =? 0);
      (eexists; eexists; split; [reflexivity |]);
      apply digit_char_spec; apply Z.mod_pos_bound; lia.
  - change (write_digits (S (S fuel)) n acc)
      with (let acc' := String (digit_char (n mod 10)) acc in
            if n / 10 =? 0 then acc' else write_digits (S fuel) (n / 10) acc').
    cbv zeta. destruct (n / 10 =? 0).
    + eexists; eexists; split; [reflexivity |].
      apply digit_char_spec; apply Z.mod_pos_bound; lia.
    + apply IH.
Qed.

(** Reading back what the digit writer wrote gives the number, when it fits
    the destination type and the writer had room for all its digits. *)
Lemma read_write_digits w fuel n acc :
  in_range w n -> n < 10 ^ Z.of_nat fuel ->
  read_digits w 0 (write_digits fuel n acc) = read_digits w n acc.
Proof.
  revert n acc. induction fuel as [|fuel IH]; intros n acc Hn Hf.
  - simpl in Hf. unfold in_range in Hn. replace n with 0 by lia. reflexivity.
  - assert (Hd : 0 <= n mod 10 < 10) by (apply Z.mod_pos_bound; lia).
    destruct (digit_char_spec _ Hd) as [Hdig Hval].
    assert (Hstep : read_digits w (n / 10) (String (digit_char (n mod 10)) acc)
                    = read_digits w n acc).
    { simpl. rewrite Hdig, Hval.
      replace (n / 10 * 10 + n mod 10) with n
        by (pose proof (Z.div_mod n 10); lia).
      now rewrite (wrap_small w n Hn). }
    simpl. destruct (n / 10 =? 0) eqn:Hq.
    + apply Z.eqb_eq in Hq. rewrite <- Hstep, Hq. reflexivity.
    + rewrite IH; [exact Hstep | |].
      * unfold in_range in *. split; [apply Z.div_pos; lia |].
        apply Z.le_lt_trans with n; [| lia].
        apply Z.div_le_upper_bound; lia.
      * rewrite Nat2Z.inj_succ, Z.pow_succ_r in Hf by lia.
        apply Z.div_lt_upper_bound; lia.
Qed.

Lemma read_digits_stop w n buf : no_digit_ahead buf -> read_digits w n buf = (n, buf).
Proof. destruct buf as [|c rest]; simpl; [reflexivity | now intros ->]. Qed.

Lemma readIntText_writeIntText w n rest :
  in_range w n -> n < 2 ^ 64 -> no_digit_ahead rest ->
  readIntText w (write_digits 20 n EmptyString +:+ rest) = Ok (n, rest).
Proof.
  intros Hn H64 Hrest. rewrite write_digits_app, string_app_nil_l.
  destruct (write_digits_head 19 n rest) as (c & s & Heq & Hc).
  unfold readIntText. rewrite Heq, Hc, <- Heq.
  rewrite read_write_digits; [| exact Hn |].
  - now rewrite read_digits_stop.
  - apply Z.lt_trans with (2 ^ 64); [exact H64 | reflexivity].
Qed.

Lemma no_digit_ahead_tab s : no_digit_ahead (String tab s).
Proof. reflexivity. Qed.

Lemma no_digit_ahead_newline s : no_digit_ahead (String newline s).
Proof. reflexivity. Qed.

End IntText.

Section EscapedText.

Import IO.

Lemma readEscapedString_plain c rest s buf' :
  Ascii.eqb c tab = false -> Ascii.eqb c newline = false ->
  Ascii.eqb c backslash = false ->
  readEscapedString rest = Ok (s, buf') ->
  readEscapedString (String c rest) = Ok (String c s, buf').
Proof. intros Ht Hn Hb Hr. simpl. now rewrite Ht, Hn, Hb, Hr. Qed.

Lemma readEscapedString_escaped e rest s buf' :
  readEscapedString rest = Ok (s, buf') ->
  readEscapedString (String backslash (String e rest))
  = Ok (String (parseEscapeSequence e) s, buf').
Proof. intros Hr. simpl. now rewrite Hr. Qed.

(** One escaped character is read back as the character. *)
Lemma readEscapedString_escape_char c rest s buf' :
  readEscapedString rest = Ok (s, buf') ->
  readEscapedString (escape_char c +:+ rest) = Ok (String c s, buf').
Proof.
  intros Hr. unfold escape_char.
  repeat match goal with
  | |- context [if Ascii.eqb c ?k then _ else _] =>
      let E := fresh "E" in
      destruct (Ascii.eqb c k) eqn:E;
      [apply Ascii.eqb_eq in E; subst c;
       exact (readEscapedString_escaped _ rest s buf' Hr) |]
  end.
  rewrite string_app_cons, string_app_nil_l.
  now apply readEscapedString_plain.
Qed.

(** The escape scheme is reversible: an escaped string followed by a
    separator is read back exactly, and reading stops at the separator. *)
Lemma readEscapedString_escape s c rest :
  c = tab \/ c = newline ->
  readEscapedString (escape s +:+ String c rest) = Ok (s, String c rest).
Proof.
  intros Hc. induction s as [|x s IH].
  - rewrite string_app_nil_l. destruct Hc as [-> | ->]; reflexivity.
  - simpl escape. rewrite string_app_assoc.
    now apply readEscapedString_escape_char.
Qed.

Lemma starts_with_app root p : starts_with (root +:+ p) root = true.
Proof.
  unfold starts_with. induction root as [|a root IH]; [now destruct p |].
  rewrite string_app_cons. simpl. destruct (ascii_dec a a); [exact IH | congruence].
Qed.

Lemma substr_app root p : substr (root +:+ p) (String.length root) = p.
Proof.
  induction root as [|a root IH]; [now destruct p |].
  rewrite string_app_cons. exact IH.
Qed.

End EscapedText.

(* ===================================================================== *)
(** * Writing and parsing metadata files *)
(* ===================================================================== *)

Section Parsing.

Import IO.

Lemma bind_ok {A B} (m : Reader A) (k : A -> Reader B) buf a buf' :
  m buf = Ok (a, buf') -> IO.bind m k buf = k a buf'.
Proof. unfold IO.bind. now intros ->. Qed.

Lemma bind_throw {A B} (m : Reader A) (k : A -> Reader B) buf e :
  m buf = Throw e -> IO.bind m k buf = Throw e.
Proof. unfold IO.bind. now intros ->. Qed.

Lemma assertChar_ok c rest : assertChar c (String c rest) = Ok (tt, rest).
Proof. simpl. now rewrite Ascii.eqb_refl. Qed.

Lemma readIntText_digits w n rest :
  in_range w n -> n < 2 ^ 64 -> no_digit_ahead rest ->
  readIntText w (Format.digits n +:+ rest) = Ok (n, rest).
Proof. apply readIntText_writeIntText. Qed.

(** [save] writes a version 2 file. *)
Lemma fold_write_object objects buf rest :
  fold_left Metadata.write_object objects buf +:+ rest
  = buf +:+ Format.render_objects objects rest.
Proof.
  revert buf. induction objects as [|[path size] objects IH]; intros buf.
  - reflexivity.
  - simpl fold_left. rewrite IH. unfold Metadata.write_object, Format.render_objects.
    simpl fold_right. unfold Format.render_object, writeChar, writeEscapedString,
      writeIntText, Format.digits. simpl fst. simpl snd.
    now rewrite !string_app_assoc, !string_app_cons, !string_app_nil_l.
Qed.

Lemma save_buffer_render m :
  Metadata.save_buffer m
  = Format.render Metadata.VERSION_RELATIVE_PATHS (Metadata.remote_fs_objects m)
      (Metadata.total_size m) (Metadata.ref_count m)
      (Format.render_flag (Metadata.read_only m)).
Proof.
  unfold Metadata.save_buffer, Format.render, writeBoolText, writeChar, writeIntText.
  rewrite !string_app_assoc, fold_write_object.
  rewrite !string_app_assoc, !string_app_cons, !string_app_nil_l.
  reflexivity.
Qed.

Lemma read_object_render version root o rest :
  in_range size_t_bits (snd o) ->
  (version = Metadata.VERSION_ABSOLUTE_PATHS -> starts_with (fst o) root = true) ->
  Metadata.read_object version root (Format.render_object o rest)
  = Ok (Format.relative version root o, rest).
Proof.
  intros Hsize Hroot. unfold Metadata.read_object, Format.render_object.
  rewrite (bind_ok _ _ _ (snd o) (String tab (escape (fst o) +:+ String newline rest))).
  2:{ apply readIntText_digits; [exact Hsize | apply Hsize | apply no_digit_ahead_tab]. }
  rewrite (bind_ok _ _ _ tt _ (assertChar_ok _ _)).
  rewrite (bind_ok _ _ _ (fst o) (String newline rest)).
  2:{ apply readEscapedString_escape. now right. }
  unfold Format.relative.
  destruct (version =? Metadata.VERSION_ABSOLUTE_PATHS) eqn:Hv.
  - apply Z.eqb_eq in Hv. rewrite (Hroot Hv). simpl negb. cbv iota.
    rewrite (bind_ok _ _ _ (substr (fst o) (String.length root)) (String newline rest))
      by reflexivity.
    now rewrite (bind_ok _ _ _ tt _ (assertChar_ok _ _)).
  - rewrite (bind_ok _ _ _ (fst o) (String newline rest)) by reflexivity.
    now rewrite (bind_ok _ _ _ tt _ (assertChar_ok _ _)).
Qed.

Lemma read_objects_render version root stored rest :
  Forall (fun o => in_range size_t_bits (snd o)) stored ->
  (version = Metadata.VERSION_ABSOLUTE_PATHS ->
   Forall (fun o => starts_with (fst o) root = true) stored) ->
  Metadata.read_objects version root (length stored) (Format.render_objects stored rest)
  = Ok (map (Format.relative version root) stored, rest).
Proof.
  intros Hsizes Hroot. induction stored as [|o stored IH].
  - reflexivity.
  - simpl length. simpl Metadata.read_objects. simpl Format.render_objects.
    inversion Hsizes as [|? ? Ho Hs]; subst.
    rewrite (bind_ok _ _ _ _ _ (read_object_render version root o _ Ho
               (fun Hv => Forall_inv (Hroot Hv)))).
    rewrite (bind_ok _ _ _ _ _ (IH Hs (fun Hv => Forall_inv_tail (Hroot Hv)))).
    reflexivity.
Qed.

(** A stored path of a version 1 file that does not start with the remote
    root stops the loop with a format error. *)
Lemma read_object_bad_root root o rest :
  in_range size_t_bits (snd o) ->
  starts_with (fst o) root = false ->
  Metadata.read_object Metadata.VERSION_ABSOLUTE_PATHS root (Format.render_object o rest)
  = Throw (DBException UNKNOWN_FORMAT None).
Proof.
  intros Hsize Hroot. unfold Metadata.read_object, Format.render_object.
  rewrite (bind_ok _ _ _ (snd o) (String tab (escape (fst o) +:+ String newline rest))).
  2:{ apply readIntText_digits; [exact Hsize | apply Hsize | apply no_digit_ahead_tab]. }
  rewrite (bind_ok _ _ _ tt _ (assertChar_ok _ _)).
  rewrite (bind_ok _ _ _ (fst o) (String newline rest)).
  2:{ apply readEscapedString_escape. now right. }
  rewrite Z.eqb_refl, Hroot. reflexivity.
Qed.

Lemma read_objects_bad_root root good bad more rest n :
  Forall (fun o => in_range size_t_bits (snd o)) (good ++ [bad]) ->
  Forall (fun o => starts_with (fst o) root = true) good ->
  starts_with (fst bad) root = false ->
  (length good < n)%nat ->
  Metadata.read_objects Metadata.VERSION_ABSOLUTE_PATHS root n
    (Format.render_objects (good ++ bad :: more) rest)
  = Throw (DBException UNKNOWN_FORMAT None).
Proof.
  revert n. induction good as [|o good IH]; intros n Hsizes Hgood Hbad Hn.
  - destruct n as [|n]; [simpl in Hn; lia |].
    simpl. apply bind_throw. apply read_object_bad_root; [| exact Hbad].
    now inversion Hsizes.
  - destruct n as [|n]; [simpl in Hn; lia |].
    simpl app. simpl Metadata.read_objects. simpl Format.render_objects.
    inversion Hsizes as [|? ? Ho Hs]; subst.
    inversion Hgood as [|? ? Hg Hgs]; subst.
    rewrite (bind_ok _ _ _ _ _ (read_object_render _ root o _ Ho (fun _ => Hg))).
    apply bind_throw. apply IH; try assumption. simpl in Hn. lia.
Qed.

End Parsing.

Section ParsingFiles.

Import IO.

Lemma known_version_in_range version :
  Metadata.VERSION_ABSOLUTE_PATHS <= version <= Metadata.VERSION_READ_ONLY_FLAG ->
  in_range UInt32_bits version.
Proof.
  unfold Metadata.VERSION_ABSOLUTE_PATHS, Metadata.VERSION_READ_ONLY_FLAG,
    in_range, UInt32_bits. lia.
Qed.

Lemma read_header version stored total ref tail :
  in_range UInt32_bits version ->
  readIntText UInt32_bits (Format.render version stored total ref tail)
  = Ok (version, String newline
          (Format.digits (Z.of_nat (length stored)) +:+ String tab
             (Format.digits total +:+ String newline
                (Format.render_objects stored (Format.digits ref +:+ String newline tail))))).
Proof.
  intros Hv. unfold Format.render. apply readIntText_digits.
  - exact Hv.
  - unfold in_range, UInt32_bits in Hv. lia.
  - apply no_digit_ahead_newline.
Qed.

(** A file of version 1 or 2 parses to the objects it stores, made relative;
    the read-only flag is not looked for and whatever follows the reference
    count is left unread. *)
Lemma read_fields_render version root dp fp stored total ref tail :
  version = Metadata.VERSION_ABSOLUTE_PATHS \/ version = Metadata.VERSION_RELATIVE_PATHS ->
  valid_objects stored -> in_range size_t_bits total -> in_range UInt32_bits ref ->
  (version = Metadata.VERSION_ABSOLUTE_PATHS ->
   Forall (fun o => starts_with (fst o) root = true) stored) ->
  Metadata.read_fields root dp fp (Format.render version stored total ref tail)
  = Ok (parsed version root dp fp stored total ref false, tail).
Proof.
  intros Hv [Hlen Hsizes] Htotal Href Hroot. unfold Metadata.read_fields.
  rewrite (bind_ok _ _ _ _ _ (read_header version stored total ref tail
             ltac:(apply known_version_in_range; destruct Hv as [-> | ->]; vm_compute; intuition discriminate))).
  rewrite (bind_ok _ _ _ tt _ (assertChar_ok _ _)).
  replace ((version <? Metadata.VERSION_ABSOLUTE_PATHS)
           || (Metadata.VERSION_READ_ONLY_FLAG <? version)) with false
    by (destruct Hv as [-> | ->]; reflexivity).
  erewrite (bind_ok _ _ _ (Z.of_nat (length stored))).
  2:{ apply readIntText_digits; [| | apply no_digit_ahead_tab].
      - unfold in_range, UInt32_bits. lia.
      - lia. }
  rewrite (bind_ok _ _ _ tt _ (assertChar_ok _ _)).
  erewrite (bind_ok _ _ _ total).
  2:{ apply readIntText_digits; [exact Htotal | apply Htotal | apply no_digit_ahead_newline]. }
  rewrite (bind_ok _ _ _ tt _ (assertChar_ok _ _)).
  rewrite Nat2Z.id.
  rewrite (bind_ok _ _ _ _ _ (read_objects_render version root stored _ Hsizes Hroot)).
  erewrite (bind_ok _ _ _ ref).
  2:{ apply readIntText_digits; [exact Href | | apply no_digit_ahead_newline].
      unfold in_range, UInt32_bits in Href. lia. }
  rewrite (bind_ok _ _ _ tt _ (assertChar_ok _ _)).
  replace (Metadata.VERSION_READ_ONLY_FLAG <=? version) with false
    by (destruct Hv as [-> | ->]; reflexivity).
  reflexivity.
Qed.

(** A file of the newest version also gives its read-only flag. *)
Lemma read_fields_render_flag root dp fp stored total ref flag tail :
  valid_objects stored -> in_range size_t_bits total -> in_range UInt32_bits ref ->
  Metadata.read_fields root dp fp
    (Format.render Metadata.VERSION_READ_ONLY_FLAG stored total ref
       (Format.render_flag flag +:+ tail))
  = Ok (parsed Metadata.VERSION_READ_ONLY_FLAG root dp fp stored total ref flag, tail).
Proof.
  intros [Hlen Hsizes] Htotal Href. unfold Metadata.read_fields.
  rewrite (bind_ok _ _ _ _ _ (read_header Metadata.VERSION_READ_ONLY_FLAG stored total ref _
             ltac:(apply known_version_in_range; vm_compute; intuition discriminate))).
  rewrite (bind_ok _ _ _ tt _ (assertChar_ok _ _)).
  change ((Metadata.VERSION_READ_ONLY_FLAG <? Metadata.VERSION_ABSOLUTE_PATHS)
          || (Metadata.VERSION_READ_ONLY_FLAG <? Metadata.VERSION_READ_ONLY_FLAG))
    with false. cbv iota.
  erewrite (bind_ok _ _ _ (Z.of_nat (length stored))).
  2:{ apply readIntText_digits; [| | apply no_digit_ahead_tab].
      - unfold in_range, UInt32_bits. lia.
      - lia. }
  rewrite (bind_ok _ _ _ tt _ (assertChar_ok _ _)).
  erewrite (bind_ok _ _ _ total).
  2:{ apply readIntText_digits; [exact Htotal | apply Htotal | apply no_digit_ahead_newline]. }
  rewrite (bind_ok _ _ _ tt _ (assertChar_ok _ _)).
  rewrite Nat2Z.id.
  rewrite (bind_ok _ _ _ _ _ (read_objects_render Metadata.VERSION_READ_ONLY_FLAG
             root stored _ Hsizes ltac:(intros Hv; vm_compute in Hv; discriminate Hv))).
  erewrite (bind_ok _ _ _ ref).
  2:{ apply readIntText_digits; [exact Href | | apply no_digit_ahead_newline].
      unfold in_range, UInt32_bits in Href. lia. }
  rewrite (bind_ok _ _ _ tt _ (assertChar_ok _ _)).
  change (Metadata.VERSION_READ_ONLY_FLAG <=? Metadata.VERSION_READ_ONLY_FLAG) with true.
  cbv iota. destruct flag; reflexivity.
Qed.

(** A version outside the supported range is a format error, raised before
    anything else is read. *)
Lemma read_fields_version_out_of_range root dp fp version rest :
  in_range UInt32_bits version ->
  version < Metadata.VERSION_ABSOLUTE_PATHS \/ Metadata.VERSION_READ_ONLY_FLAG < version ->
  Metadata.read_fields root dp fp (Format.digits version +:+ String newline rest)
  = Throw (DBException UNKNOWN_FORMAT None).
Proof.
  intros Hr Hv. unfold Metadata.read_fields.
  rewrite (bind_ok _ _ _ version (String newline rest)).
  2:{ apply readIntText_digits; [exact Hr | | apply no_digit_ahead_newline].
      unfold in_range, UInt32_bits in Hr. lia. }
  rewrite (bind_ok _ _ _ tt _ (assertChar_ok _ _)).
  replace ((version <? Metadata.VERSION_ABSOLUTE_PATHS)
           || (Metadata.VERSION_READ_ONLY_FLAG <? version)) with true; [reflexivity |].
  symmetry. apply orb_true_iff. rewrite !Z.ltb_lt. exact Hv.
Qed.

(** A version 1 file with a stored path outside the remote root is a format
    error. *)
Lemma read_fields_bad_root root dp fp good bad more total ref tail :
  valid_objects (good ++ bad :: more) -> in_range size_t_bits total ->
  Forall (fun o => starts_with (fst o) root = true) good ->
  starts_with (fst bad) root = false ->
  Metadata.read_fields root dp fp
    (Format.render Metadata.VERSION_ABSOLUTE_PATHS (good ++ bad :: more) total ref tail)
  = Throw (DBException UNKNOWN_FORMAT None).
Proof.
  intros [Hlen Hsizes] Htotal Hgood Hbad. unfold Metadata.read_fields.
  rewrite (bind_ok _ _ _ _ _ (read_header Metadata.VERSION_ABSOLUTE_PATHS _ total ref tail
             ltac:(apply known_version_in_range; vm_compute; intuition discriminate))).
  rewrite (bind_ok _ _ _ tt _ (assertChar_ok _ _)).
  change ((Metadata.VERSION_ABSOLUTE_PATHS <? Metadata.VERSION_ABSOLUTE_PATHS)
          || (Metadata.VERSION_READ_ONLY_FLAG <? Metadata.VERSION_ABSOLUTE_PATHS))
    with false. cbv iota.
  erewrite (bind_ok _ _ _ (Z.of_nat (length (good ++ bad :: more)))).
  2:{ apply readIntText_digits; [| | apply no_digit_ahead_tab].
      - unfold in_range, UInt32_bits. lia.
      - lia. }
  rewrite (bind_ok _ _ _ tt _ (assertChar_ok _ _)).
  erewrite (bind_ok _ _ _ total).
  2:{ apply readIntText_digits; [exact Htotal | apply Htotal | apply no_digit_ahead_newline]. }
  rewrite (bind_ok _ _ _ tt _ (assertChar_ok _ _)).
  rewrite Nat2Z.id. apply bind_throw.
  apply read_objects_bad_root; try assumption.
  - apply Forall_app in Hsizes as [Hg Hb]. apply Forall_app. split; [exact Hg |].
    constructor; [now inversion Hb | constructor].
  - rewrite length_app. simpl. lia.
Qed.

End ParsingFiles.

(* ===================================================================== *)
(** * Properties of local storage *)
(* ===================================================================== *)

Section LocalStorage.

Import LocalFS.

Implicit Types (fs : gmap nat inode) (es : list dirent) (comps : list string).

Lemma split_last_app init x : split_last (init ++ [x]) = Some (init, x).
Proof. induction init as [|c init IH]; simpl; [reflexivity | now rewrite IH]. Qed.

Lemma split_last_Some comps init x :
  split_last comps = Some (init, x) -> comps = init ++ [x].
Proof.
  revert init. induction comps as [|c cs IH]; intros init H; simpl in H.
  - discriminate.
  - destruct (split_last cs) as [[i l]|] eqn:E.
    + injection H as <- <-. simpl. f_equal. now apply IH.
    + injection H as <- <-. destruct cs as [|c' cs']; [reflexivity |].
      simpl in E. destruct (split_last cs') as [[? ?]|]; discriminate.
Qed.

Lemma split_last_None comps : split_last comps = None -> comps = [].
Proof.
  destruct comps as [|c cs]; [reflexivity |]. simpl.
  destruct (split_last cs) as [[? ?]|]; discriminate.
Qed.

Lemma walk_app fs cur a b :
  walk fs cur (a ++ b)
  = match walk fs cur a with Some m => walk fs m b | None => None end.
Proof.
  revert cur. induction a as [|c a IH]; intros cur; simpl; [reflexivity |].
  destruct (fs !! cur) as [[|es]|]; try reflexivity.
  destruct (lookup_entry c es); [apply IH | reflexivity].
Qed.

Lemma lookup_entry_unlink_ne name c es :
  c <> name -> lookup_entry c (unlink_entry name es) = lookup_entry c es.
Proof.
  intros Hne. unfold lookup_entry, unlink_entry.
  induction es as [|e es IH]; simpl; [reflexivity |].
  destruct (String.eqb (d_name e) name) eqn:En; simpl.
  - apply String.eqb_eq in En.
    destruct (String.eqb (d_name e) c) eqn:Ec; [| exact IH].
    apply String.eqb_eq in Ec. congruence.
  - destruct (String.eqb (d_name e) c); [reflexivity | exact IH].
Qed.

Lemma lookup_entry_unlink_eq name es : lookup_entry name (unlink_entry name es) = None.
Proof.
  unfold lookup_entry, unlink_entry.
  induction es as [|e es IH]; simpl; [reflexivity |].
  destruct (String.eqb (d_name e) name) eqn:En; simpl; [exact IH |].
  now rewrite En.
Qed.

Lemma lookup_entry_unlink_Some name c es e :
  lookup_entry c (unlink_entry name es) = Some e -> lookup_entry c es = Some e.
Proof.
  intros H. destruct (String.eqb c name) eqn:E.
  - apply String.eqb_eq in E. subst c. now rewrite lookup_entry_unlink_eq in H.
  - apply String.eqb_neq in E. now rewrite lookup_entry_unlink_ne in H.
Qed.

Lemma lookup_entry_app_Some c es e x :
  lookup_entry c es = Some x -> lookup_entry c (es ++ [e]) = Some x.
Proof.
  unfold lookup_entry. induction es as [|e' es IH]; simpl; [discriminate |].
  destruct (String.eqb (d_name e') c); [trivial | exact IH].
Qed.

Lemma lookup_entry_app_new es e :
  lookup_entry (d_name e) es = None -> lookup_entry (d_name e) (es ++ [e]) = Some e.
Proof.
  unfold lookup_entry. induction es as [|e' es IH]; simpl.
  - now rewrite String.eqb_refl.
  - destruct (String.eqb (d_name e') (d_name e)); [discriminate | exact IH].
Qed.

Lemma lookup_entry_name c es e : lookup_entry c es = Some e -> d_name e = c.
Proof.
  unfold lookup_entry. intros H. apply find_some in H as [_ H].
  now apply String.eqb_eq.
Qed.

(** *** Rewriting the bytes of a file changes no path. *)

Lemma walk_rewrite fs n old data cur comps :
  fs !! n = Some (IFile old) ->
  walk (<[n := IFile data]> fs) cur comps = walk fs cur comps.
Proof.
  intros Hn. revert cur. induction comps as [|c cs IH]; intros cur; simpl; [reflexivity |].
  destruct (decide (cur = n)) as [-> | Hne].
  - now rewrite lookup_insert_eq, Hn.
  - rewrite lookup_insert_ne by congruence.
    destruct (fs !! cur) as [[|es]|]; try reflexivity.
    destruct (lookup_entry c es); [apply IH | reflexivity].
Qed.

(** *** Unlinking an entry gives no new path, *)

Lemma walk_unlink_sub fs p es name cur comps m :
  fs !! p = Some (IDir es) ->
  walk (<[p := IDir (unlink_entry name es)]> fs) cur comps = Some m ->
  walk fs cur comps = Some m.
Proof.
  intros Hp. revert cur. induction comps as [|c cs IH]; intros cur; simpl; [trivial |].
  destruct (decide (cur = p)) as [-> | Hne].
  - rewrite lookup_insert_eq, Hp.
    destruct (lookup_entry c (unlink_entry name es)) as [e|] eqn:E; [| discriminate].
    rewrite (lookup_entry_unlink_Some _ _ _ _ E). apply IH.
  - rewrite lookup_insert_ne by congruence.
    destruct (fs !! cur) as [[|es']|]; try discriminate.
    destruct (lookup_entry c es'); [apply IH | discriminate].
Qed.

(** and, when the entry names a regular file, keeps every path to a
    directory. *)
Lemma walk_unlink_file_frame fs p es name e data cur comps m es' :
  fs !! p = Some (IDir es) ->
  lookup_entry name es = Some e -> fs !! d_ino e = Some (IFile data) ->
  walk fs cur comps = Some m -> fs !! m = Some (IDir es') ->
  walk (<[p := IDir (unlink_entry name es)]> fs) cur comps = Some m.
Proof.
  intros Hp He Hfile. revert cur. induction comps as [|c cs IH]; intros cur Hw Hm.
  - exact Hw.
  - simpl in Hw. simpl.
    destruct (fs !! cur) as [[|esc]|] eqn:Hcur; try discriminate.
    destruct (lookup_entry c esc) as [ec|] eqn:Hc; [| discriminate].
    destruct (decide (cur = p)) as [-> | Hne].
    + rewrite lookup_insert_eq. rewrite Hp in Hcur. injection Hcur as <-.
      destruct (decide (c = name)) as [-> | Hcn].
      * rewrite He in Hc. injection Hc as <-. exfalso.
        destruct cs as [|c' cs']; simpl in Hw.
        -- injection Hw as <-. congruence.
        -- rewrite Hfile in Hw. discriminate.
      * rewrite lookup_entry_unlink_ne, Hc by exact Hcn. now apply IH.
    + rewrite lookup_insert_ne, Hcur, Hc by congruence. now apply IH.
Qed.

(** *** Adding an entry under a free name keeps every path. *)

Lemma walk_add_entry fs p es e cur comps m :
  fs !! p = Some (IDir es) ->
  walk fs cur comps = Some m ->
  walk (<[p := IDir (es ++ [e])]> fs) cur comps = Some m.
Proof.
  intros Hp. revert cur. induction comps as [|c cs IH]; intros cur; simpl; [trivial |].
  destruct (fs !! cur) as [[|esc]|] eqn:Hcur; try discriminate.
  destruct (lookup_entry c esc) as [ec|] eqn:Hc; [| discriminate].
  destruct (decide (cur = p)) as [-> | Hne].
  - rewrite lookup_insert_eq. rewrite Hp in Hcur. injection Hcur as <-.
    rewrite (lookup_entry_app_Some _ _ _ _ Hc). apply IH.
  - rewrite lookup_insert_ne, Hcur, Hc by congruence. apply IH.
Qed.

End LocalStorage.

Section LocalFiles.

Import LocalFS.

Implicit Types (fs : gmap nat inode) (es : list dirent) (comps : list string).

Lemma resolve_parent fs path p es name :
  parent fs path = Some (p, es, name) ->
  resolve fs path
  = match lookup_entry name es with Some e => Some (d_ino e) | None => None end.
Proof.
  unfold parent, resolve. intros H.
  destruct (split_last (split_path path)) as [[init last]|] eqn:Hs; [| discriminate].
  apply split_last_Some in Hs. rewrite Hs, walk_app.
  destruct (walk fs root_ino init) as [q|]; [| discriminate].
  destruct (fs !! q) as [[|esq]|] eqn:Hq; try discriminate.
  injection H as -> -> ->. simpl. rewrite Hq.
  now destruct (lookup_entry name es).
Qed.

Lemma parent_directory fs path p es name :
  parent fs path = Some (p, es, name) -> fs !! p = Some (IDir es).
Proof.
  unfold parent. intros H.
  destruct (split_last (split_path path)) as [[init last]|]; [| discriminate].
  destruct (walk fs root_ino init) as [q|]; [| discriminate].
  destruct (fs !! q) as [[|esq]|] eqn:Hq; try discriminate.
  now injection H as -> -> ->.
Qed.

(** A regular file is an entry of a directory. *)
Lemma regular_file_entry fs path n data :
  root_is_directory fs -> regular_file fs path n data ->
  exists p es name e,
    parent fs path = Some (p, es, name) /\ lookup_entry name es = Some e /\ d_ino e = n.
Proof.
  intros [res Hroot] [Hres Hn]. unfold resolve in Hres. unfold parent.
  destruct (split_last (split_path path)) as [[init last]|] eqn:Hs.
  - apply split_last_Some in Hs. rewrite Hs, walk_app in Hres.
    destruct (walk fs root_ino init) as [q|]; [| discriminate].
    simpl in Hres. destruct (fs !! q) as [[|esq]|]; try discriminate.
    destruct (lookup_entry last esq) as [e|] eqn:He; [| discriminate].
    injection Hres as <-. now exists q, esq, last, e.
  - apply split_last_None in Hs. rewrite Hs in Hres. simpl in Hres.
    injection Hres as <-. congruence.
Qed.

Lemma regular_file_stat fs path n data :
  regular_file fs path n data -> stat fs path = Some (IFile data).
Proof. intros [Hres Hn]. unfold stat. now rewrite Hres. Qed.

Lemma stat_regular_file fs path data :
  stat fs path = Some (IFile data) -> exists n, regular_file fs path n data.
Proof.
  unfold stat, regular_file. destruct (resolve fs path) as [n|]; [| discriminate].
  intros H. now exists n.
Qed.

(** *** Rewriting a file *)

Lemma parent_rewrite fs n old data path :
  fs !! n = Some (IFile old) ->
  parent (<[n := IFile data]> fs) path = parent fs path.
Proof.
  intros Hn. unfold parent.
  destruct (split_last (split_path path)) as [[init last]|]; [| reflexivity].
  rewrite (walk_rewrite _ _ _ _ _ _ Hn).
  destruct (walk fs root_ino init) as [q|]; [| reflexivity].
  destruct (decide (q = n)) as [-> | Hne].
  - now rewrite lookup_insert_eq, Hn.
  - now rewrite lookup_insert_ne by congruence.
Qed.

Lemma WriteBufferFromFile_existing fs path n old data :
  regular_file fs path n old ->
  WriteBufferFromFile fs path data = Ok (<[n := IFile data]> fs).
Proof. intros [Hres Hn]. unfold WriteBufferFromFile. now rewrite Hres, Hn. Qed.

Lemma regular_file_rewrite_same fs n old data path :
  regular_file fs path n old ->
  regular_file (<[n := IFile data]> fs) path n data.
Proof.
  intros [Hres Hn]. split.
  - unfold resolve. now rewrite (walk_rewrite _ _ _ _ _ _ Hn).
  - apply lookup_insert_eq.
Qed.

Lemma root_is_directory_rewrite fs n old data :
  fs !! n = Some (IFile old) -> root_is_directory fs ->
  root_is_directory (<[n := IFile data]> fs).
Proof.
  intros Hn [es Hroot]. exists es. rewrite lookup_insert_ne; [exact Hroot |].
  intros ->. congruence.
Qed.

(** *** Removing a file *)

Lemma remove_regular_file fs path n data :
  root_is_directory fs -> regular_file fs path n data ->
  exists p es name,
    parent fs path = Some (p, es, name) /\
    remove fs path = Ok (<[p := IDir (unlink_entry name es)]> fs).
Proof.
  intros Hroot Hfile.
  destruct (regular_file_entry _ _ _ _ Hroot Hfile) as (p & es & name & e & Hp & He & Hino).
  exists p, es, name. split; [exact Hp |].
  unfold remove. rewrite Hp, He, Hino. destruct Hfile as [_ ->]. reflexivity.
Qed.

Lemma stat_after_unlink fs path p es name :
  parent fs path = Some (p, es, name) ->
  stat (<[p := IDir (unlink_entry name es)]> fs) path = None.
Proof.
  intros Hp. pose proof (parent_directory _ _ _ _ _ Hp) as Hdir.
  unfold stat, resolve. unfold parent in Hp.
  destruct (split_last (split_path path)) as [[init last]|] eqn:Hs; [| discriminate].
  apply split_last_Some in Hs. rewrite Hs, walk_app.
  destruct (walk fs root_ino init) as [q|] eqn:Hq; [| discriminate].
  destruct (fs !! q) as [[|esq]|]; try discriminate. injection Hp as -> -> ->.
  destruct (walk (<[p:=IDir (unlink_entry name es)]> fs) root_ino init) as [q'|] eqn:Hq';
    [| reflexivity].
  apply (walk_unlink_sub _ _ _ _ _ _ _ Hdir) in Hq'.
  rewrite Hq in Hq'. injection Hq' as <-.
  simpl. now rewrite lookup_insert_eq, lookup_entry_unlink_eq.
Qed.

(** Another link to a regular file survives the removal of a file. *)
Lemma regular_file_after_unlink fs path n data q n' data' p es name :
  root_is_directory fs ->
  regular_file fs path n data -> parent fs path = Some (p, es, name) ->
  regular_file fs q n' data' -> dir_entry fs q <> dir_entry fs path ->
  regular_file (<[p := IDir (unlink_entry name es)]> fs) q n' data'.
Proof.
  intros Hroot Hfile Hp Hq Hne.
  pose proof (parent_directory _ _ _ _ _ Hp) as Hdir.
  destruct (regular_file_entry _ _ _ _ Hroot Hfile) as (p0 & es0 & name0 & e & Hp0 & He & Hino).
  rewrite Hp in Hp0. injection Hp0 as <- <- <-.
  destruct (regular_file_entry _ _ _ _ Hroot Hq) as (pq & esq & nameq & eq & Hpq & Heq & Hinoq).
  pose proof (parent_directory _ _ _ _ _ Hpq) as Hdirq.
  unfold dir_entry in Hne. rewrite Hp, Hpq in Hne.
  destruct Hfile as [_ Hn]. destruct Hq as [_ Hn'].
  assert (Hpar : parent (<[p := IDir (unlink_entry name es)]> fs) q
                 = Some (pq, (if decide (pq = p) then unlink_entry name es else esq), nameq)).
  { unfold parent in Hpq |- *.
    destruct (split_last (split_path q)) as [[init last]|]; [| discriminate].
    destruct (walk fs root_ino init) as [w|] eqn:Hw; [| discriminate].
    destruct (fs !! w) as [[|esw]|] eqn:Hfw; try discriminate.
    injection Hpq as -> -> ->.
    rewrite (walk_unlink_file_frame fs p es name e data root_ino init pq esq
               Hdir He ltac:(now rewrite Hino) Hw Hfw).
    destruct (decide (pq = p)) as [-> | Hd].
    - now rewrite lookup_insert_eq.
    - now rewrite lookup_insert_ne, Hfw by congruence. }
  split.
  - rewrite (resolve_parent _ _ _ _ _ Hpar).
    destruct (decide (pq = p)) as [-> | Hd].
    + rewrite Hdirq in Hdir. injection Hdir as ->.
      rewrite lookup_entry_unlink_ne, Heq, Hinoq; [reflexivity |].
      intros ->. now apply Hne.
    + now rewrite Heq, Hinoq.
  - rewrite lookup_insert_ne; [exact Hn' |]. intros <-. congruence.
Qed.

Lemma root_is_directory_unlink fs p es name :
  fs !! p = Some (IDir es) -> root_is_directory fs ->
  root_is_directory (<[p := IDir (unlink_entry name es)]> fs).
Proof.
  intros Hp [res Hroot]. destruct (decide (root_ino = p)) as [<- | Hne].
  - eexists. apply lookup_insert_eq.
  - exists res. now rewrite lookup_insert_ne by congruence.
Qed.

End LocalFiles.

Section HardLinks.

Import LocalFS.

Implicit Types (fs : gmap nat inode) (es : list dirent).

Lemma parent_add_entry fs p es e q pq esq nameq :
  fs !! p = Some (IDir es) ->
  parent fs q = Some (pq, esq, nameq) ->
  parent (<[p := IDir (es ++ [e])]> fs) q
  = Some (pq, (if decide (pq = p) then es ++ [e] else esq), nameq).
Proof.
  intros Hp Hq. unfold parent in Hq |- *.
  destruct (split_last (split_path q)) as [[init last]|]; [| discriminate].
  destruct (walk fs root_ino init) as [w|] eqn:Hw; [| discriminate].
  destruct (fs !! w) as [[|esw]|] eqn:Hfw; try discriminate.
  injection Hq as -> -> ->.
  rewrite (walk_add_entry _ _ _ e _ _ _ Hp Hw).
  destruct (decide (pq = p)) as [-> | Hd].
  - now rewrite lookup_insert_eq.
  - now rewrite lookup_insert_ne, Hfw by congruence.
Qed.

(** Linking under a free name gives a second entry for the same inode. *)
Lemma createHardLink_free fs src dst n data :
  root_is_directory fs -> regular_file fs src n data -> free_name fs dst ->
  exists fs',
    createHardLink fs src dst = Ok fs' /\
    regular_file fs' src n data /\ regular_file fs' dst n data /\
    dir_entry fs' src <> dir_entry fs' dst /\ root_is_directory fs'.
Proof.
  intros Hroot Hsrc (p & es & name & Hp & Hfree).
  pose proof (parent_directory _ _ _ _ _ Hp) as Hdir.
  destruct (regular_file_entry _ _ _ _ Hroot Hsrc) as (ps & ess & names & e_s & Hps & Hes & Hino).
  destruct Hsrc as [Hres Hn].
  set (e := {| d_name := name; d_ino := n; d_symlink := false |}).
  exists (<[p := IDir (es ++ [e])]> fs).
  assert (Hnp : n <> p) by (intros ->; congruence).
  pose proof (parent_add_entry _ _ _ e _ _ _ _ Hdir Hps) as Hps'.
  pose proof (parent_add_entry _ _ _ e _ _ _ _ Hdir Hp) as Hp'.
  rewrite decide_True in Hp' by reflexivity.
  repeat split.
  - unfold createHardLink. now rewrite Hres, Hn, Hp, Hfree.
  - unfold resolve. now apply walk_add_entry.
  - now rewrite lookup_insert_ne by congruence.
  - rewrite (resolve_parent _ _ _ _ _ Hp').
    pose proof (lookup_entry_app_new es e Hfree) as Hnew.
    change (d_name e) with name in Hnew. now rewrite Hnew.
  - now rewrite lookup_insert_ne by congruence.
  - unfold dir_entry. rewrite Hps', Hp'. intros [= -> ->].
    pose proof (parent_directory _ _ _ _ _ Hps) as Hdirs.
    rewrite Hdir in Hdirs. injection Hdirs as ->. congruence.
  - destruct Hroot as [res Hr]. destruct (decide (root_ino = p)) as [<- | Hne].
    + eexists. apply lookup_insert_eq.
    + exists res. now rewrite lookup_insert_ne by congruence.
Qed.

Lemma free_name_rewrite fs n old data path :
  fs !! n = Some (IFile old) -> free_name fs path ->
  free_name (<[n := IFile data]> fs) path.
Proof.
  intros Hn (p & es & name & Hp & Hfree). exists p, es, name.
  now rewrite (parent_rewrite _ _ _ _ _ Hn).
Qed.

Lemma dir_entry_rewrite fs n old data path :
  fs !! n = Some (IFile old) ->
  dir_entry (<[n := IFile data]> fs) path = dir_entry fs path.
Proof. intros Hn. unfold dir_entry. now rewrite (parent_rewrite _ _ _ _ _ Hn). Qed.

(** Every link to a rewritten file reads the new bytes. *)
Lemma regular_file_rewrite_link fs n old data path old' :
  fs !! n = Some (IFile old) -> regular_file fs path n old' ->
  regular_file (<[n := IFile data]> fs) path n data.
Proof.
  intros Hn [Hres _]. split.
  - unfold resolve. now rewrite (walk_rewrite _ _ _ _ _ _ Hn).
  - apply lookup_insert_eq.
Qed.

End HardLinks.

(* ===================================================================== *)
(** * Loaded records *)
(* ===================================================================== *)

Section Loading.

Import IO.

Lemma bind_inv {A B} (m : Reader A) (k : A -> Reader B) buf (r : B * ReadBuffer) :
  IO.bind m k buf = Ok r -> exists a buf', m buf = Ok (a, buf') /\ k a buf' = Ok r.
Proof.
  unfold IO.bind. destruct (m buf) as [[a buf']|e]; [| discriminate].
  intros H. now exists a, buf'.
Qed.

Lemma in_range_0 w : 0 <= w -> in_range w 0.
Proof. intros Hw. unfold in_range. split; [lia | apply Z.pow_pos_nonneg; lia]. Qed.

Lemma read_digits_range w res buf :
  0 <= w -> in_range w res -> in_range w (fst (read_digits w res buf)).
Proof.
  intros Hw. revert res. induction buf as [|c rest IH]; intros res Hres; simpl.
  - exact Hres.
  - destruct (is_digit c); [| exact Hres]. apply IH. now apply wrap_range.
Qed.

Lemma readIntText_range w buf x rest :
  0 <= w -> readIntText w buf = Ok (x, rest) -> in_range w x.
Proof.
  intros Hw. unfold readIntText. destruct buf as [|c s]; [discriminate |].
  destruct (is_digit c); [| discriminate].
  intros H.
  assert (Hd : read_digits w 0 (String c s) = (x, rest)) by congruence.
  pose proof (read_digits_range w 0 (String c s) Hw (in_range_0 w Hw)) as Hr.
  rewrite Hd in Hr. exact Hr.
Qed.

Lemma read_object_range version root buf o rest :
  Metadata.read_object version root buf = Ok (o, rest) -> in_range size_t_bits (snd o).
Proof.
  unfold Metadata.read_object. intros H.
  apply bind_inv in H as (size & b1 & Hsize & H).
  apply readIntText_range in Hsize; [| discriminate].
  apply bind_inv in H as (? & b2 & _ & H).
  apply bind_inv in H as (path & b3 & _ & H).
  apply bind_inv in H as (path' & b4 & _ & H).
  apply bind_inv in H as (? & b5 & _ & H).
  injection H as <- <-. exact Hsize.
Qed.

Lemma read_objects_valid version root n buf os rest :
  Metadata.read_objects version root n buf = Ok (os, rest) ->
  length os = n /\ Forall (fun o => in_range size_t_bits (snd o)) os.
Proof.
  revert buf os. induction n as [|n IH]; intros buf os H; simpl in H.
  - injection H as <- <-. now split.
  - apply bind_inv in H as (o & b1 & Ho & H).
    apply bind_inv in H as (os' & b2 & Hos & H).
    injection H as <- <-. apply read_object_range in Ho.
    destruct (IH _ _ Hos) as [Hlen Hall]. split; [simpl; now rewrite Hlen |].
    now constructor.
Qed.

(** What the constructor read holds values of the members' types. *)
Lemma read_fields_valid root dp fp buf m rest :
  Metadata.read_fields root dp fp buf = Ok (m, rest) ->
  valid_record m /\ Metadata.remote_fs_root_path m = root /\
  Metadata.disk_path m = dp /\ Metadata.metadata_file_path m = fp.
Proof.
  unfold Metadata.read_fields. intros H.
  apply bind_inv in H as (version & b1 & _ & H).
  apply bind_inv in H as (? & b2 & _ & H).
  destruct ((version <? Metadata.VERSION_ABSOLUTE_PATHS)
            || (Metadata.VERSION_READ_ONLY_FLAG <? version)); [discriminate |].
  apply bind_inv in H as (count & b3 & Hcount & H).
  apply readIntText_range in Hcount; [| discriminate].
  apply bind_inv in H as (? & b4 & _ & H).
  apply bind_inv in H as (total & b5 & Htotal & H).
  apply readIntText_range in Htotal; [| discriminate].
  apply bind_inv in H as (? & b6 & _ & H).
  apply bind_inv in H as (objects & b7 & Hobjects & H).
  apply read_objects_valid in Hobjects as [Hlen Hall].
  apply bind_inv in H as (ref & b8 & Href & H).
  apply readIntText_range in Href; [| discriminate].
  apply bind_inv in H as (? & b9 & _ & H).
  apply bind_inv in H as (flag & b10 & _ & H).
  injection H as <- <-.
  refine (conj (conj (conj _ Hall) (conj Htotal Href))
               (conj eq_refl (conj eq_refl eq_refl))).
  cbn [Metadata.remote_fs_objects]. rewrite Hlen.
  unfold in_range, UInt32_bits in Hcount. lia.
Qed.

Lemma rethrow_code e :
  (exists nested, Metadata.rethrow_as_unknown_format e = DBException UNKNOWN_FORMAT nested)
  \/ (exists what, e = PocoException what).
Proof.
  destruct e as [code nested | what]; [left | right; now exists what].
  simpl. destruct code; simpl; eauto.
Qed.

End Loading.

Section LoadAndSave.

Import LocalFS.

Lemma map_relative_2 root objects :
  map (Format.relative Metadata.VERSION_RELATIVE_PATHS root) objects = objects.
Proof.
  induction objects as [|[path size] objects IH]; [reflexivity |].
  simpl. now rewrite IH.
Qed.

Lemma load_regular_file root dp fp fs n data :
  regular_file fs (dp +:+ fp) n data ->
  Metadata.Metadata root dp fp false fs
  = match Metadata.read_fields root dp fp data with
    | Ok (m, _) => Ok m
    | Throw e => Throw (Metadata.rethrow_as_unknown_format e)
    end.
Proof.
  intros Hfile. unfold Metadata.Metadata, ReadBufferFromFile.
  now rewrite (regular_file_stat _ _ _ _ Hfile).
Qed.

(** Reading what [save] wrote. *)
Lemma load_saved root dp fp fs n m :
  valid_record m -> regular_file fs (dp +:+ fp) n (Metadata.save_buffer m) ->
  Metadata.Metadata root dp fp false fs = Ok (reread root dp fp m).
Proof.
  intros (Hobjs & Htotal & Href) Hfile.
  rewrite (load_regular_file _ _ _ _ _ _ Hfile), save_buffer_render.
  rewrite read_fields_render; try assumption.
  - unfold parsed, reread. now rewrite map_relative_2.
  - now right.
  - intros Hv. vm_compute in Hv. discriminate Hv.
Qed.

(** A record that loads comes from a regular file and is valid. *)
Lemma loaded_record root dp fp fs m :
  Metadata.Metadata root dp fp false fs = Ok m ->
  (exists n data, regular_file fs (dp +:+ fp) n data) /\
  valid_record m /\ Metadata.remote_fs_root_path m = root /\
  Metadata.disk_path m = dp /\ Metadata.metadata_file_path m = fp.
Proof.
  unfold Metadata.Metadata, ReadBufferFromFile. intros H.
  destruct (stat fs (dp +:+ fp)) as [[data|es]|] eqn:Hstat; try discriminate.
  destruct (Metadata.read_fields root dp fp data) as [[m' rest]|e] eqn:Hread;
    [| discriminate].
  injection H as ->. split.
  - destruct (stat_regular_file _ _ _ Hstat) as [n Hn]. now exists n, data.
  - exact (read_fields_valid _ _ _ _ _ _ Hread).
Qed.

Lemma throws_db_ret {A} (a : A) : throws_db (IO.ret a).
Proof. intros buf e H. discriminate H. Qed.

Lemma throws_db_raise {A} code nested : throws_db (@IO.raise A (DBException code nested)).
Proof. intros buf e [= <-]. exact I. Qed.

Lemma throws_db_bind {A B} (m : IO.Reader A) (k : A -> IO.Reader B) :
  throws_db m -> (forall a, throws_db (k a)) -> throws_db (IO.bind m k).
Proof.
  intros Hm Hk buf e. unfold IO.bind.
  destruct (m buf) as [[a buf']|x] eqn:E.
  - apply Hk.
  - intros [= <-]. exact (Hm _ _ E).
Qed.

Lemma throws_db_readIntText w : throws_db (IO.readIntText w).
Proof.
  intros buf e. unfold IO.readIntText. destruct buf as [|c s]; [now intros [= <-] |].
  destruct (IO.is_digit c); [discriminate | now intros [= <-]].
Qed.

Lemma throws_db_assertChar c : throws_db (IO.assertChar c).
Proof.
  intros buf e. unfold IO.assertChar. destruct buf as [|c' s]; [now intros [= <-] |].
  destruct (Ascii.eqb c' c); [discriminate | now intros [= <-]].
Qed.

Lemma throws_db_readBoolText : throws_db IO.readBoolText.
Proof.
  intros buf e. unfold IO.readBoolText. destruct buf as [|c s]; [now intros [= <-] |].
  destruct (Ascii.eqb c "0"); [discriminate |].
  destruct (Ascii.eqb c "1"); [discriminate | now intros [= <-]].
Qed.

Lemma throws_db_readEscapedString : throws_db IO.readEscapedString.
Proof.
  intros buf. remember (String.length buf) as len eqn:Hlen.
  assert (Hle : (String.length buf <= len)%nat) by lia. clear Hlen.
  revert buf Hle. induction len as [|len IH]; intros buf Hle e.
  - destruct buf; [discriminate | simpl in Hle; lia].
  - destruct buf as [|c rest]; [discriminate |]. simpl in Hle. simpl.
    destruct (Ascii.eqb c IO.tab || Ascii.eqb c IO.newline); [discriminate |].
    destruct (Ascii.eqb c IO.backslash).
    + destruct rest as [|x rest']; [now intros [= <-] |]. simpl in Hle.
      destruct (IO.readEscapedString rest') as [[s buf']|y] eqn:E; [discriminate |].
      intros [= <-]. apply (IH rest'); [lia | exact E].
    + destruct (IO.readEscapedString rest) as [[s buf']|y] eqn:E; [discriminate |].
      intros [= <-]. apply (IH rest); [lia | exact E].
Qed.

Lemma throws_db_read_object version root : throws_db (Metadata.read_object version root).
Proof.
  unfold Metadata.read_object.
  repeat first
    [ apply throws_db_bind; [| intros ?]
    | apply throws_db_readIntText | apply throws_db_assertChar
    | apply throws_db_readEscapedString | apply throws_db_ret ].
  destruct (version =? Metadata.VERSION_ABSOLUTE_PATHS); [| apply throws_db_ret].
  destruct (negb _); [apply throws_db_raise | apply throws_db_ret].
Qed.

Lemma throws_db_read_objects version root n :
  throws_db (Metadata.read_objects version root n).
Proof.
  induction n as [|n IH]; simpl; [apply throws_db_ret |].
  apply throws_db_bind; [apply throws_db_read_object | intros o].
  apply throws_db_bind; [exact IH | intros os; apply throws_db_ret].
Qed.

Lemma throws_db_read_fields root dp fp : throws_db (Metadata.read_fields root dp fp).
Proof.
  unfold Metadata.read_fields.
  apply throws_db_bind; [apply throws_db_readIntText | intros version].
  apply throws_db_bind; [apply throws_db_assertChar | intros _].
  destruct (_ || _); [apply throws_db_raise |].
  repeat first
    [ apply throws_db_bind; [| intros ?]
    | apply throws_db_readIntText | apply throws_db_assertChar
    | apply throws_db_read_objects | apply throws_db_ret ].
  destruct (Metadata.VERSION_READ_ONLY_FLAG <=? version); [| apply throws_db_ret].
  repeat first
    [ apply throws_db_bind; [| intros ?]
    | apply throws_db_readBoolText | apply throws_db_assertChar | apply throws_db_ret ].
Qed.

(** Loading never fails with anything but a format error: every other
    [DB::Exception] is wrapped into one. *)
Lemma load_error root dp fp fs e :
  Metadata.Metadata root dp fp false fs = Throw e ->
  exists nested, e = DBException UNKNOWN_FORMAT nested.
Proof.
  unfold Metadata.Metadata, ReadBufferFromFile. intros H.
  destruct (stat fs (dp +:+ fp)) as [[data|es]|] eqn:Hstat.
  - destruct (Metadata.read_fields root dp fp data) as [[m' rest]|x] eqn:Hread;
      [discriminate |].
    injection H as <-.
    destruct (rethrow_code x) as [[nested Hn] | [what ->]]; [now exists nested |].
    exfalso. exact (throws_db_read_fields _ _ _ _ _ Hread).
  - injection H as <-. now eexists.
  - injection H as <-. now eexists.
Qed.

End LoadAndSave.

(* ===================================================================== *)
(** * Running member functions *)
(* ===================================================================== *)

Section Running.

Import LocalFS.

Lemma run_bind_ok {A B} (m : M A) (k : A -> M B) w a w' :
  m w = (Ok a, w') -> bind m k w = k a w'.
Proof. unfold bind. now intros ->. Qed.

Lemma run_bind_throw {A B} (m : M A) (k : A -> M B) w e w' :
  m w = (Throw e, w') -> bind m k w = (Throw e, w').
Proof. unfold bind. now intros ->. Qed.

Lemma run_try_ok {A} (body : M A) handler w a w' :
  body w = (Ok a, w') -> try_catch body handler w = (Ok a, w').
Proof. unfold try_catch. now intros ->. Qed.

Lemma run_try_throw {A} (body : M A) handler w e w' :
  body w = (Throw e, w') -> try_catch body handler w = handler e w'.
Proof. unfold try_catch. now intros ->. Qed.

Lemma run_readMeta this path w :
  readMeta this path w
  = match Metadata.Metadata (remote_fs_root_path this) (metadata_path this) path false
            (local_fs w) with
    | Ok m => (Ok m, w)
    | Throw e => (Throw e, w)
    end.
Proof. reflexivity. Qed.

Lemma run_isFile_regular file w n data :
  regular_file (local_fs w) file n data -> file_isFile file w = (Ok true, w).
Proof.
  intros Hfile. unfold file_isFile, ask_fs, isFile.
  now rewrite (regular_file_stat _ _ _ _ Hfile).
Qed.

Lemma run_remove_regular file w n data :
  root_is_directory (local_fs w) -> regular_file (local_fs w) file n data ->
  file_remove file w = (Ok tt, set_local_fs (unlinked (local_fs w) file) w).
Proof.
  intros Hroot Hfile. unfold file_remove, on_fs, unlinked.
  destruct (remove_regular_file _ _ _ _ Hroot Hfile) as (p & es & name & Hp & Hrm).
  now rewrite Hrm, Hp.
Qed.

Lemma run_save_existing m sync w n old :
  regular_file (local_fs w) (Metadata.disk_path m +:+ Metadata.metadata_file_path m) n old ->
  Metadata.save m sync w
  = (Ok tt, set_local_fs (<[n := IFile (Metadata.save_buffer m)]> (local_fs w)) w).
Proof.
  intros Hfile. unfold Metadata.save, on_fs.
  now rewrite (WriteBufferFromFile_existing _ _ _ _ _ Hfile).
Qed.

(** While the remote store answers, [removeFromRemoteFS] records one delete
    request per object of the record, in order. *)
Lemma run_removeFromRemoteFS this m w :
  remote_error w = None ->
  removeFromRemoteFS this m w
  = (Ok tt, set_remote_removed
              (remote_removed w ++ map fst (Metadata.remote_fs_objects m)) w).
Proof.
  unfold removeFromRemoteFS. generalize (Metadata.remote_fs_objects m) as objects.
  intros objects. revert w. induction objects as [|o objects IH]; intros w Herr.
  - simpl. unfold ret. destruct w. simpl. now rewrite app_nil_r.
  - simpl forM_. unfold bind at 1. unfold remote_delete at 1. rewrite Herr.
    rewrite IH by exact Herr. simpl. unfold set_remote_removed. simpl.
    now rewrite <- app_assoc.
Qed.

(** While the remote store is failing, the first delete request raises its
    error. *)
Lemma run_removeFromRemoteFS_failing this m w e o objects :
  remote_error w = Some e -> Metadata.remote_fs_objects m = o :: objects ->
  removeFromRemoteFS this m w = (Throw e, w).
Proof.
  intros Herr Hobjs. unfold removeFromRemoteFS. rewrite Hobjs. simpl.
  unfold bind, remote_delete. now rewrite Herr.
Qed.

(** The entry at [file] is gone once it is unlinked. *)
Lemma unlinked_gone fs file n data :
  root_is_directory fs -> regular_file fs file n data ->
  exists_ (unlinked fs file) file = false.
Proof.
  intros Hroot Hfile.
  destruct (remove_regular_file _ _ _ _ Hroot Hfile) as (p & es & name & Hp & _).
  unfold exists_, unlinked. rewrite Hp. now rewrite (stat_after_unlink _ _ _ _ _ Hp).
Qed.

(** The inode of an unlinked file keeps its bytes for the other links. *)
Lemma unlinked_inode fs file n data :
  root_is_directory fs -> regular_file fs file n data ->
  unlinked fs file !! n = Some (IFile data).
Proof.
  intros Hroot Hfile.
  destruct (remove_regular_file _ _ _ _ Hroot Hfile) as (p & es & name & Hp & _).
  pose proof (parent_directory _ _ _ _ _ Hp) as Hdir.
  unfold unlinked. rewrite Hp. destruct Hfile as [_ Hn].
  rewrite lookup_insert_ne; [exact Hn |]. intros <-. congruence.
Qed.

Lemma unlinked_other_link fs file n data q n' data' :
  root_is_directory fs -> regular_file fs file n data ->
  regular_file fs q n' data' -> dir_entry fs q <> dir_entry fs file ->
  regular_file (unlinked fs file) q n' data'.
Proof.
  intros Hroot Hfile Hq Hne.
  destruct (remove_regular_file _ _ _ _ Hroot Hfile) as (p & es & name & Hp & _).
  unfold unlinked. rewrite Hp.
  exact (regular_file_after_unlink _ _ _ _ _ _ _ _ _ _ Hroot Hfile Hp Hq Hne).
Qed.

Lemma unlinked_root fs file n data :
  root_is_directory fs -> regular_file fs file n data ->
  root_is_directory (unlinked fs file).
Proof.
  intros Hroot Hfile.
  destruct (remove_regular_file _ _ _ _ Hroot Hfile) as (p & es & name & Hp & _).
  unfold unlinked. rewrite Hp. apply root_is_directory_unlink; [| exact Hroot].
  exact (parent_directory _ _ _ _ _ Hp).
Qed.

End Running.

(* ===================================================================== *)
(** * What removeMeta does *)
(* ===================================================================== *)

Section RemoveMeta.

Import LocalFS.

Variable this : IDiskRemote.

Let root := remote_fs_root_path this.
Let mp := metadata_path this.

(** On a regular file, [removeMeta] logs and enters its [try] block. *)
Lemma removeMeta_regular path keep w n data :
  regular_file (local_fs w) (mp +:+ path) n data ->
  removeMeta this path keep w
  = try_catch (removeMeta_try this path keep) (removeMeta_catch this path)
      (add_log Debug (RemoveFileByPath (mp +:+ path)) w).
Proof.
  intros Hfile. unfold removeMeta. cbv zeta. fold mp.
  rewrite (run_bind_ok _ _ w tt (add_log Debug (RemoveFileByPath (mp +:+ path)) w))
    by reflexivity.
  set (w0 := add_log Debug (RemoveFileByPath (mp +:+ path)) w).
  rewrite (run_bind_ok _ _ w0 true w0) by exact (run_isFile_regular _ w0 n data Hfile).
  reflexivity.
Qed.

(** The record has no other reference: the entry is unlinked and, unless
    remote data is kept, the remote objects are deleted (inside the [try]
    block). *)
Lemma removeMeta_last_reference path keep w m :
  root_is_directory (local_fs w) ->
  Metadata.Metadata root mp path false (local_fs w) = Ok m ->
  Metadata.ref_count m = 0 ->
  removeMeta this path keep w
  = let w1 := set_local_fs (unlinked (local_fs w) (mp +:+ path))
                (add_log Debug (RemoveFileByPath (mp +:+ path)) w) in
    if keep then (Ok tt, w1)
    else try_catch (removeFromRemoteFS this m) (removeMeta_catch this path) w1.
Proof.
  intros Hroot Hload Hzero.
  destruct (loaded_record _ _ _ _ _ Hload) as ((n & data & Hfile) & _).
  rewrite (removeMeta_regular _ _ _ _ _ Hfile). cbv zeta.
  set (w0 := add_log Debug (RemoveFileByPath (mp +:+ path)) w).
  assert (Htry : removeMeta_try this path keep w0
                 = if keep then (Ok tt, set_local_fs (unlinked (local_fs w) (mp +:+ path)) w0)
                   else removeFromRemoteFS this m
                          (set_local_fs (unlinked (local_fs w) (mp +:+ path)) w0)).
  { unfold removeMeta_try. cbv zeta. fold mp.
    rewrite (run_bind_ok _ _ w0 m w0).
    2:{ rewrite run_readMeta. fold root mp. change (local_fs w0) with (local_fs w).
        now rewrite Hload. }
    rewrite Hzero. change (0 =? 0) with true. cbv iota.
    rewrite (run_bind_ok _ _ w0 tt (set_local_fs (unlinked (local_fs w) (mp +:+ path)) w0))
      by exact (run_remove_regular _ w0 n data Hroot Hfile).
    now destruct keep. }
  unfold try_catch at 1. rewrite Htry. destruct keep; reflexivity.
Qed.

(** The record is shared: its reference count is decremented and written
    back, and the entry is unlinked. *)
Lemma removeMeta_shared path keep w m n data :
  root_is_directory (local_fs w) ->
  regular_file (local_fs w) (mp +:+ path) n data ->
  Metadata.Metadata root mp path false (local_fs w) = Ok m ->
  Metadata.ref_count m <> 0 ->
  removeMeta this path keep w
  = (Ok tt,
     let m' := Metadata.set_ref_count (wrap UInt32_bits (Metadata.ref_count m - 1)) m in
     set_local_fs
       (unlinked (<[n := IFile (Metadata.save_buffer m')]> (local_fs w)) (mp +:+ path))
       (add_log Debug (RemoveFileByPath (mp +:+ path)) w)).
Proof.
  intros Hroot Hfile Hload Hpos.
  destruct (loaded_record _ _ _ _ _ Hload) as (_ & _ & _ & Hdp & Hfp).
  rewrite (removeMeta_regular _ _ _ _ _ Hfile). cbv zeta.
  set (w0 := add_log Debug (RemoveFileByPath (mp +:+ path)) w).
  apply run_try_ok. unfold removeMeta_try. cbv zeta. fold mp.
  rewrite (run_bind_ok _ _ w0 m w0).
  2:{ rewrite run_readMeta. fold root mp. change (local_fs w0) with (local_fs w).
      now rewrite Hload. }
  apply Z.eqb_neq in Hpos. rewrite Hpos. cbv iota.
  set (m' := Metadata.set_ref_count (wrap UInt32_bits (Metadata.ref_count m - 1)) m).
  set (fs1 := <[n := IFile (Metadata.save_buffer m')]> (local_fs w)).
  rewrite (run_bind_ok _ _ w0 tt (set_local_fs fs1 w0)).
  2:{ apply (run_save_existing m' false w0 n data).
      change (Metadata.disk_path m') with (Metadata.disk_path m).
      change (Metadata.metadata_file_path m') with (Metadata.metadata_file_path m).
      rewrite Hdp, Hfp. exact Hfile. }
  rewrite (run_remove_regular (mp +:+ path) (set_local_fs fs1 w0) n
             (Metadata.save_buffer m')).
  - reflexivity.
  - apply (root_is_directory_rewrite _ _ data); [apply Hfile | exact Hroot].
  - exact (regular_file_rewrite_same _ _ _ _ _ Hfile).
Qed.

(** The metadata cannot be read: a warning is logged and the entry is
    unlinked. *)
Lemma removeMeta_unreadable path keep w n data e :
  root_is_directory (local_fs w) ->
  regular_file (local_fs w) (mp +:+ path) n data ->
  Metadata.Metadata root mp path false (local_fs w) = Throw e ->
  removeMeta this path keep w
  = (Ok tt,
     set_local_fs (unlinked (local_fs w) (mp +:+ path))
       (add_log Warning (MetadataCantBeRead path e)
          (add_log Debug (RemoveFileByPath (mp +:+ path)) w))).
Proof.
  intros Hroot Hfile Hload.
  destruct (load_error _ _ _ _ _ Hload) as [nested ->].
  rewrite (removeMeta_regular _ _ _ _ _ Hfile).
  set (w0 := add_log Debug (RemoveFileByPath (mp +:+ path)) w).
  rewrite (run_try_throw _ _ w0 (DBException UNKNOWN_FORMAT nested) w0).
  2:{ unfold removeMeta_try. cbv zeta. apply run_bind_throw. rewrite run_readMeta.
      fold root mp. change (local_fs w0) with (local_fs w). now rewrite Hload. }
  unfold removeMeta_catch. cbv zeta. fold mp.
  change (ErrorCode_eqb UNKNOWN_FORMAT UNKNOWN_FORMAT) with true. cbv iota.
  set (w1 := add_log Warning (MetadataCantBeRead path (DBException UNKNOWN_FORMAT nested)) w0).
  rewrite (run_bind_ok _ _ w0 tt w1) by reflexivity.
  exact (run_remove_regular _ w1 n data Hroot Hfile).
Qed.

End RemoveMeta.

(* ===================================================================== *)
(** * Saving, then loading *)
(* ===================================================================== *)

Section SaveThenLoad.

Import LocalFS.

Lemma walk_fresh_inode (fs : gmap nat inode) n x cur comps m :
  fs !! n = None ->
  walk fs cur comps = Some m ->
  (cur <> n \/ comps <> []) ->
  walk (<[n := x]> fs) cur comps = Some m.
Proof.
  intros Hn. revert cur. induction comps as [|c cs IH]; intros cur Hw Hcur.
  - exact Hw.
  - simpl in Hw. simpl.
    destruct (fs !! cur) as [[|es]|] eqn:Hc; try discriminate.
    assert (cur <> n) by (intros ->; congruence).
    rewrite lookup_insert_ne, Hc by congruence.
    destruct (lookup_entry c es) as [e|]; [| discriminate].
    destruct cs as [|c' cs'].
    + exact Hw.
    + apply IH; [exact Hw | right; discriminate].
Qed.

(** After a successful write the path names a regular file with the bytes
    written. *)
Lemma WriteBufferFromFile_written (fs fs' : gmap nat inode) path data :
  WriteBufferFromFile fs path data = Ok fs' ->
  exists n, regular_file fs' path n data.
Proof.
  unfold WriteBufferFromFile. intros H.
  destruct (resolve fs path) as [n|] eqn:Hres.
  - destruct (fs !! n) as [[old|]|] eqn:Hn; try discriminate.
    injection H as <-. exists n.
    exact (regular_file_rewrite_same _ _ _ _ _ (conj Hres Hn)).
  - destruct (parent fs path) as [[[p es] name]|] eqn:Hp; [| discriminate].
    destruct (lookup_entry name es) eqn:Hfree; [discriminate |].
    injection H as <-.
    set (n := fresh (dom fs)).
    set (e := {| d_name := name; d_ino := n; d_symlink := false |}).
    assert (Hn : fs !! n = None) by (apply not_elem_of_dom, is_fresh).
    pose proof (parent_directory _ _ _ _ _ Hp) as Hdir.
    assert (Hnp : n <> p) by (intros ->; congruence).
    exists n. split; [| apply lookup_insert_eq].
    unfold resolve. unfold parent in Hp.
    destruct (split_last (split_path path)) as [[init last]|] eqn:Hs; [| discriminate].
    apply split_last_Some in Hs. rewrite Hs.
    destruct (walk fs root_ino init) as [q|] eqn:Hq; [| discriminate].
    destruct (fs !! q) as [[|esq]|] eqn:Hfq; try discriminate.
    injection Hp as -> -> ->.
    apply walk_fresh_inode.
    + now rewrite lookup_insert_ne by congruence.
    + rewrite walk_app, (walk_add_entry _ _ _ e _ _ _ Hdir Hq). simpl.
      rewrite lookup_insert_eq.
      pose proof (lookup_entry_app_new es e Hfree) as Hnew.
      change (d_name e) with name in Hnew. now rewrite Hnew.
    + right. now destruct init.
Qed.

(** Whatever [save] managed to write is read back with the objects, the
    total size and the reference count of the record, and with a read-only
    flag that is always false. *)
Lemma save_then_load m sync w w' :
  valid_record m ->
  Metadata.save m sync w = (Ok tt, w') ->
  Metadata.Metadata (Metadata.remote_fs_root_path m) (Metadata.disk_path m)
    (Metadata.metadata_file_path m) false (local_fs w')
  = Ok (Metadata.set_read_only false m).
Proof.
  intros Hvalid Hsave. unfold Metadata.save, on_fs in Hsave.
  destruct (WriteBufferFromFile (local_fs w) _ _) as [fs'|e] eqn:Hw; [| discriminate].
  injection Hsave as <-. destruct (WriteBufferFromFile_written _ _ _ _ Hw) as [n Hn].
  change (local_fs (set_local_fs fs' w)) with fs'.
  now rewrite (load_saved _ _ _ _ _ _ Hvalid Hn).
Qed.

End SaveThenLoad.

(* ===================================================================== *)
(** * The reservation ledger *)
(* ===================================================================== *)

(** C3.  [tryReserve 0] always succeeds, increments [reservation_count]
    by one (the increment of a [UInt64]: exactly one more unless the counter is
    at its maximum) and leaves [reserved_bytes] unchanged.  For
    [bytes > 0], with [unreserved = available_space - min available_space
    reserved_bytes], [tryReserve bytes] succeeds if and only if
    [unreserved >= bytes]; when it succeeds it increments [reservation_count]
    by one and adds [bytes] to [reserved_bytes], and when it fails it changes
    nothing. *)
Theorem tryReserve_accounting (this : IDiskRemote) (w : World) :
  (exists w',
     tryReserve this 0 w = (Ok true, w') /\
     reservation_count w' = wrap UInt64_bits (reservation_count w + 1) /\
     (in_range UInt64_bits (reservation_count w + 1) ->
      reservation_count w' = reservation_count w + 1) /\
     reserved_bytes w' = reserved_bytes w) /\
  (forall bytes,
     0 < bytes -> in_range UInt64_bits bytes ->
     in_range UInt64_bits (available_space w) ->
     in_range UInt64_bits (reserved_bytes w) ->
     let unreserved :=
       available_space w - Z.min (available_space w) (reserved_bytes w) in
     exists ok w',
       tryReserve this bytes w = (Ok ok, w') /\
       (ok = true <-> unreserved >= bytes) /\
       (ok = true ->
        reservation_count w' = wrap UInt64_bits (reservation_count w + 1) /\
        (in_range UInt64_bits (reservation_count w + 1) ->
         reservation_count w' = reservation_count w + 1) /\
        reserved_bytes w' = reserved_bytes w + bytes) /\
       (ok = false -> w' = w)).
Proof.
  split.
  - eexists. split; [reflexivity |]. split; [reflexivity |].
    split; [| reflexivity]. intros Hfit. simpl. now apply wrap_small.
  - intros bytes Hpos Hbytes Havail Hres unreserved.
    unfold tryReserve. replace (bytes =? 0) with false by (symmetry; apply Z.eqb_neq; lia).
    unfold bind, getAvailableSpace, get_reserved_bytes, get_reservation_count,
      put_reservation_count, put_reserved_bytes, LOG, ret.
    fold unreserved.
    assert (Hun : in_range UInt64_bits unreserved).
    { unfold in_range, UInt64_bits in *. subst unreserved. lia. }
    rewrite (wrap_small _ _ Hun).
    destruct (bytes <=? unreserved) eqn:Hle.
    + apply Z.leb_le in Hle. eexists true, _. split; [reflexivity |].
      split; [split; [lia | reflexivity] |]. split; [| discriminate].
      intros _. split; [reflexivity |].
      split; [intros Hfit; simpl; now apply wrap_small |].
      simpl. apply wrap_small.
      unfold in_range, UInt64_bits in *. subst unreserved. lia.
    + apply Z.leb_gt in Hle. exists false, w. split; [reflexivity |].
      split; [split; [discriminate | lia] |]. split; [discriminate | reflexivity].
Qed.

Lemma tryReserve_accounting_witness :
  0 < 60 /\ in_range UInt64_bits 60 /\
  in_range UInt64_bits (available_space (example_world EmptyString)) /\
  in_range UInt64_bits (reserved_bytes (example_world EmptyString)) /\
  exists ok w',
    tryReserve example_disk 60 (example_world EmptyString) = (Ok ok, w') /\
    (ok = true <-> 100 - Z.min 100 40 >= 60) /\
    (ok = true ->
     reservation_count w' = wrap UInt64_bits (2 + 1) /\
     (in_range UInt64_bits (2 + 1) -> reservation_count w' = 2 + 1) /\
     reserved_bytes w' = 40 + 60) /\
    (ok = false -> w' = example_world EmptyString).
Proof.
  assert (H60 : in_range UInt64_bits 60) by (unfold in_range, UInt64_bits; lia).
  assert (H100 : in_range UInt64_bits 100) by (unfold in_range, UInt64_bits; lia).
  assert (H40 : in_range UInt64_bits 40) by (unfold in_range, UInt64_bits; lia).
  split; [lia |]. split; [exact H60 |]. split; [exact H100 |]. split; [exact H40 |].
  exact (proj2 (tryReserve_accounting example_disk (example_world EmptyString)) 60
           ltac:(lia) H60 H100 H40).
Defined.

(** C6.  Destroying a reservation of size [S] always returns normally.  It
    subtracts [S] from [reserved_bytes], unless [reserved_bytes < S]: then
    [reserved_bytes] becomes zero and an error is logged.  It subtracts one
    from [reservation_count], unless it is zero: then it stays zero and an
    error is logged.  Neither counter goes below zero. *)
Theorem reservation_release (r : DiskRemoteReservation.t) (w : World) :
  in_range UInt64_bits (DiskRemoteReservation.size r) ->
  in_range UInt64_bits (reserved_bytes w) ->
  in_range UInt64_bits (reservation_count w) ->
  let S := DiskRemoteReservation.size r in
  let name := disk_name (DiskRemoteReservation.disk r) in
  exists w',
    DiskRemoteReservation.destructor r w = (Ok tt, w') /\
    reserved_bytes w' = (if reserved_bytes w <? S then 0 else reserved_bytes w - S) /\
    reservation_count w'
    = (if reservation_count w =? 0 then 0 else reservation_count w - 1) /\
    log w' = log w
             ++ (if reserved_bytes w <? S
                 then [(Error, UnbalancedReservationsSize name)] else [])
             ++ (if reservation_count w =? 0
                 then [(Error, UnbalancedReservationCount name)] else []) /\
    0 <= reserved_bytes w' /\ 0 <= reservation_count w'.
Proof.
  intros HS Hres Hcount S name.
  unfold DiskRemoteReservation.destructor, try_catch, DiskRemoteReservation.destructor_try,
    bind, get_reserved_bytes, get_reservation_count, put_reserved_bytes,
    put_reservation_count, LOG, ret.
  fold S name. unfold in_range, UInt64_bits in *.
  assert (Hwrap : forall x, 0 <= x < 2 ^ 64 -> wrap 64 x = x)
    by (intros x Hx; now apply wrap_small).
  destruct (Z.ltb_spec (reserved_bytes w) S) as [Hlt | Hlt]; cbn beta iota;
    cbn [reservation_count reserved_bytes log add_log set_reserved_bytes
         set_reservation_count fst snd];
    destruct (Z.eqb_spec (reservation_count w) 0) as [Hz | Hz]; cbn beta iota;
    eexists; (split; [reflexivity |]);
    cbn [reservation_count reserved_bytes log add_log set_reserved_bytes
         set_reservation_count];
    rewrite ?app_nil_r, ?Hwrap by lia; rewrite <- ?app_assoc;
    repeat split; try reflexivity; try lia.
Qed.

Lemma reservation_release_witness :
  in_range UInt64_bits 50 /\
  in_range UInt64_bits (reserved_bytes (example_world EmptyString)) /\
  in_range UInt64_bits (reservation_count (example_world EmptyString)) /\
  exists w',
    DiskRemoteReservation.destructor
      {| DiskRemoteReservation.disk := example_disk; DiskRemoteReservation.size := 50 |}
      (example_world EmptyString) = (Ok tt, w') /\
    reserved_bytes w' = 0 /\ reservation_count w' = 1 /\
    log w' = [(Error, UnbalancedReservationsSize "s3")] /\
    0 <= reserved_bytes w' /\ 0 <= reservation_count w'.
Proof.
  assert (H50 : in_range UInt64_bits 50) by (unfold in_range, UInt64_bits; lia).
  assert (H40 : in_range UInt64_bits 40) by (unfold in_range, UInt64_bits; lia).
  assert (H2 : in_range UInt64_bits 2) by (unfold in_range, UInt64_bits; lia).
  split; [exact H50 |]. split; [exact H40 |]. split; [exact H2 |].
  exact (reservation_release
           {| DiskRemoteReservation.disk := example_disk; DiskRemoteReservation.size := 50 |}
           (example_world EmptyString) H50 H40 H2).
Defined.

(* ===================================================================== *)
(** * Appending objects *)
(* ===================================================================== *)

Lemma addObjects_objects objects m :
  Metadata.remote_fs_objects (addObjects objects m)
  = Metadata.remote_fs_objects m ++ objects.
Proof.
  unfold addObjects. revert m. induction objects as [|[p sz] objects IH]; intros m; simpl.
  - now rewrite app_nil_r.
  - rewrite IH. simpl. now rewrite <- app_assoc.
Qed.

Lemma addObjects_total_size objects m :
  Metadata.total_size (addObjects objects m)
  = match objects with
    | [] => Metadata.total_size m
    | _ => wrap size_t_bits (Metadata.total_size m + sum_sizes objects)
    end.
Proof.
  unfold addObjects, sum_sizes. revert m.
  induction objects as [|o objects IH]; intros m; [reflexivity |].
  simpl fold_left. rewrite IH. destruct objects as [|o' objects].
  - simpl. now rewrite Z.add_0_r.
  - cbn [Metadata.total_size Metadata.addObject]. rewrite wrap_add_l.
    f_equal. simpl. lia.
Qed.

Lemma sum_sizes_nonneg objects :
  Forall (fun o => in_range size_t_bits (snd o)) objects -> 0 <= sum_sizes objects.
Proof.
  unfold sum_sizes. induction 1 as [|o objects Ho _ IH]; simpl; [lia |].
  unfold in_range in Ho. lia.
Qed.

(** C8, as the claim states it, fails: [total_size] is a [size_t] and the
    addition wraps.  Two objects of [2^63] bytes leave [total_size] at zero. *)
Lemma addObject_total_size_wraps :
  let objects := [("a"%string, 2 ^ 63); ("b"%string, 2 ^ 63)] in
  Forall (fun o => in_range size_t_bits (snd o)) objects /\
  exists m0,
    Metadata.Metadata "root/" "/disk/" "f" true ∅ = Ok m0 /\
    Metadata.total_size (addObjects objects m0) = 0 /\
    Metadata.total_size (addObjects objects m0) <> sum_sizes objects.
Proof.
  split.
  - repeat (constructor; [apply in_range_literal; reflexivity |]). constructor.
  - eexists. split; [reflexivity |]. split; [reflexivity |]. vm_compute. discriminate.
Qed.

(** C8, amended.  For a record created empty in create mode and then mutated
    by any sequence of [addObject (path_i, size_i)] calls, [remote_fs_objects]
    is exactly the sequence of pairs in append order, with no deduplication,
    and [total_size] is the sum of all [size_i] modulo [2^64]: it equals the
    sum whenever the sum is below [2^64]. *)
Theorem addObject_total_size (root disk_path_ path : string)
    (fs : gmap nat LocalFS.inode) (objects : list (string * Z)) :
  Forall (fun o => in_range size_t_bits (snd o)) objects ->
  exists m0,
    Metadata.Metadata root disk_path_ path true fs = Ok m0 /\
    Metadata.remote_fs_objects m0 = [] /\ Metadata.total_size m0 = 0 /\
    let m := addObjects objects m0 in
    Metadata.remote_fs_objects m = objects /\
    Metadata.total_size m = sum_sizes objects mod 2 ^ 64 /\
    (sum_sizes objects < 2 ^ 64 -> Metadata.total_size m = sum_sizes objects).
Proof.
  intros Hsizes. eexists. split; [reflexivity |]. split; [reflexivity |].
  split; [reflexivity |]. cbv zeta.
  rewrite addObjects_objects, addObjects_total_size. cbn [Metadata.remote_fs_objects
    Metadata.total_size app].
  pose proof (sum_sizes_nonneg objects Hsizes) as Hnn.
  split; [reflexivity |].
  assert (Hmod : match objects with
                 | [] => 0
                 | _ :: _ => wrap size_t_bits (0 + sum_sizes objects)
                 end = sum_sizes objects mod 2 ^ 64).
  { destruct objects; [reflexivity |]. unfold wrap. now rewrite Z.add_0_l. }
  rewrite Hmod. split; [reflexivity |].
  intros Hfit. apply Z.mod_small. lia.
Qed.

Lemma addObject_total_size_witness :
  Forall (fun o => in_range size_t_bits (snd o)) [("a"%string, 5); ("a"%string, 7)] /\
  exists m0,
    Metadata.Metadata "root/" "/disk/" "f" true ∅ = Ok m0 /\
    Metadata.remote_fs_objects m0 = [] /\ Metadata.total_size m0 = 0 /\
    let m := addObjects [("a"%string, 5); ("a"%string, 7)] m0 in
    Metadata.remote_fs_objects m = [("a"%string, 5); ("a"%string, 7)] /\
    Metadata.total_size m = sum_sizes [("a"%string, 5); ("a"%string, 7)] mod 2 ^ 64 /\
    (sum_sizes [("a"%string, 5); ("a"%string, 7)] < 2 ^ 64 ->
     Metadata.total_size m = sum_sizes [("a"%string, 5); ("a"%string, 7)]).
Proof.
  assert (H : Forall (fun o => in_range size_t_bits (snd o))
                [("a"%string, 5); ("a"%string, 7)]).
  { repeat (constructor; [apply in_range_literal; reflexivity |]). constructor. }
  split; [exact H |].
  exact (addObject_total_size "root/" "/disk/" "f" ∅ _ H).
Defined.

(* ===================================================================== *)
(** * Round trip of a record *)
(* ===================================================================== *)

Lemma example_record_valid ref flag :
  in_range UInt32_bits ref -> valid_record (example_record ref flag).
Proof.
  intros Href. split; [split |].
  - cbn. lia.
  - repeat (constructor; [apply in_range_literal; reflexivity |]). constructor.
  - split; [apply in_range_literal; reflexivity | exact Href].
Qed.

(** C1 at a record whose read-only flag is set.  [save] succeeds and writes
    a file of version [VERSION_RELATIVE_PATHS], which is not the latest
    version; the flag is in the file, but the reader looks for it from version
    [VERSION_READ_ONLY_FLAG] on only, so the record that is read back has the
    objects, the total size and the reference count of the original and a
    read-only flag that is false. *)
Theorem save_load_drops_read_only :
  let m := example_record 1 true in
  let w' := set_local_fs (<[2%nat := LocalFS.IFile (Metadata.save_buffer m)]> (example_fs EmptyString))
              (example_world EmptyString) in
  valid_record m /\
  Metadata.save m false (example_world EmptyString) = (Ok tt, w') /\
  LocalFS.ReadBufferFromFile (local_fs w') "/disk/f"
  = Ok (Format.render Metadata.VERSION_RELATIVE_PATHS (Metadata.remote_fs_objects m)
          30 1 (Format.render_flag true)) /\
  Metadata.VERSION_RELATIVE_PATHS <> Metadata.VERSION_READ_ONLY_FLAG /\
  readMeta example_disk "f" w' = (Ok (Metadata.set_read_only false m), w') /\
  Metadata.read_only m = true /\
  Metadata.set_read_only false m <> m.
Proof.
  cbv zeta. split; [apply example_record_valid, in_range_literal; reflexivity |].
  split; [vm_compute; reflexivity |]. split; [vm_compute; reflexivity |].
  split; [discriminate |]. split; [vm_compute; reflexivity |].
  split; [reflexivity | discriminate].
Qed.

(* ===================================================================== *)
(** * Removing a file *)
(* ===================================================================== *)

Lemma readMeta_Ok this path w m w' :
  readMeta this path w = (Ok m, w') ->
  Metadata.Metadata (remote_fs_root_path this) (metadata_path this) path false (local_fs w)
  = Ok m.
Proof.
  rewrite run_readMeta. destruct (Metadata.Metadata _ _ _ _ _); now intros [= ->].
Qed.

Lemma readMeta_Throw this path w e w' :
  readMeta this path w = (Throw e, w') ->
  Metadata.Metadata (remote_fs_root_path this) (metadata_path this) path false (local_fs w)
  = Throw e.
Proof.
  rewrite run_readMeta. destruct (Metadata.Metadata _ _ _ _ _); now intros [= ->].
Qed.

Lemma valid_ref_count_pred m :
  valid_record m -> Metadata.ref_count m <> 0 ->
  wrap UInt32_bits (Metadata.ref_count m - 1) = Metadata.ref_count m - 1.
Proof.
  intros (_ & _ & Href) Hpos. apply wrap_small. unfold in_range in *. lia.
Qed.

(** C2.  On local storage whose root is a directory, let the record at
    [path] load as [m].  Then [path] names a regular file and [removeMeta]
    returns normally.  If [ref_count m = 0] the file is gone afterwards and,
    while the remote store answers, one delete request per object of [m] has
    been issued when [keep_in_remote_fs] is false, and none when it is true.
    If [ref_count m = k > 0] the file's inode holds what [save] writes for [m]
    with [ref_count = k - 1], the file is gone, and no delete request has been
    issued. *)
Theorem removeMeta_decrement_or_delete (this : IDiskRemote) (path : string)
    (keep_in_remote_fs : bool) (w : World) (m : Metadata.t) :
  root_is_directory (local_fs w) ->
  readMeta this path w = (Ok m, w) ->
  let file := metadata_path this +:+ path in
  exists n data,
    regular_file (local_fs w) file n data /\
    (Metadata.ref_count m = 0 ->
     (keep_in_remote_fs = false -> remote_error w = None) ->
     exists w',
       removeMeta this path keep_in_remote_fs w = (Ok tt, w') /\
       LocalFS.exists_ (local_fs w') file = false /\
       remote_removed w'
       = remote_removed w
         ++ (if keep_in_remote_fs then []
             else map fst (Metadata.remote_fs_objects m))) /\
    (Metadata.ref_count m <> 0 ->
     exists w',
       removeMeta this path keep_in_remote_fs w = (Ok tt, w') /\
       local_fs w' !! n
       = Some (LocalFS.IFile
                 (Metadata.save_buffer
                    (Metadata.set_ref_count (Metadata.ref_count m - 1) m))) /\
       LocalFS.exists_ (local_fs w') file = false /\
       remote_removed w' = remote_removed w).
Proof.
  intros Hroot Hread file. apply readMeta_Ok in Hread.
  destruct (loaded_record _ _ _ _ _ Hread) as ((n & data & Hfile) & Hvalid & _).
  exists n, data. split; [exact Hfile |]. split.
  - intros Hzero Hremote.
    rewrite (removeMeta_last_reference this path keep_in_remote_fs w m Hroot Hread Hzero).
    cbv zeta. destruct keep_in_remote_fs.
    + eexists. split; [reflexivity |]. split.
      * exact (unlinked_gone _ _ _ _ Hroot Hfile).
      * simpl. now rewrite app_nil_r.
    + unfold try_catch. rewrite run_removeFromRemoteFS by (now apply Hremote).
      eexists. split; [reflexivity |]. split; [| reflexivity].
      exact (unlinked_gone _ _ _ _ Hroot Hfile).
  - intros Hpos.
    rewrite (removeMeta_shared this path keep_in_remote_fs w m n data Hroot Hfile Hread Hpos).
    cbv zeta. rewrite (valid_ref_count_pred m Hvalid Hpos).
    set (m' := Metadata.set_ref_count (Metadata.ref_count m - 1) m).
    set (fs1 := <[n := LocalFS.IFile (Metadata.save_buffer m')]> (local_fs w)).
    assert (Hroot1 : root_is_directory fs1)
      by (apply (root_is_directory_rewrite _ _ data); [apply Hfile | exact Hroot]).
    assert (Hfile1 : regular_file fs1 file n (Metadata.save_buffer m'))
      by exact (regular_file_rewrite_same _ _ _ _ _ Hfile).
    eexists. split; [reflexivity |]. split; [| split; [| reflexivity]].
    + exact (unlinked_inode _ _ _ _ Hroot1 Hfile1).
    + exact (unlinked_gone _ _ _ _ Hroot1 Hfile1).
Qed.

Lemma example_root_is_directory data : root_is_directory (example_fs data).
Proof. eexists. reflexivity. Qed.

Lemma removeMeta_decrement_or_delete_witness :
  let w := example_world (Metadata.save_buffer (example_record 2 false)) in
  root_is_directory (local_fs w) /\
  readMeta example_disk "f" w = (Ok (example_record 2 false), w) /\
  exists w',
    removeMeta example_disk "f" false w = (Ok tt, w') /\
    local_fs w' !! 2%nat
    = Some (LocalFS.IFile (Metadata.save_buffer (example_record 1 false))) /\
    LocalFS.exists_ (local_fs w') "/disk/f" = false /\
    remote_removed w' = [].
Proof.
  cbv zeta.
  set (w := example_world (Metadata.save_buffer (example_record 2 false))).
  assert (Hroot : root_is_directory (local_fs w)) by apply example_root_is_directory.
  assert (Hread : readMeta example_disk "f" w = (Ok (example_record 2 false), w))
    by reflexivity.
  split; [exact Hroot |]. split; [exact Hread |].
  destruct (removeMeta_decrement_or_delete example_disk "f" false w _ Hroot Hread)
    as (n & data & [Hres Hn] & _ & Hshared).
  assert (n = 2%nat) as -> by (vm_compute in Hres; congruence).
  apply Hshared. vm_compute. discriminate.
Defined.

(** C10.  When nothing exists at [path], [removeFileIfExists] returns
    normally and changes nothing.  When something exists there, it is
    [removeFile], the removal that does not keep remote data: in particular,
    on local storage whose root is a directory and while the remote store
    answers, a record that loads with [ref_count = 0] has its file removed and
    one delete request issued per object. *)
Theorem removeFileIfExists_spec (this : IDiskRemote) (path : string) (w : World) :
  let file := metadata_path this +:+ path in
  (LocalFS.exists_ (local_fs w) file = false ->
   removeFileIfExists this path w = (Ok tt, w)) /\
  (LocalFS.exists_ (local_fs w) file = true ->
   removeFileIfExists this path w = removeFile this path w /\
   removeFile this path w = removeMeta this path false w /\
   forall m,
     root_is_directory (local_fs w) -> remote_error w = None ->
     readMeta this path w = (Ok m, w) -> Metadata.ref_count m = 0 ->
     exists w',
       removeFileIfExists this path w = (Ok tt, w') /\
       LocalFS.exists_ (local_fs w') file = false /\
       remote_removed w'
       = remote_removed w ++ map fst (Metadata.remote_fs_objects m)).
Proof.
  intros file. unfold removeFileIfExists, file_exists, ask_fs, bind. fold file. split.
  - now intros ->.
  - intros ->. split; [reflexivity |]. split; [reflexivity |].
    intros m Hroot Hremote Hread Hzero. apply readMeta_Ok in Hread.
    destruct (loaded_record _ _ _ _ _ Hread) as ((n & data & Hfile) & _).
    rewrite (removeMeta_last_reference this path false w m Hroot Hread Hzero).
    cbv zeta. unfold try_catch. rewrite run_removeFromRemoteFS by exact Hremote.
    eexists. split; [reflexivity |]. split; [| reflexivity].
    exact (unlinked_gone _ _ _ _ Hroot Hfile).
Qed.

Lemma removeFileIfExists_spec_witness :
  let w := example_world EmptyString in
  let w0 := example_world (Metadata.save_buffer (example_record 0 false)) in
  (LocalFS.exists_ (local_fs w) "/disk/g" = false /\
   removeFileIfExists example_disk "g" w = (Ok tt, w)) /\
  (LocalFS.exists_ (local_fs w0) "/disk/f" = true /\
   root_is_directory (local_fs w0) /\ remote_error w0 = None /\
   readMeta example_disk "f" w0 = (Ok (example_record 0 false), w0) /\
   exists w',
     removeFileIfExists example_disk "f" w0 = (Ok tt, w') /\
     LocalFS.exists_ (local_fs w') "/disk/f" = false /\
     remote_removed w' = ["abc"; "d"]%string).
Proof.
  cbv zeta.
  set (w := example_world EmptyString).
  set (w0 := example_world (Metadata.save_buffer (example_record 0 false))).
  assert (Hg : LocalFS.exists_ (local_fs w) "/disk/g" = false) by (vm_compute; reflexivity).
  assert (Hf : LocalFS.exists_ (local_fs w0) "/disk/f" = true) by (vm_compute; reflexivity).
  assert (Hroot : root_is_directory (local_fs w0)) by apply example_root_is_directory.
  assert (Herr : remote_error w0 = None) by reflexivity.
  assert (Hread : readMeta example_disk "f" w0 = (Ok (example_record 0 false), w0))
    by (vm_compute; reflexivity).
  assert (Hzero : Metadata.ref_count (example_record 0 false) = 0) by reflexivity.
  split.
  - split; [exact Hg |].
    exact (proj1 (removeFileIfExists_spec example_disk "g" w) Hg).
  - split; [exact Hf |]. split; [exact Hroot |]. split; [exact Herr |].
    split; [exact Hread |].
    exact (proj2 (proj2 (proj2 (removeFileIfExists_spec example_disk "f" w0) Hf))
             (example_record 0 false) Hroot Herr Hread Hzero).
Defined.

(* ===================================================================== *)
(** * Corrupt metadata *)
(* ===================================================================== *)

Lemma removeMeta_catch_other this path e w :
  ~ is_format_error e -> removeMeta_catch this path e w = (Throw e, w).
Proof.
  intros Hne. unfold removeMeta_catch. destruct e as [code nested | what]; [| reflexivity].
  destruct code; try reflexivity. exfalso. apply Hne. now exists nested.
Qed.



(* ===================================================================== *)
(** * Files of the legacy version *)
(* ===================================================================== *)

Lemma load_file_data root dp fp fs data :
  LocalFS.ReadBufferFromFile fs (dp +:+ fp) = Ok data ->
  Metadata.Metadata root dp fp false fs
  = match Metadata.read_fields root dp fp data with
    | Ok (m, _) => Ok m
    | Throw e => Throw (Metadata.rethrow_as_unknown_format e)
    end.
Proof. intros H. unfold Metadata.Metadata. now rewrite H. Qed.

Lemma valid_objects_absolute root objects :
  valid_objects objects -> valid_objects (map (Format.absolute root) objects).
Proof.
  intros [Hlen Hsizes]. split.
  - now rewrite length_map.
  - apply Forall_map. exact Hsizes.
Qed.

Lemma absolute_starts_with root objects :
  Forall (fun o => starts_with (fst o) root = true) (map (Format.absolute root) objects).
Proof. apply Forall_map, Forall_forall. intros o _. apply starts_with_app. Qed.

Lemma relative_absolute root objects :
  map (Format.relative Metadata.VERSION_ABSOLUTE_PATHS root)
    (map (Format.absolute root) objects) = objects.
Proof.
  induction objects as [|[path size] objects IH]; [reflexivity |].
  cbn [map]. rewrite IH. unfold Format.relative, Format.absolute. cbn [fst snd].
  change (Metadata.VERSION_ABSOLUTE_PATHS =? Metadata.VERSION_ABSOLUTE_PATHS) with true.
  cbv iota. now rewrite substr_app.
Qed.



(* ===================================================================== *)
(** * Hard links share one record *)
(* ===================================================================== *)

Section HardLinkScenario.


Lemma free_name_not_exists (fs : gmap nat LocalFS.inode) path :
  free_name fs path -> LocalFS.exists_ fs path = false.
Proof.
  intros (p & es & name & Hp & Hfree). unfold LocalFS.exists_, LocalFS.stat.
  now rewrite (resolve_parent _ _ _ _ _ Hp), Hfree.
Qed.

Lemma valid_record_set_ref_count m k :
  valid_record m -> in_range UInt32_bits k -> valid_record (Metadata.set_ref_count k m).
Proof. intros (Hobjs & Htotal & _) Hk. exact (conj Hobjs (conj Htotal Hk)). Qed.

(** C4.  On local storage whose root is a directory and while the remote
    store answers, let the record at [A] load as [m] with [ref_count = 0] and
    let [B] be a free name in an existing directory.  [createHardLink A B]
    first writes the record back with [ref_count = 1] (after that, [A] reads
    back with [ref_count = 1] and [B] does not exist yet) and then creates the
    link: [B] reads the same record.  [removeFile A] then removes [A], issues
    no delete request and leaves [B] readable with [ref_count = 0] and the
    objects of [m].  [removeFile B] then removes [B] and issues one delete
    request per object of [m]. *)
Theorem hard_link_refcount (this : IDiskRemote) (A B : string) (w : World)
    (m : Metadata.t) :
  let root := remote_fs_root_path this in
  let mp := metadata_path this in
  let linked := Metadata.set_ref_count 1 m in
  let left_at_B := Metadata.set_ref_count 0 (reread root mp B m) in
  root_is_directory (local_fs w) ->
  remote_error w = None ->
  readMeta this A w = (Ok m, w) ->
  Metadata.ref_count m = 0 ->
  free_name (local_fs w) (mp +:+ B) ->
  exists w0 w1 w2 w3,
    (Metadata.save linked false w = (Ok tt, w0) /\
     LocalFS.exists_ (local_fs w0) (mp +:+ B) = false /\
     readMeta this A w0 = (Ok (reread root mp A linked), w0) /\
     on_fs (fun fs => LocalFS.createHardLink fs (mp +:+ A) (mp +:+ B)) w0 = (Ok tt, w1) /\
     createHardLink this A B w = (Ok tt, w1) /\
     readMeta this B w1 = (Ok (reread root mp B linked), w1)) /\
    (removeFile this A w1 = (Ok tt, w2) /\
     LocalFS.exists_ (local_fs w2) (mp +:+ A) = false /\
     readMeta this B w2 = (Ok left_at_B, w2) /\
     Metadata.ref_count left_at_B = 0 /\
     Metadata.remote_fs_objects left_at_B = Metadata.remote_fs_objects m /\
     remote_removed w2 = remote_removed w) /\
    (removeFile this B w2 = (Ok tt, w3) /\
     LocalFS.exists_ (local_fs w3) (mp +:+ B) = false /\
     remote_removed w3 = remote_removed w ++ map fst (Metadata.remote_fs_objects m)).
Proof.
  intros root mp linked left_at_B Hroot Hremote Hread Hzero Hfree.
  apply readMeta_Ok in Hread. fold root mp in Hread.
  destruct (loaded_record _ _ _ _ _ Hread) as ((n & data & HfileA) & Hvalid & Hr & Hdp & Hfp).
  assert (H1 : in_range UInt32_bits 1) by (apply in_range_literal; reflexivity).
  assert (H0 : in_range UInt32_bits 0) by (apply in_range_literal; reflexivity).
  assert (Hvalid1 : valid_record linked) by now apply valid_record_set_ref_count.
  (* the record is written back with one more reference *)
  set (d1 := Metadata.save_buffer linked).
  set (fs0 := <[n := LocalFS.IFile d1]> (local_fs w)).
  set (w0 := set_local_fs fs0 w).
  assert (Hsave : Metadata.save linked false w = (Ok tt, w0)).
  { apply (run_save_existing linked false w n data).
    change (Metadata.disk_path linked) with (Metadata.disk_path m).
    change (Metadata.metadata_file_path linked) with (Metadata.metadata_file_path m).
    now rewrite Hdp, Hfp. }
  assert (HfileA0 : regular_file fs0 (mp +:+ A) n d1)
    by exact (regular_file_rewrite_same _ _ _ _ _ HfileA).
  assert (Hroot0 : root_is_directory fs0)
    by (apply (root_is_directory_rewrite _ _ data); [apply HfileA | exact Hroot]).
  assert (Hfree0 : free_name fs0 (mp +:+ B))
    by (apply (free_name_rewrite _ _ data); [apply HfileA | exact Hfree]).
  (* the link *)
  destruct (createHardLink_free fs0 (mp +:+ A) (mp +:+ B) n d1 Hroot0 HfileA0 Hfree0)
    as (fs1 & Hlink & HfileA1 & HfileB1 & Hentries1 & Hroot1).
  set (w1 := set_local_fs fs1 w).
  (* removing A *)
  set (at_A := reread root mp A linked).
  set (m2 := Metadata.set_ref_count (wrap UInt32_bits (Metadata.ref_count at_A - 1)) at_A).
  set (d2 := Metadata.save_buffer m2).
  set (fs2 := <[n := LocalFS.IFile d2]> fs1).
  assert (Hn1 : fs1 !! n = Some (LocalFS.IFile d1)) by apply HfileA1.
  assert (HfileA2 : regular_file fs2 (mp +:+ A) n d2)
    by exact (regular_file_rewrite_same _ _ _ _ _ HfileA1).
  assert (HfileB2 : regular_file fs2 (mp +:+ B) n d2)
    by exact (regular_file_rewrite_link _ _ _ _ _ _ Hn1 HfileB1).
  assert (Hroot2 : root_is_directory fs2)
    by exact (root_is_directory_rewrite _ _ _ _ Hn1 Hroot1).
  assert (Hentries2 : dir_entry fs2 (mp +:+ B) <> dir_entry fs2 (mp +:+ A)).
  { unfold fs2. rewrite !(dir_entry_rewrite _ _ _ _ _ Hn1). congruence. }
  set (fs3 := unlinked fs2 (mp +:+ A)).
  set (w2 := set_local_fs fs3 (add_log Debug (RemoveFileByPath (mp +:+ A)) w1)).
  assert (HfileB3 : regular_file fs3 (mp +:+ B) n d2)
    by exact (unlinked_other_link _ _ _ _ _ _ _ Hroot2 HfileA2 HfileB2 Hentries2).
  assert (Hroot3 : root_is_directory fs3) by exact (unlinked_root _ _ _ _ Hroot2 HfileA2).
  assert (Hvalid2 : valid_record m2).
  { apply valid_record_set_ref_count; [exact Hvalid1 |].
    unfold at_A. cbn [Metadata.ref_count reread linked Metadata.set_ref_count].
    exact H0. }
  (* removing B *)
  set (w3 := set_remote_removed
               (remote_removed w ++ map fst (Metadata.remote_fs_objects m))
               (set_local_fs (unlinked fs3 (mp +:+ B))
                  (add_log Debug (RemoveFileByPath (mp +:+ B)) w2))).
  assert (HloadA0 : Metadata.Metadata root mp A false fs0 = Ok at_A)
    by exact (load_saved root mp A fs0 n linked Hvalid1 HfileA0).
  assert (HloadA1 : Metadata.Metadata root mp A false fs1 = Ok at_A)
    by exact (load_saved root mp A fs1 n linked Hvalid1 HfileA1).
  assert (HloadB1 : Metadata.Metadata root mp B false fs1 = Ok (reread root mp B linked))
    by exact (load_saved root mp B fs1 n linked Hvalid1 HfileB1).
  assert (HloadB3 : Metadata.Metadata root mp B false fs3 = Ok left_at_B)
    by exact (load_saved root mp B fs3 n m2 Hvalid2 HfileB3).
  exists w0, w1, w2, w3. split; [| split].
  - split; [exact Hsave |]. split; [exact (free_name_not_exists _ _ Hfree0) |].
    split; [rewrite run_readMeta; fold root mp; change (local_fs w0) with fs0;
            now rewrite HloadA0 |].
    split; [unfold on_fs; cbv beta; change (local_fs w0) with fs0; now rewrite Hlink |].
    split.
    + unfold createHardLink. fold root mp.
      rewrite (run_bind_ok _ _ w m w) by (rewrite run_readMeta; fold root mp; now rewrite Hread).
      rewrite Hzero. change (wrap UInt32_bits (0 + 1)) with 1. fold linked.
      rewrite (run_bind_ok _ _ w tt w0 Hsave).
      unfold on_fs. cbv beta. change (local_fs w0) with fs0. now rewrite Hlink.
    + rewrite run_readMeta. fold root mp. change (local_fs w1) with fs1. now rewrite HloadB1.
  - split.
    + unfold removeFile, removeSharedFile.
      rewrite (removeMeta_shared this A false w1 at_A n d1 Hroot1 HfileA1 HloadA1).
      * reflexivity.
      * discriminate.
    + split; [exact (unlinked_gone _ _ _ _ Hroot2 HfileA2) |].
      split; [rewrite run_readMeta; fold root mp; change (local_fs w2) with fs3;
              now rewrite HloadB3 |].
      split; [reflexivity |]. split; reflexivity.
  - unfold removeFile, removeSharedFile.
    rewrite (removeMeta_last_reference this B false w2 left_at_B Hroot3 HloadB3 eq_refl).
    cbv zeta. unfold try_catch. rewrite run_removeFromRemoteFS by exact Hremote.
    split; [reflexivity |]. split; [| reflexivity].
    exact (unlinked_gone _ _ _ _ Hroot3 HfileB3).
Qed.

End HardLinkScenario.

Lemma example_free_name data : free_name (example_fs data) "/disk/g".
Proof.
  exists 1%nat,
    [{| LocalFS.d_name := "f"; LocalFS.d_ino := 2%nat; LocalFS.d_symlink := false |}],
    "g"%string.
  split; vm_compute; reflexivity.
Qed.

Lemma hard_link_refcount_witness :
  let w := example_world (Metadata.save_buffer (example_record 0 false)) in
  (root_is_directory (local_fs w) /\ remote_error w = None /\
   readMeta example_disk "f" w = (Ok (example_record 0 false), w) /\
   Metadata.ref_count (example_record 0 false) = 0 /\
   free_name (local_fs w) "/disk/g") /\
  exists w1 w2 w3,
    createHardLink example_disk "f" "g" w = (Ok tt, w1) /\
    removeFile example_disk "f" w1 = (Ok tt, w2) /\
    fst (readMeta example_disk "g" w2)
    = Ok (Metadata.set_ref_count 0 (reread "root/" "/disk/" "g" (example_record 0 false))) /\
    remote_removed w2 = [] /\
    removeFile example_disk "g" w2 = (Ok tt, w3) /\
    remote_removed w3 = ["abc"; "d"]%string.
Proof.
  cbv zeta.
  set (w := example_world (Metadata.save_buffer (example_record 0 false))).
  assert (Hroot : root_is_directory (local_fs w)) by apply example_root_is_directory.
  assert (Herr : remote_error w = None) by reflexivity.
  assert (Hread : readMeta example_disk "f" w = (Ok (example_record 0 false), w))
    by (vm_compute; reflexivity).
  assert (Hzero : Metadata.ref_count (example_record 0 false) = 0) by reflexivity.
  assert (Hfree : free_name (local_fs w) "/disk/g") by apply example_free_name.
  split; [exact (conj Hroot (conj Herr (conj Hread (conj Hzero Hfree)))) |].
  destruct (hard_link_refcount example_disk "f" "g" w _ Hroot Herr Hread Hzero Hfree)
    as (w0 & w1 & w2 & w3 & (_ & _ & _ & _ & Hlink & _)
        & (HrmA & _ & HreadB & _ & _ & Hkept) & (HrmB & _ & Hpurged)).
  exists w1, w2, w3.
  split; [exact Hlink |]. split; [exact HrmA |].
  split; [now rewrite HreadB |]. split; [exact Hkept |].
  split; [exact HrmB | exact Hpurged].
Defined.

(* ===================================================================== *)
(** * Recursive removal and cycles *)
(* ===================================================================== *)

Section Paths.

Import LocalFS.

Lemma split_path_from_name cur name :
  no_slash name = true -> cur +:+ name <> EmptyString ->
  split_path_from cur name = [cur +:+ name] /\
  split_path_from cur (name +:+ "/") = [cur +:+ name].
Proof.
  revert cur. induction name as [|c rest IH]; intros cur Hns Hne.
  - rewrite string_app_nil_r in *. rewrite string_app_nil_l.
    destruct cur; [congruence |]. now split.
  - simpl in Hns. apply andb_true_iff in Hns as [Hc Hrest].
    apply negb_true_iff in Hc.
    rewrite string_app_cons. simpl split_path_from. rewrite Hc.
    replace (cur +:+ String c rest) with ((cur +:+ String c EmptyString) +:+ rest)
      by (now rewrite string_app_assoc).
    apply IH; [exact Hrest |].
    rewrite string_app_assoc. simpl. destruct cur; discriminate.
Qed.

Lemma split_path_from_app cur a b :
  ends_with_slash a ->
  split_path_from cur (a +:+ b) = split_path_from cur a ++ split_path b.
Proof.
  intros [p ->]. revert cur. induction p as [|c p IH]; intros cur.
  - rewrite string_app_nil_l, string_app_cons, string_app_nil_l. simpl.
    now destruct cur.
  - rewrite !string_app_cons. simpl. destruct (Ascii.eqb c "/").
    + destruct cur; [apply IH |]. rewrite IH. reflexivity.
    + apply IH.
Qed.

Lemma split_path_slash_name name :
  valid_name name -> split_path ("/" +:+ name) = [name].
Proof.
  intros [Hne Hns]. unfold split_path. rewrite string_app_cons, string_app_nil_l. simpl.
  apply (split_path_from_name EmptyString name Hns). now rewrite string_app_nil_l.
Qed.

Lemma split_path_name_slash name :
  valid_name name -> split_path (name +:+ "/") = [name].
Proof.
  intros [Hne Hns]. unfold split_path.
  apply (split_path_from_name EmptyString name Hns). now rewrite string_app_nil_l.
Qed.

(** The entry [name] of the directory at [file]. *)
Lemma resolve_child (fs : gmap nat inode) file name d es e :
  ends_with_slash file -> valid_name name ->
  resolve fs file = Some d -> fs !! d = Some (IDir es) ->
  lookup_entry name es = Some e ->
  resolve fs (file +:+ "/" +:+ name) = Some (d_ino e) /\
  resolve fs (file +:+ name +:+ "/") = Some (d_ino e).
Proof.
  intros Hfile Hname Hres Hd He. unfold resolve, split_path in *.
  rewrite !(split_path_from_app _ file _ Hfile), !walk_app, Hres.
  rewrite (split_path_slash_name _ Hname), (split_path_name_slash _ Hname).
  simpl. now rewrite Hd, He.
Qed.

End Paths.

Section Cycle.

Variable this : IDiskRemote.

Lemma removeMetaRecursive_S stack path keep :
  removeMetaRecursive this (S stack) path keep
  = bind (checkStackSize (S stack)) (fun _ =>
      let file := metadata_path this +:+ path in
      bind (file_isFile file) (fun is_file =>
        if is_file : bool then removeMeta this path keep
        else
          bind (iterateDirectory this path) (fun names =>
            bind (forM_ names (fun name =>
                    bind (iterator_path this path name) (fun it_path =>
                      removeMetaRecursive this stack it_path keep)))
                 (fun _ => file_remove file)))).
Proof. reflexivity. Qed.

Lemma removeRecursive_S stack path :
  removeRecursive this (S stack) path
  = bind (checkStackSize (S stack)) (fun _ =>
      let file := metadata_path this +:+ path in
      bind (file_isFile file) (fun is_file =>
        if is_file : bool then removeFile this path
        else
          bind (iterateDirectory this path) (fun names =>
            bind (forM_ names (fun name =>
                    bind (iterator_path this path name) (fun it_path =>
                      removeRecursive this stack it_path)))
                 (fun _ => file_remove file)))).
Proof. reflexivity. Qed.

(** What one step of the walk sees at a directory of the cycle. *)
Lemma cycle_step (w : World) (C : nat -> Prop) path d :
  descends_forever (local_fs w) C -> ends_with_slash path ->
  LocalFS.resolve (local_fs w) (metadata_path this +:+ path) = Some d -> C d ->
  exists name names child,
    file_isFile (metadata_path this +:+ path) w = (Ok false, w) /\
    iterateDirectory this path w = (Ok (name :: names), w) /\
    iterator_path this path name w = (Ok (path +:+ name +:+ "/"), w) /\
    ends_with_slash (path +:+ name +:+ "/") /\
    LocalFS.resolve (local_fs w) (metadata_path this +:+ path +:+ name +:+ "/") = Some child /\
    C child.
Proof.
  intros Hcycle [p ->] Hres HC.
  destruct (Hcycle d HC) as (e & rest & Hd & Hname & HCe).
  destruct (Hcycle _ HCe) as (e' & rest' & Hd' & _).
  assert (Hfile : ends_with_slash (metadata_path this +:+ p +:+ "/")).
  { exists (metadata_path this +:+ p). now rewrite string_app_assoc. }
  assert (He : LocalFS.lookup_entry (LocalFS.d_name e) (e :: rest) = Some e).
  { unfold LocalFS.lookup_entry. simpl. now rewrite String.eqb_refl. }
  destruct (resolve_child _ _ _ _ _ _ Hfile Hname Hres Hd He) as [Hchild1 Hchild2].
  exists (LocalFS.d_name e), (map LocalFS.d_name rest), (LocalFS.d_ino e).
  split; [| split; [| split; [| split; [| split]]]].
  - unfold file_isFile, ask_fs, LocalFS.isFile, LocalFS.stat. now rewrite Hres, Hd.
  - unfold iterateDirectory, ask_fs, LocalFS.DirectoryIterator, LocalFS.stat.
    now rewrite Hres, Hd.
  - unfold iterator_path, bind, ask_fs, LocalFS.isDirectory, LocalFS.stat.
    rewrite !string_app_assoc in Hchild1. rewrite !string_app_assoc.
    now rewrite Hchild1, Hd'.
  - exists (p +:+ "/" +:+ LocalFS.d_name e). now rewrite !string_app_assoc.
  - rewrite !string_app_assoc in Hchild2. now rewrite !string_app_assoc.
  - exact HCe.
Qed.


End Cycle.

Lemma example_descends_forever :
  descends_forever example_cyclic_fs (fun d => d = 2%nat).
Proof.
  intros d ->. eexists; eexists. split; [reflexivity |].
  split; [split; [discriminate | reflexivity] | reflexivity].
Qed.


(** The check does not fire on a tree without a cycle that fits the stack:
    here the walk removes the file and then the directory. *)
Example removeRecursive_plain_tree :
  let w := example_world (Metadata.save_buffer (example_record 0 false)) in
  exists w',
    removeRecursive example_disk 3 EmptyString w = (Ok tt, w') /\
    LocalFS.exists_ (local_fs w') "/disk/" = false /\
    remote_removed w' = ["abc"; "d"]%string.
Proof.
  cbv zeta. eexists. split; [vm_compute; reflexivity |].
  split; vm_compute; reflexivity.
Qed.

(** The same walk, run on the cycle with a small stack. *)
Example removeRecursive_cycle_run :
  removeRecursive example_disk 4 "a/" example_cyclic_world
  = (Throw (DBException TOO_DEEP_RECURSION None), example_cyclic_world).
Proof. vm_compute. reflexivity. Qed.

(** The walk removes the file that is enumerated before the link, and then
    runs into the cycle. *)
Example removeRecursive_file_before_link :
  let fs :=
    <[2%nat := LocalFS.IDir
                 [{| LocalFS.d_name := "f"; LocalFS.d_ino := 3%nat;
                     LocalFS.d_symlink := false |};
                  {| LocalFS.d_name := "loop"; LocalFS.d_ino := 2%nat;
                     LocalFS.d_symlink := true |}]]> example_cyclic_fs in
  let w := set_local_fs fs example_cyclic_world in
  exists w',
    removeRecursive example_disk 6 "a/" w
    = (Throw (DBException TOO_DEEP_RECURSION None), w') /\
    LocalFS.exists_ (local_fs w') "/disk/a/f" = false /\
    LocalFS.exists_ (local_fs w') "/disk/a/loop/loop/" = true.
Proof.
  cbv zeta. eexists. split; [vm_compute; reflexivity |].
  split; vm_compute; reflexivity.
Qed.

(* ===================================================================== *)
(** * A few runs of the model *)
(* ===================================================================== *)

Example removeMeta_directory :
  fst (removeMeta example_disk EmptyString false (example_world EmptyString))
  = Throw (DBException CANNOT_DELETE_DIRECTORY None).
Proof. vm_compute. reflexivity. Qed.

Example removeMeta_missing :
  fst (removeMeta example_disk "g" false (example_world EmptyString))
  = Throw (PocoException FileNotFoundException).
Proof. vm_compute. reflexivity. Qed.

Example readMeta_missing :
  fst (readMeta example_disk "g" (example_world EmptyString))
  = Throw (DBException UNKNOWN_FORMAT (Some FILE_DOESNT_EXIST)).
Proof. vm_compute. reflexivity. Qed.

Example readMeta_truncated :
  fst (readMeta example_disk "f" (example_world "2"))
  = Throw (DBException UNKNOWN_FORMAT (Some CANNOT_PARSE_INPUT_ASSERTION_FAILED)).
Proof. vm_compute. reflexivity. Qed.

Example createFile_getFileSize :
  let r := createFile example_disk "g" (example_world EmptyString) in
  fst r = Ok tt /\ fst (getFileSize example_disk "g" (snd r)) = Ok 0.
Proof. split; vm_compute; reflexivity. Qed.

Example setReadOnly_is_lost :
  let w := example_world (Metadata.save_buffer (example_record 0 false)) in
  let r := setReadOnly example_disk "f" w in
  fst r = Ok tt /\
  fst (readMeta example_disk "f" (snd r)) = Ok (example_record 0 false).
Proof. split; vm_compute; reflexivity. Qed.

Example reserve_then_release :
  exists r w1 w2,
    reserve example_disk 60 (example_world EmptyString) = (Ok (Some r), w1) /\
    reserved_bytes w1 = 100 /\ reservation_count w1 = 3 /\
    tryReserve example_disk 1 w1 = (Ok false, w1) /\
    DiskRemoteReservation.destructor r w1 = (Ok tt, w2) /\
    reserved_bytes w2 = 40 /\ reservation_count w2 = 2.
Proof.
  eexists; eexists; eexists. split; [vm_compute; reflexivity |].
  repeat split; vm_compute; reflexivity.
Qed.

(* ===================================================================== *)
(** * Resizing a reservation *)
(* ===================================================================== *)

Lemma wrap_wrap_add w a b : wrap w (wrap w a + b) = wrap w (a + b).
Proof. unfold wrap. apply Zplus_mod_idemp_l. Qed.

(** X1.  [update] moves [reserved_bytes] by the difference of the two sizes,
    as [UInt64] arithmetic does, and changes nothing else of the ledger; the
    reservation it leaves has the new size.  The result is the exact value
    [reserved_bytes - size + new_size] whenever that is a [UInt64], also when
    [reserved_bytes < size] and the subtraction in between wraps: unlike the
    destructor, [update] neither clamps nor logs. *)
Theorem reservation_update (r : DiskRemoteReservation.t) (new_size : Z) (w : World) :
  let moved := reserved_bytes w - DiskRemoteReservation.size r + new_size in
  DiskRemoteReservation.update r new_size w
  = (Ok {| DiskRemoteReservation.disk := DiskRemoteReservation.disk r;
           DiskRemoteReservation.size := new_size |},
     set_reserved_bytes (wrap UInt64_bits moved) w) /\
  (in_range UInt64_bits moved ->
   reserved_bytes (snd (DiskRemoteReservation.update r new_size w)) = moved).
Proof.
  intros moved.
  assert (Hrun : DiskRemoteReservation.update r new_size w
                 = (Ok {| DiskRemoteReservation.disk := DiskRemoteReservation.disk r;
                          DiskRemoteReservation.size := new_size |},
                    set_reserved_bytes (wrap UInt64_bits moved) w)).
  { unfold DiskRemoteReservation.update, bind, get_reserved_bytes, put_reserved_bytes, ret.
    cbn [DiskRemoteReservation.size]. now rewrite wrap_wrap_add. }
  split; [exact Hrun |]. intros Hfit. rewrite Hrun. simpl. now apply wrap_small.
Qed.

Lemma reservation_update_witness :
  in_range UInt64_bits (40 - 50 + 20) /\
  reserved_bytes
    (snd (DiskRemoteReservation.update
            {| DiskRemoteReservation.disk := example_disk; DiskRemoteReservation.size := 50 |}
            20 (example_world EmptyString))) = 40 - 50 + 20.
Proof.
  assert (H : in_range UInt64_bits (40 - 50 + 20)) by (unfold in_range, UInt64_bits; lia).
  split; [exact H |].
  exact (proj2 (reservation_update
                  {| DiskRemoteReservation.disk := example_disk;
                     DiskRemoteReservation.size := 50 |}
                  20 (example_world EmptyString)) H).
Defined.

(** What [reserve] leaves when it hands out a reservation. *)
Lemma reserve_Some this bytes w r w1 :
  in_range UInt64_bits bytes ->
  in_range UInt64_bits (available_space w) ->
  in_range UInt64_bits (reserved_bytes w) ->
  reserve this bytes w = (Ok (Some r), w1) ->
  r = {| DiskRemoteReservation.disk := this; DiskRemoteReservation.size := bytes |} /\
  reserved_bytes w1 = reserved_bytes w + bytes /\
  reserved_bytes w1 <= Z.max (available_space w) (reserved_bytes w) /\
  reservation_count w1 = wrap UInt64_bits (reservation_count w + 1) /\
  available_space w1 = available_space w /\
  (exists msg, log w1 = log w ++ [(Debug, msg)]) /\
  local_fs w1 = local_fs w /\ remote_removed w1 = remote_removed w.
Proof.
  intros Hbytes Havail Hres. unfold reserve, tryReserve.
  destruct (Z.eqb_spec bytes 0) as [-> | Hnz].
  - unfold bind, get_reservation_count, put_reservation_count, LOG, ret.
    intros [= <- <-]. simpl. rewrite Z.add_0_r.
    repeat (split; [reflexivity || lia |]). split; [eexists; reflexivity |]. now split.
  - unfold bind, getAvailableSpace, get_reserved_bytes, get_reservation_count,
      put_reservation_count, put_reserved_bytes, LOG, ret.
    set (unreserved := available_space w - Z.min (available_space w) (reserved_bytes w)).
    assert (Hun : in_range UInt64_bits unreserved)
      by (unfold in_range, UInt64_bits in *; subst unreserved; lia).
    rewrite (wrap_small _ _ Hun).
    destruct (Z.leb_spec bytes unreserved) as [Hle | Hgt]; [| discriminate].
    intros [= <- <-]. simpl.
    assert (Hfit : in_range UInt64_bits (reserved_bytes w + bytes))
      by (unfold in_range, UInt64_bits in *; subst unreserved; lia).
    rewrite (wrap_small _ _ Hfit).
    split; [reflexivity |]. split; [reflexivity |].
    split; [subst unreserved; lia |]. split; [reflexivity |]. split; [reflexivity |].
    split; [eexists; reflexivity |]. now split.
Qed.

(** X2.  A reservation handed out by [reserve], resized with [update] and
    then destroyed leaves [reserved_bytes] and [reservation_count] as they
    were before [reserve], and logs no error, provided the counters do not
    overflow on the way. *)
Theorem reserve_update_release (this : IDiskRemote) (bytes new_size : Z) (w w1 : World)
    (r : DiskRemoteReservation.t) :
  in_range UInt64_bits bytes -> in_range UInt64_bits new_size ->
  in_range UInt64_bits (available_space w) ->
  in_range UInt64_bits (reserved_bytes w) ->
  in_range UInt64_bits (reservation_count w) ->
  in_range UInt64_bits (reservation_count w + 1) ->
  in_range UInt64_bits (reserved_bytes w + new_size) ->
  reserve this bytes w = (Ok (Some r), w1) ->
  exists r' w2 w3 msg,
    DiskRemoteReservation.update r new_size w1 = (Ok r', w2) /\
    DiskRemoteReservation.size r' = new_size /\
    reserved_bytes w2 = reserved_bytes w + new_size /\
    DiskRemoteReservation.destructor r' w2 = (Ok tt, w3) /\
    reserved_bytes w3 = reserved_bytes w /\
    reservation_count w3 = reservation_count w /\
    log w3 = log w ++ [(Debug, msg)].
Proof.
  intros Hbytes Hnew Havail Hres Hcount Hcount1 Hfit Hreserve.
  destruct (reserve_Some _ _ _ _ _ Hbytes Havail Hres Hreserve)
    as (-> & Hres1 & _ & Hcount1' & _ & [msg Hlog] & _ & _).
  rewrite (wrap_small _ _ Hcount1) in Hcount1'.
  exists {| DiskRemoteReservation.disk := this; DiskRemoteReservation.size := new_size |}.
  exists (set_reserved_bytes (reserved_bytes w + new_size) w1).
  assert (Hupd : DiskRemoteReservation.update
                   {| DiskRemoteReservation.disk := this;
                      DiskRemoteReservation.size := bytes |} new_size w1
                 = (Ok {| DiskRemoteReservation.disk := this;
                          DiskRemoteReservation.size := new_size |},
                    set_reserved_bytes (reserved_bytes w + new_size) w1)).
  { unfold DiskRemoteReservation.update, bind, get_reserved_bytes, put_reserved_bytes, ret.
    cbn [DiskRemoteReservation.size DiskRemoteReservation.disk].
    rewrite wrap_wrap_add, Hres1.
    replace (reserved_bytes w + bytes - bytes + new_size) with (reserved_bytes w + new_size)
      by lia.
    now rewrite (wrap_small _ _ Hfit). }
  unfold DiskRemoteReservation.destructor, try_catch, DiskRemoteReservation.destructor_try,
    bind, get_reserved_bytes, get_reservation_count, put_reserved_bytes,
    put_reservation_count, LOG, ret.
  cbn [DiskRemoteReservation.size DiskRemoteReservation.disk reserved_bytes
       set_reserved_bytes].
  replace (reserved_bytes w + new_size <? new_size) with false
    by (symmetry; apply Z.ltb_ge; unfold in_range in Hres; lia).
  cbn beta iota. cbn [reservation_count set_reserved_bytes].
  rewrite Hcount1'.
  replace (reservation_count w + 1 =? 0) with false
    by (symmetry; apply Z.eqb_neq; unfold in_range in Hcount; lia).
  eexists _, msg. split; [exact Hupd |]. split; [reflexivity |]. split; [reflexivity |].
  split; [reflexivity |]. cbn [reserved_bytes reservation_count log set_reservation_count
                               set_reserved_bytes].
  replace (reserved_bytes w + new_size - new_size) with (reserved_bytes w) by lia.
  replace (reservation_count w + 1 - 1) with (reservation_count w) by lia.
  rewrite (wrap_small _ _ Hres), (wrap_small _ _ Hcount). now repeat split.
Qed.

Lemma reserve_update_release_witness :
  in_range UInt64_bits 60 /\ in_range UInt64_bits 5 /\
  in_range UInt64_bits (available_space (example_world EmptyString)) /\
  in_range UInt64_bits (reserved_bytes (example_world EmptyString)) /\
  in_range UInt64_bits (reservation_count (example_world EmptyString)) /\
  in_range UInt64_bits (reservation_count (example_world EmptyString) + 1) /\
  in_range UInt64_bits (reserved_bytes (example_world EmptyString) + 5) /\
  exists r' w2 w3 msg,
    DiskRemoteReservation.update
      {| DiskRemoteReservation.disk := example_disk; DiskRemoteReservation.size := 60 |} 5
      (snd (reserve example_disk 60 (example_world EmptyString))) = (Ok r', w2) /\
    DiskRemoteReservation.size r' = 5 /\
    reserved_bytes w2 = 40 + 5 /\
    DiskRemoteReservation.destructor r' w2 = (Ok tt, w3) /\
    reserved_bytes w3 = 40 /\ reservation_count w3 = 2 /\
    log w3 = [] ++ [(Debug, msg)].
Proof.
  assert (H60 : in_range UInt64_bits 60) by (unfold in_range, UInt64_bits; lia).
  assert (H5 : in_range UInt64_bits 5) by (unfold in_range, UInt64_bits; lia).
  assert (H100 : in_range UInt64_bits 100) by (unfold in_range, UInt64_bits; lia).
  assert (H40 : in_range UInt64_bits 40) by (unfold in_range, UInt64_bits; lia).
  assert (H2 : in_range UInt64_bits 2) by (unfold in_range, UInt64_bits; lia).
  assert (H3 : in_range UInt64_bits (2 + 1)) by (unfold in_range, UInt64_bits; lia).
  assert (H45 : in_range UInt64_bits (40 + 5)) by (unfold in_range, UInt64_bits; lia).
  repeat (split; [assumption |]).
  exact (reserve_update_release example_disk 60 5 (example_world EmptyString) _ _
           H60 H5 H100 H40 H2 H3 H45 eq_refl).
Defined.

(** X3.  [tryReserve] never commits more than there is: once a reservation of
    [bytes > 0] is accepted, [reserved_bytes] is at most [available_space],
    whatever it was before; and a reservation of any size leaves
    [reserved_bytes <= available_space] true when it was. *)
Theorem tryReserve_within_available (this : IDiskRemote) (bytes : Z) (w : World) :
  in_range UInt64_bits bytes ->
  in_range UInt64_bits (available_space w) ->
  in_range UInt64_bits (reserved_bytes w) ->
  let w' := snd (tryReserve this bytes w) in
  available_space w' = available_space w /\
  (0 < bytes -> fst (tryReserve this bytes w) = Ok true ->
   reserved_bytes w' <= available_space w') /\
  (reserved_bytes w <= available_space w -> reserved_bytes w' <= available_space w').
Proof.
  intros Hbytes Havail Hres. unfold tryReserve.
  destruct (Z.eqb_spec bytes 0) as [-> | Hnz].
  - simpl. split; [reflexivity |]. split; [lia | tauto].
  - unfold bind, getAvailableSpace, get_reserved_bytes, get_reservation_count,
      put_reservation_count, put_reserved_bytes, LOG, ret.
    set (unreserved := available_space w - Z.min (available_space w) (reserved_bytes w)).
    assert (Hun : in_range UInt64_bits unreserved)
      by (unfold in_range, UInt64_bits in *; subst unreserved; lia).
    rewrite (wrap_small _ _ Hun).
    destruct (Z.leb_spec bytes unreserved) as [Hle | Hgt]; simpl.
    + assert (Hfit : in_range UInt64_bits (reserved_bytes w + bytes))
        by (unfold in_range, UInt64_bits in *; subst unreserved; lia).
      rewrite (wrap_small _ _ Hfit). subst unreserved.
      split; [reflexivity |]. split; intros; lia.
    + split; [reflexivity |]. split; [discriminate | tauto].
Qed.

Lemma tryReserve_within_available_witness :
  let w := example_world EmptyString in
  (in_range UInt64_bits 60 /\ in_range UInt64_bits (available_space w) /\
   in_range UInt64_bits (reserved_bytes w) /\ 0 < 60 /\
   fst (tryReserve example_disk 60 w) = Ok true) /\
  reserved_bytes (snd (tryReserve example_disk 60 w))
  <= available_space (snd (tryReserve example_disk 60 w)).
Proof.
  cbv zeta.
  assert (H60 : in_range UInt64_bits 60) by (unfold in_range, UInt64_bits; lia).
  assert (H100 : in_range UInt64_bits 100) by (unfold in_range, UInt64_bits; lia).
  assert (H40 : in_range UInt64_bits 40) by (unfold in_range, UInt64_bits; lia).
  assert (Hpos : 0 < 60) by lia.
  assert (Hok : fst (tryReserve example_disk 60 (example_world EmptyString)) = Ok true)
    by reflexivity.
  split; [exact (conj H60 (conj H100 (conj H40 (conj Hpos Hok)))) |].
  exact (proj1 (proj2 (tryReserve_within_available example_disk 60
                         (example_world EmptyString) H60 H100 H40)) Hpos Hok).
Defined.

(* ===================================================================== *)
(** * Reading files of the newest version, and sizes *)
(* ===================================================================== *)

Lemma map_relative_3 root objects :
  map (Format.relative Metadata.VERSION_READ_ONLY_FLAG root) objects = objects.
Proof.
  induction objects as [|[path size] objects IH]; [reflexivity |].
  simpl. now rewrite IH.
Qed.

(** X4.  The reader honours the read-only flag of a file of the newest
    version: such a file, with either flag, loads with its stored paths taken
    as relative ones, its total size, its reference count and that flag.
    Whatever follows the flag line is not read. *)
Theorem readMeta_read_only_flag (this : IDiskRemote) (path : string) (w : World) (n : nat)
    (stored : list (string * Z)) (total ref : Z) (flag : bool) (tail : string) :
  valid_objects stored -> in_range size_t_bits total -> in_range UInt32_bits ref ->
  regular_file (local_fs w) (metadata_path this +:+ path) n
    (Format.render Metadata.VERSION_READ_ONLY_FLAG stored total ref
       (Format.render_flag flag +:+ tail)) ->
  readMeta this path w
  = (Ok {| Metadata.remote_fs_root_path := remote_fs_root_path this;
           Metadata.disk_path := metadata_path this;
           Metadata.metadata_file_path := path;
           Metadata.total_size := total; Metadata.remote_fs_objects := stored;
           Metadata.ref_count := ref; Metadata.read_only := flag |}, w).
Proof.
  intros Hstored Htotal Href Hfile.
  rewrite run_readMeta, (load_regular_file _ _ _ _ _ _ Hfile).
  rewrite (read_fields_render_flag _ _ _ _ _ _ _ _ Hstored Htotal Href).
  unfold parsed. now rewrite map_relative_3.
Qed.

(** X5.  [getFileSize] answers with the total size written in the file: it
    is not computed from the sizes of the objects, which may add up to
    something else. *)
Theorem getFileSize_persisted (this : IDiskRemote) (path : string) (w : World) (n : nat)
    (stored : list (string * Z)) (total ref : Z) (tail : string) :
  valid_objects stored -> in_range size_t_bits total -> in_range UInt32_bits ref ->
  regular_file (local_fs w) (metadata_path this +:+ path) n
    (Format.render Metadata.VERSION_RELATIVE_PATHS stored total ref tail) ->
  getFileSize this path w = (Ok total, w).
Proof.
  intros Hstored Htotal Href Hfile. unfold getFileSize.
  assert (Hread : readMeta this path w
                  = (Ok (parsed Metadata.VERSION_RELATIVE_PATHS (remote_fs_root_path this)
                           (metadata_path this) path stored total ref false), w)).
  { rewrite run_readMeta, (load_regular_file _ _ _ _ _ _ Hfile).
    rewrite read_fields_render; try assumption; [reflexivity | now right |].
    intros Hv. vm_compute in Hv. discriminate Hv. }
  now rewrite (run_bind_ok _ _ _ _ _ Hread).
Qed.

Lemma example_objects_valid : valid_objects [("abc"%string, 10); ("d"%string, 20)].
Proof.
  split; [reflexivity |].
  constructor; [apply in_range_literal; reflexivity |].
  constructor; [apply in_range_literal; reflexivity | constructor].
Qed.

Lemma readMeta_read_only_flag_witness :
  valid_objects [("abc"%string, 10); ("d"%string, 20)] /\
  in_range size_t_bits 30 /\ in_range UInt32_bits 4 /\
  readMeta example_disk "f"
    (example_world
       (Format.render Metadata.VERSION_READ_ONLY_FLAG [("abc"%string, 10); ("d"%string, 20)]
          30 4 (Format.render_flag true +:+ "left over")))
  = (Ok {| Metadata.remote_fs_root_path := "root/"; Metadata.disk_path := "/disk/";
           Metadata.metadata_file_path := "f"; Metadata.total_size := 30;
           Metadata.remote_fs_objects := [("abc"%string, 10); ("d"%string, 20)];
           Metadata.ref_count := 4; Metadata.read_only := true |},
     example_world
       (Format.render Metadata.VERSION_READ_ONLY_FLAG [("abc"%string, 10); ("d"%string, 20)]
          30 4 (Format.render_flag true +:+ "left over"))).
Proof.
  assert (H30 : in_range size_t_bits 30) by (apply in_range_literal; reflexivity).
  assert (H4 : in_range UInt32_bits 4) by (apply in_range_literal; reflexivity).
  split; [exact example_objects_valid |]. split; [exact H30 |]. split; [exact H4 |].
  refine (readMeta_read_only_flag example_disk "f" (example_world _) 2%nat _ 30 4 true
            "left over" example_objects_valid H30 H4 _).
  split; vm_compute; reflexivity.
Defined.

Lemma getFileSize_persisted_witness :
  valid_objects [("abc"%string, 10); ("d"%string, 20)] /\
  in_range size_t_bits 7 /\ in_range UInt32_bits 0 /\
  getFileSize example_disk "f"
    (example_world
       (Format.render Metadata.VERSION_RELATIVE_PATHS [("abc"%string, 10); ("d"%string, 20)]
          7 0 EmptyString))
  = (Ok 7,
     example_world
       (Format.render Metadata.VERSION_RELATIVE_PATHS [("abc"%string, 10); ("d"%string, 20)]
          7 0 EmptyString)).
Proof.
  assert (H7 : in_range size_t_bits 7) by (apply in_range_literal; reflexivity).
  assert (H0 : in_range UInt32_bits 0) by (apply in_range_literal; reflexivity).
  split; [exact example_objects_valid |]. split; [exact H7 |]. split; [exact H0 |].
  refine (getFileSize_persisted example_disk "f" (example_world _) 2%nat _ 7 0 EmptyString
            example_objects_valid H7 H0 _).
  split; vm_compute; reflexivity.
Defined.

(* ===================================================================== *)
(** * Creating files and marking them read-only *)
(* ===================================================================== *)

Section Creating.

Variable this : IDiskRemote.

Let root := remote_fs_root_path this.
Let mp := metadata_path this.

Lemma valid_record_empty dp fp : valid_record (empty_record root dp fp).
Proof.
  split; [split; [reflexivity | constructor] |].
  split; apply in_range_literal; reflexivity.
Qed.

(** Writing a file under a free name keeps every other file. *)
Lemma WriteBufferFromFile_free (fs : gmap nat LocalFS.inode) path data :
  free_name fs path ->
  exists fs' n,
    LocalFS.WriteBufferFromFile fs path data = Ok fs' /\
    regular_file fs' path n data /\ fs !! n = None /\
    (forall q n' d', regular_file fs q n' d' -> regular_file fs' q n' d') /\
    (root_is_directory fs -> root_is_directory fs').
Proof.
  intros (p & es & name & Hp & Hfree).
  pose proof (resolve_parent _ _ _ _ _ Hp) as Hres. rewrite Hfree in Hres.
  pose proof (parent_directory _ _ _ _ _ Hp) as Hdir.
  set (n := fresh (dom fs)).
  set (e := {| LocalFS.d_name := name; LocalFS.d_ino := n; LocalFS.d_symlink := false |}).
  assert (Hn : fs !! n = None) by (apply not_elem_of_dom, is_fresh).
  assert (Hw : LocalFS.WriteBufferFromFile fs path data
               = Ok (<[n := LocalFS.IFile data]> (<[p := LocalFS.IDir (es ++ [e])]> fs))).
  { unfold LocalFS.WriteBufferFromFile. now rewrite Hres, Hp, Hfree. }
  eexists _, n. split; [exact Hw |].
  assert (Hnp : n <> p) by (intros Heq; rewrite Heq in Hn; congruence).
  split.
  { split; [| apply lookup_insert_eq].
    unfold LocalFS.resolve. unfold LocalFS.parent in Hp.
    destruct (LocalFS.split_last (LocalFS.split_path path)) as [[init last]|] eqn:Hs;
      [| discriminate].
    apply split_last_Some in Hs. rewrite Hs.
    destruct (LocalFS.walk fs LocalFS.root_ino init) as [q|] eqn:Hq; [| discriminate].
    destruct (fs !! q) as [[|esq]|] eqn:Hfq; try discriminate.
    injection Hp as -> -> ->.
    apply walk_fresh_inode.
    - now rewrite lookup_insert_ne by congruence.
    - rewrite walk_app, (walk_add_entry _ _ _ e _ _ _ Hdir Hq). simpl.
      rewrite lookup_insert_eq.
      pose proof (lookup_entry_app_new es e Hfree) as Hnew.
      change (LocalFS.d_name e) with name in Hnew. now rewrite Hnew.
    - right. now destruct init. }
  split; [exact Hn |]. split.
  - intros q n' d' [Hq Hn']. split.
    + unfold LocalFS.resolve in *. apply walk_fresh_inode.
      * now rewrite lookup_insert_ne by congruence.
      * now apply walk_add_entry.
      * destruct (LocalFS.split_path q); [| right; discriminate].
        left. simpl in Hq. injection Hq as ->. intros Heq. rewrite Heq in Hn'. congruence.
    + rewrite !lookup_insert_ne; [exact Hn' | |]; intros ->; congruence.
  - intros [es0 H0]. unfold root_is_directory.
    destruct (decide (LocalFS.root_ino = p)) as [Hrp | Hrp].
    + exists (es ++ [e]). rewrite Hrp, lookup_insert_ne, lookup_insert_eq; congruence.
    + exists es0. rewrite !lookup_insert_ne; [exact H0 | congruence |].
      intros Heq. rewrite Heq in Hn. congruence.
Qed.

Lemma run_createFile path w :
  createFile this path w = Metadata.save (empty_record root mp path) false w.
Proof. reflexivity. Qed.

Lemma run_readMeta_saved path w n m :
  valid_record m -> regular_file (local_fs w) (mp +:+ path) n (Metadata.save_buffer m) ->
  readMeta this path w = (Ok (reread root mp path m), w).
Proof.
  intros Hvalid Hfile. rewrite run_readMeta. fold root mp.
  now rewrite (load_saved root mp path _ n m Hvalid Hfile).
Qed.

Lemma reread_loaded path fs m b :
  Metadata.Metadata root mp path false fs = Ok m ->
  reread root mp path (Metadata.set_read_only b m) = Metadata.set_read_only false m.
Proof.
  intros Hload. destruct (loaded_record _ _ _ _ _ Hload) as (_ & _ & Hr & Hdp & Hfp).
  destruct m. simpl in *. now subst.
Qed.

End Creating.

(** X6.  [createFile] under a free name of an existing directory makes a
    file there that reads as the empty record (no object, size 0, reference
    count 0), keeps every file there was and asks nothing of the remote
    store. *)
Theorem createFile_new (this : IDiskRemote) (path : string) (w : World) :
  free_name (local_fs w) (metadata_path this +:+ path) ->
  exists fs',
    let w' := set_local_fs fs' w in
    createFile this path w = (Ok tt, w') /\
    readMeta this path w'
    = (Ok (empty_record (remote_fs_root_path this) (metadata_path this) path), w') /\
    getFileSize this path w' = (Ok 0, w') /\
    (forall q n d, regular_file (local_fs w) q n d -> regular_file fs' q n d).
Proof.
  intros Hfree.
  destruct (WriteBufferFromFile_free _ _
              (Metadata.save_buffer
                 (empty_record (remote_fs_root_path this) (metadata_path this) path)) Hfree)
    as (fs' & n & Hw & Hfile & _ & Hframe & _).
  exists fs'. cbv zeta.
  assert (Hread : readMeta this path (set_local_fs fs' w)
                  = (Ok (empty_record (remote_fs_root_path this) (metadata_path this) path),
                     set_local_fs fs' w)).
  { rewrite (run_readMeta_saved this path (set_local_fs fs' w) n _
               (valid_record_empty this _ _) Hfile).
    reflexivity. }
  split; [| split; [exact Hread | split; [| exact Hframe]]].
  - rewrite run_createFile. unfold Metadata.save, on_fs.
    cbn [Metadata.disk_path Metadata.metadata_file_path empty_record]. now rewrite Hw.
  - unfold getFileSize. now rewrite (run_bind_ok _ _ _ _ _ Hread).
Qed.

(** X7.  [createFile] on a path that names a file already rewrites that file
    in place as the empty record: every hard link to it reads the empty
    record afterwards, whatever the file held, and no delete request goes to
    the remote store for the objects the record listed. *)
Theorem createFile_existing (this : IDiskRemote) (path : string) (w : World) (n : nat)
    (data : string) :
  regular_file (local_fs w) (metadata_path this +:+ path) n data ->
  exists fs',
    let w' := set_local_fs fs' w in
    createFile this path w = (Ok tt, w') /\
    remote_removed w' = remote_removed w /\
    forall q old,
      regular_file (local_fs w) (metadata_path this +:+ q) n old ->
      readMeta this q w'
      = (Ok (empty_record (remote_fs_root_path this) (metadata_path this) q), w').
Proof.
  intros Hfile.
  set (m := empty_record (remote_fs_root_path this) (metadata_path this) path).
  exists (<[n := LocalFS.IFile (Metadata.save_buffer m)]> (local_fs w)). cbv zeta.
  split; [| split; [reflexivity |]].
  - rewrite run_createFile. exact (run_save_existing m false w n data Hfile).
  - intros q old Hq.
    assert (Hn : local_fs w !! n = Some (LocalFS.IFile data)) by apply Hfile.
    pose proof (regular_file_rewrite_link _ _ _ (Metadata.save_buffer m) _ _ Hn Hq) as Hq'.
    rewrite (run_readMeta_saved this q (set_local_fs _ w) n m
               (valid_record_empty this _ _) Hq').
    reflexivity.
Qed.

(** X8.  [setReadOnly] rewrites the file of a readable record in place, with
    the flag line set: the bytes are those of the same objects, total size
    and reference count followed by the flag 1.  Read back, the record has
    its objects, total size and reference count as before; its flag reads
    false, since the file is of version 2 and the reader does not look at the
    flag line of such a file. *)
Theorem setReadOnly_in_place (this : IDiskRemote) (path : string) (w : World)
    (m : Metadata.t) :
  readMeta this path w = (Ok m, w) ->
  exists n old,
    regular_file (local_fs w) (metadata_path this +:+ path) n old /\
    let bytes :=
      Format.render Metadata.VERSION_RELATIVE_PATHS (Metadata.remote_fs_objects m)
        (Metadata.total_size m) (Metadata.ref_count m) (Format.render_flag true) in
    let w' := set_local_fs (<[n := LocalFS.IFile bytes]> (local_fs w)) w in
    setReadOnly this path w = (Ok tt, w') /\
    readMeta this path w' = (Ok (Metadata.set_read_only false m), w').
Proof.
  intros Hread. apply readMeta_Ok in Hread.
  destruct (loaded_record _ _ _ _ _ Hread) as ((n & old & Hfile) & Hvalid & Hr & Hdp & Hfp).
  exists n, old. split; [exact Hfile |]. cbv zeta.
  set (m' := Metadata.set_read_only true m).
  assert (Hbytes : Metadata.save_buffer m'
                   = Format.render Metadata.VERSION_RELATIVE_PATHS
                       (Metadata.remote_fs_objects m) (Metadata.total_size m)
                       (Metadata.ref_count m) (Format.render_flag true))
    by apply save_buffer_render.
  rewrite <- Hbytes. split.
  - unfold setReadOnly.
    rewrite (run_bind_ok _ _ w m w) by (rewrite run_readMeta; now rewrite Hread).
    apply (run_save_existing m' false w n old).
    change (Metadata.disk_path m') with (Metadata.disk_path m).
    change (Metadata.metadata_file_path m') with (Metadata.metadata_file_path m).
    now rewrite Hdp, Hfp.
  - assert (Hvalid' : valid_record m') by exact Hvalid.
    rewrite (run_readMeta_saved this path (set_local_fs _ w) n m' Hvalid'
               (regular_file_rewrite_same _ _ _ _ _ Hfile)).
    unfold m'. now rewrite (reread_loaded this path _ m true Hread).
Qed.

Lemma createFile_new_witness :
  let w := example_world EmptyString in
  free_name (local_fs w) "/disk/g" /\
  exists fs',
    createFile example_disk "g" w = (Ok tt, set_local_fs fs' w) /\
    readMeta example_disk "g" (set_local_fs fs' w)
    = (Ok (empty_record "root/" "/disk/" "g"), set_local_fs fs' w) /\
    getFileSize example_disk "g" (set_local_fs fs' w) = (Ok 0, set_local_fs fs' w) /\
    regular_file fs' "/disk/f" 2%nat EmptyString.
Proof.
  cbv zeta. set (w := example_world EmptyString).
  assert (Hfree : free_name (local_fs w) "/disk/g") by apply example_free_name.
  split; [exact Hfree |].
  destruct (createFile_new example_disk "g" w Hfree) as (fs' & Hcreate & Hread & Hsize & Hkept).
  exists fs'. split; [exact Hcreate |]. split; [exact Hread |]. split; [exact Hsize |].
  apply Hkept. split; vm_compute; reflexivity.
Defined.

Lemma createFile_existing_witness :
  let w := example_world (Metadata.save_buffer (example_record 1 false)) in
  regular_file (local_fs w) "/disk/f" 2%nat (Metadata.save_buffer (example_record 1 false)) /\
  exists fs',
    createFile example_disk "f" w = (Ok tt, set_local_fs fs' w) /\
    remote_removed (set_local_fs fs' w) = [] /\
    readMeta example_disk "f" (set_local_fs fs' w)
    = (Ok (empty_record "root/" "/disk/" "f"), set_local_fs fs' w).
Proof.
  cbv zeta. set (w := example_world (Metadata.save_buffer (example_record 1 false))).
  assert (Hfile : regular_file (local_fs w) "/disk/f" 2%nat
                    (Metadata.save_buffer (example_record 1 false)))
    by (split; vm_compute; reflexivity).
  split; [exact Hfile |].
  destruct (createFile_existing example_disk "f" w 2%nat _ Hfile)
    as (fs' & Hcreate & Hremote & Hlinks).
  exists fs'. split; [exact Hcreate |]. split; [exact Hremote |].
  exact (Hlinks "f"%string _ Hfile).
Defined.

Lemma setReadOnly_in_place_witness :
  let w := example_world (Metadata.save_buffer (example_record 1 false)) in
  readMeta example_disk "f" w = (Ok (example_record 1 false), w) /\
  exists n old w',
    regular_file (local_fs w) "/disk/f" n old /\
    setReadOnly example_disk "f" w = (Ok tt, w') /\
    readMeta example_disk "f" w' = (Ok (example_record 1 false), w').
Proof.
  cbv zeta. set (w := example_world (Metadata.save_buffer (example_record 1 false))).
  assert (Hread : readMeta example_disk "f" w = (Ok (example_record 1 false), w))
    by (vm_compute; reflexivity).
  split; [exact Hread |].
  destruct (setReadOnly_in_place example_disk "f" w _ Hread)
    as (n & old & Hfile & Hset & Hback).
  eexists n, old, _. split; [exact Hfile |]. split; [exact Hset | exact Hback].
Defined.

(* ===================================================================== *)
(** * Hard links to a record with any number of references *)
(* ===================================================================== *)

(** The first step of [createHardLink]: the record is written back with one
    more reference. *)
Lemma createHardLink_counts this src_path dst_path w m n data :
  readMeta this src_path w = (Ok m, w) ->
  regular_file (local_fs w) (metadata_path this +:+ src_path) n data ->
  let linked := Metadata.set_ref_count (wrap UInt32_bits (Metadata.ref_count m + 1)) m in
  let fs0 := <[n := LocalFS.IFile (Metadata.save_buffer linked)]> (local_fs w) in
  valid_record linked /\
  createHardLink this src_path dst_path w
  = on_fs (fun fs => LocalFS.createHardLink fs (metadata_path this +:+ src_path)
                       (metadata_path this +:+ dst_path))
      (set_local_fs fs0 w).
Proof.
  intros Hread Hfile linked fs0.
  pose proof (readMeta_Ok _ _ _ _ _ Hread) as Hload.
  destruct (loaded_record _ _ _ _ _ Hload) as (_ & Hvalid & _ & Hdp & Hfp).
  split.
  - apply valid_record_set_ref_count; [exact Hvalid |]. apply wrap_range. discriminate.
  - unfold createHardLink. rewrite (run_bind_ok _ _ _ _ _ Hread). fold linked.
    assert (Hsave : Metadata.save linked false w = (Ok tt, set_local_fs fs0 w)).
    { apply (run_save_existing linked false w n data).
      change (Metadata.disk_path linked) with (Metadata.disk_path m).
      change (Metadata.metadata_file_path linked) with (Metadata.metadata_file_path m).
      now rewrite Hdp, Hfp. }
    now rewrite (run_bind_ok _ _ _ _ _ Hsave).
Qed.

(** X9.  [createHardLink] from a readable record to a free name of an
    existing directory, whatever the number of references the record has:
    afterwards both paths name one file, and both read the objects and total
    size of the record with one reference more (as the increment of a
    [UInt32] gives it: exactly one more unless the count is at its maximum).
    No delete request goes to the remote store. *)
Theorem createHardLink_shares (this : IDiskRemote) (src_path dst_path : string) (w : World)
    (m : Metadata.t) :
  let root := remote_fs_root_path this in
  let mp := metadata_path this in
  let linked := Metadata.set_ref_count (wrap UInt32_bits (Metadata.ref_count m + 1)) m in
  root_is_directory (local_fs w) ->
  readMeta this src_path w = (Ok m, w) ->
  free_name (local_fs w) (mp +:+ dst_path) ->
  exists fs' n,
    let w' := set_local_fs fs' w in
    createHardLink this src_path dst_path w = (Ok tt, w') /\
    regular_file fs' (mp +:+ src_path) n (Metadata.save_buffer linked) /\
    regular_file fs' (mp +:+ dst_path) n (Metadata.save_buffer linked) /\
    readMeta this src_path w' = (Ok (reread root mp src_path linked), w') /\
    readMeta this dst_path w' = (Ok (reread root mp dst_path linked), w') /\
    (Metadata.ref_count m + 1 < 2 ^ 32 ->
     Metadata.ref_count linked = Metadata.ref_count m + 1) /\
    remote_removed w' = remote_removed w.
Proof.
  intros root mp linked Hroot Hread Hfree.
  pose proof (readMeta_Ok _ _ _ _ _ Hread) as Hload.
  destruct (loaded_record _ _ _ _ _ Hload) as ((n & data & Hfile) & Hvalid & _).
  destruct (createHardLink_counts this src_path dst_path w m n data Hread Hfile)
    as [Hvalid1 Hrun].
  fold linked mp in Hvalid1, Hrun.
  set (d1 := Metadata.save_buffer linked) in *.
  set (fs0 := <[n := LocalFS.IFile d1]> (local_fs w)) in *.
  assert (Hn : local_fs w !! n = Some (LocalFS.IFile data)) by apply Hfile.
  assert (Hfile0 : regular_file fs0 (mp +:+ src_path) n d1)
    by exact (regular_file_rewrite_same _ _ _ _ _ Hfile).
  assert (Hroot0 : root_is_directory fs0)
    by exact (root_is_directory_rewrite _ _ _ _ Hn Hroot).
  assert (Hfree0 : free_name fs0 (mp +:+ dst_path))
    by exact (free_name_rewrite _ _ _ _ _ Hn Hfree).
  destruct (createHardLink_free fs0 _ _ n d1 Hroot0 Hfile0 Hfree0)
    as (fs1 & Hlink & Hsrc1 & Hdst1 & _ & _).
  exists fs1, n. cbv zeta.
  split; [rewrite Hrun; unfold on_fs; cbv beta;
          change (local_fs (set_local_fs fs0 w)) with fs0; now rewrite Hlink |].
  split; [exact Hsrc1 |]. split; [exact Hdst1 |].
  split; [exact (run_readMeta_saved this src_path (set_local_fs fs1 w) n linked
                   Hvalid1 Hsrc1) |].
  split; [exact (run_readMeta_saved this dst_path (set_local_fs fs1 w) n linked
                   Hvalid1 Hdst1) |].
  split; [| reflexivity].
  intros Hfit. unfold linked. cbn [Metadata.ref_count Metadata.set_ref_count].
  apply wrap_small. destruct Hvalid as (_ & _ & Href).
  unfold in_range, UInt32_bits in *. lia.
Qed.

Lemma createHardLink_shares_witness :
  let w := example_world (Metadata.save_buffer (example_record 5 false)) in
  (root_is_directory (local_fs w) /\
   readMeta example_disk "f" w = (Ok (example_record 5 false), w) /\
   free_name (local_fs w) "/disk/g") /\
  exists w' n data,
    createHardLink example_disk "f" "g" w = (Ok tt, w') /\
    regular_file (local_fs w') "/disk/f" n data /\
    regular_file (local_fs w') "/disk/g" n data /\
    fst (readMeta example_disk "g" w')
    = Ok (reread "root/" "/disk/" "g" (example_record 6 false)) /\
    remote_removed w' = [].
Proof.
  cbv zeta. set (w := example_world (Metadata.save_buffer (example_record 5 false))).
  assert (Hroot : root_is_directory (local_fs w)) by apply example_root_is_directory.
  assert (Hread : readMeta example_disk "f" w = (Ok (example_record 5 false), w))
    by (vm_compute; reflexivity).
  assert (Hfree : free_name (local_fs w) "/disk/g") by apply example_free_name.
  split; [exact (conj Hroot (conj Hread Hfree)) |].
  destruct (createHardLink_shares example_disk "f" "g" w _ Hroot Hread Hfree)
    as (fs' & n & Hlink & Hsrc & Hdst & _ & Hback & _ & Hremote).
  eexists (set_local_fs fs' w), n, _.
  split; [exact Hlink |]. split; [exact Hsrc |]. split; [exact Hdst |].
  split; [now rewrite Hback | exact Hremote].
Defined.

(** X10.  A hard link that cannot be made leaves the reference it was counted
    with: when the destination names another file already, [createHardLink]
    raises, the destination keeps its file, and the source record has been
    written back with its reference count incremented. *)
Theorem createHardLink_taken (this : IDiskRemote) (src_path dst_path : string) (w : World)
    (m : Metadata.t) (n' : nat) (data' : string) :
  let root := remote_fs_root_path this in
  let mp := metadata_path this in
  let linked := Metadata.set_ref_count (wrap UInt32_bits (Metadata.ref_count m + 1)) m in
  root_is_directory (local_fs w) ->
  readMeta this src_path w = (Ok m, w) ->
  regular_file (local_fs w) (mp +:+ dst_path) n' data' ->
  LocalFS.resolve (local_fs w) (mp +:+ src_path) <> Some n' ->
  exists e fs',
    let w' := set_local_fs fs' w in
    createHardLink this src_path dst_path w = (Throw e, w') /\
    readMeta this src_path w' = (Ok (reread root mp src_path linked), w') /\
    regular_file fs' (mp +:+ dst_path) n' data'.
Proof.
  intros root mp linked Hroot Hread Hdst Hother.
  pose proof (readMeta_Ok _ _ _ _ _ Hread) as Hload.
  destruct (loaded_record _ _ _ _ _ Hload) as ((n & data & Hfile) & Hvalid & _).
  destruct (createHardLink_counts this src_path dst_path w m n data Hread Hfile)
    as [Hvalid1 Hrun].
  fold linked mp in Hvalid1, Hrun.
  set (d1 := Metadata.save_buffer linked) in *.
  set (fs0 := <[n := LocalFS.IFile d1]> (local_fs w)) in *.
  assert (Hn : local_fs w !! n = Some (LocalFS.IFile data)) by apply Hfile.
  assert (Hne : n' <> n) by (intros ->; apply Hother; apply Hfile).
  assert (Hfile0 : regular_file fs0 (mp +:+ src_path) n d1)
    by exact (regular_file_rewrite_same _ _ _ _ _ Hfile).
  assert (Hdst0 : regular_file fs0 (mp +:+ dst_path) n' data').
  { destruct Hdst as [Hres Hn']. split.
    - unfold fs0, LocalFS.resolve.
      rewrite (walk_rewrite _ _ _ d1 _ _ Hn). exact Hres.
    - unfold fs0. now rewrite lookup_insert_ne by congruence. }
  assert (Hroot0 : root_is_directory fs0)
    by exact (root_is_directory_rewrite _ _ _ _ Hn Hroot).
  destruct (regular_file_entry _ _ _ _ Hroot0 Hdst0) as (p & es & name & e & Hp & He & _).
  exists (DBException CANNOT_LINK None), fs0. cbv zeta.
  split; [| split; [| exact Hdst0]].
  - rewrite Hrun. unfold on_fs, LocalFS.createHardLink. cbv beta.
    change (local_fs (set_local_fs fs0 w)) with fs0.
    destruct Hfile0 as [Hres0 Hn0]. now rewrite Hres0, Hn0, Hp, He.
  - exact (run_readMeta_saved this src_path (set_local_fs fs0 w) n linked Hvalid1 Hfile0).
Qed.

Lemma example_two_files data data' :
  regular_file (example_two_files_fs "g" data data') "/disk/f" 2%nat data /\
  regular_file (example_two_files_fs "g" data data') "/disk/g" 3%nat data' /\
  root_is_directory (example_two_files_fs "g" data data').
Proof.
  split; [split; vm_compute; reflexivity |].
  split; [split; vm_compute; reflexivity |]. eexists. reflexivity.
Qed.

Lemma createHardLink_taken_witness :
  let w := example_two_files_world "g" (Metadata.save_buffer (example_record 5 false))
             EmptyString in
  (root_is_directory (local_fs w) /\
   readMeta example_disk "f" w = (Ok (example_record 5 false), w) /\
   regular_file (local_fs w) "/disk/g" 3%nat EmptyString /\
   LocalFS.resolve (local_fs w) "/disk/f" <> Some 3%nat) /\
  exists e w',
    createHardLink example_disk "f" "g" w = (Throw e, w') /\
    fst (readMeta example_disk "f" w')
    = Ok (reread "root/" "/disk/" "f" (example_record 6 false)) /\
    regular_file (local_fs w') "/disk/g" 3%nat EmptyString.
Proof.
  cbv zeta.
  set (w := example_two_files_world "g" (Metadata.save_buffer (example_record 5 false))
              EmptyString).
  destruct (example_two_files (Metadata.save_buffer (example_record 5 false)) EmptyString)
    as (_ & Hdst & Hroot).
  assert (Hread : readMeta example_disk "f" w = (Ok (example_record 5 false), w))
    by (vm_compute; reflexivity).
  assert (Hother : LocalFS.resolve (local_fs w) "/disk/f" <> Some 3%nat)
    by (vm_compute; discriminate).
  split; [exact (conj Hroot (conj Hread (conj Hdst Hother))) |].
  destruct (createHardLink_taken example_disk "f" "g" w _ 3%nat EmptyString
              Hroot Hread Hdst Hother)
    as (e & fs' & Hlink & Hback & Hkept).
  exists e, (set_local_fs fs' w).
  split; [exact Hlink |]. split; [now rewrite Hback | exact Hkept].
Defined.

(* ===================================================================== *)
(** * Renaming a file *)
(* ===================================================================== *)

Section Renaming.

Import LocalFS.

Lemma unlink_entry_absent name es :
  lookup_entry name es = None -> unlink_entry name es = es.
Proof.
  unfold lookup_entry, unlink_entry. induction es as [|x es IH]; [reflexivity |].
  simpl. destruct (String.eqb (d_name x) name); [discriminate |].
  intros H. simpl. now rewrite IH.
Qed.

Lemma lookup_entry_app_None c es e :
  lookup_entry c es = None -> d_name e <> c -> lookup_entry c (es ++ [e]) = None.
Proof.
  unfold lookup_entry. induction es as [|x es IH]; simpl; intros H Hne.
  - now apply String.eqb_neq in Hne as ->.
  - destruct (String.eqb (d_name x) c); [discriminate | now apply IH].
Qed.

Lemma lookup_entry_unlink_None name c es :
  lookup_entry c es = None -> lookup_entry c (unlink_entry name es) = None.
Proof.
  intros H. destruct (lookup_entry c (unlink_entry name es)) eqn:Hl; [| reflexivity].
  apply lookup_entry_unlink_Some in Hl. congruence.
Qed.

(** Unlinking a file keeps the directory of every path. *)
Lemma parent_unlink_file (fs : gmap nat inode) p es name e data x px esx namex :
  fs !! p = Some (IDir es) ->
  lookup_entry name es = Some e -> fs !! d_ino e = Some (IFile data) ->
  parent fs x = Some (px, esx, namex) ->
  parent (<[p := IDir (unlink_entry name es)]> fs) x
  = Some (px, (if decide (px = p) then unlink_entry name es else esx), namex).
Proof.
  intros Hp He Hfile Hx. unfold parent in *.
  destruct (split_last (split_path x)) as [[init last]|]; [| discriminate].
  destruct (walk fs root_ino init) as [m|] eqn:Hw; [| discriminate].
  destruct (fs !! m) as [[|esm]|] eqn:Hm; try discriminate.
  injection Hx as -> -> ->.
  rewrite (walk_unlink_file_frame _ _ _ _ _ _ _ _ _ _ Hp He Hfile Hw Hm).
  destruct (decide (px = p)) as [-> | Hne].
  - now rewrite lookup_insert_eq.
  - now rewrite lookup_insert_ne, Hm by congruence.
Qed.

Lemma renameTo_file_free (fs : gmap nat inode) src dst p es name e data q esq name' :
  parent fs src = Some (p, es, name) ->
  lookup_entry name es = Some e -> fs !! d_ino e = Some (IFile data) ->
  parent fs dst = Some (q, esq, name') -> lookup_entry name' esq = None ->
  PocoFile.renameTo fs src dst
  = Ok (moved fs p es name q esq
          {| d_name := name'; d_ino := d_ino e; d_symlink := d_symlink e |}).
Proof.
  intros Hp He Hfile Hq Hfree.
  pose proof (parent_directory _ _ _ _ _ Hp) as Hdp.
  pose proof (parent_directory _ _ _ _ _ Hq) as Hdq.
  unfold PocoFile.renameTo. rewrite Hp, He, Hq, Hfree.
  assert (Hsame : Nat.eqb p q && String.eqb name name' = false).
  { apply andb_false_iff.
    destruct (Nat.eqb_spec p q) as [-> | Hne]; [right | now left].
    apply String.eqb_neq. intros ->. congruence. }
  rewrite Hsame.
  assert (Hnodir : PocoFile.is_directory_entry fs e = false).
  { unfold PocoFile.is_directory_entry. rewrite Hfile. apply andb_false_r. }
  rewrite Hnodir. cbn [andb].
  unfold PocoFile.move_entry, moved. cbv zeta.
  destruct (decide (q = p)) as [-> | Hne].
  - rewrite lookup_insert_eq.
    assert (esq = es) as -> by congruence.
    now rewrite (unlink_entry_absent name' (unlink_entry name es))
      by now apply lookup_entry_unlink_None.
  - rewrite lookup_insert_ne, Hdq by congruence.
    now rewrite (unlink_entry_absent _ _ Hfree).
Qed.

End Renaming.

Section Moved.

Import LocalFS.

Variables (fs : gmap nat inode) (p : nat) (es : list dirent) (name : string) (e : dirent)
          (data : string) (q : nat) (esq : list dirent) (name' : string).

Hypothesis Hdp : fs !! p = Some (IDir es).
Hypothesis He : lookup_entry name es = Some e.
Hypothesis Hfile : fs !! d_ino e = Some (IFile data).
Hypothesis Hdq : fs !! q = Some (IDir esq).
Hypothesis Hfree : lookup_entry name' esq = None.

Local Abbreviation e' := {| d_name := name'; d_ino := d_ino e; d_symlink := d_symlink e |}.
Local Abbreviation fs' := (moved fs p es name q esq e').

(** The entries of a directory after the move. *)
Local Abbreviation entries_after px esx :=
  (if decide (px = q)
   then (if decide (q = p) then unlink_entry name es else esq) ++ [e']
   else if decide (px = p) then unlink_entry name es else esx).

Lemma moved_names_differ : p = q -> name <> name'.
Proof. intros Hpq ->. subst q. congruence. Qed.

Lemma moved_directory px esx :
  fs !! px = Some (IDir esx) -> fs' !! px = Some (IDir (entries_after px esx)).
Proof.
  intros Hpx. unfold moved. cbv zeta.
  destruct (decide (px = q)) as [-> | Hq]; [now rewrite lookup_insert_eq |].
  rewrite lookup_insert_ne by congruence.
  destruct (decide (px = p)) as [-> | Hp]; [now rewrite lookup_insert_eq |].
  now rewrite lookup_insert_ne by congruence.
Qed.

Lemma moved_inode n' d' : fs !! n' = Some (IFile d') -> fs' !! n' = Some (IFile d').
Proof.
  intros Hn. unfold moved. cbv zeta.
  rewrite !lookup_insert_ne; [exact Hn | |]; intros ->; congruence.
Qed.

Lemma moved_parent x px esx namex :
  parent fs x = Some (px, esx, namex) ->
  parent fs' x = Some (px, entries_after px esx, namex).
Proof.
  intros Hx. unfold moved. cbv zeta.
  pose proof (parent_unlink_file _ _ _ _ _ _ _ _ _ _ Hdp He Hfile Hx) as H1.
  assert (Hq1 : <[p := IDir (unlink_entry name es)]> fs !! q
                = Some (IDir (if decide (q = p) then unlink_entry name es else esq))).
  { destruct (decide (q = p)) as [-> | Hne]; [now rewrite lookup_insert_eq |].
    now rewrite lookup_insert_ne by congruence. }
  rewrite (parent_add_entry _ _ _ e' _ _ _ _ Hq1 H1).
  now destruct (decide (px = q)).
Qed.

Lemma moved_dir_entry x px esx namex :
  parent fs x = Some (px, esx, namex) -> dir_entry fs' x = dir_entry fs x.
Proof.
  intros Hx. unfold dir_entry. now rewrite (moved_parent _ _ _ _ Hx), Hx.
Qed.

(** What a name finds in a directory after the move, the name that moved
    away apart. *)
Lemma moved_lookup px esx namex :
  fs !! px = Some (IDir esx) -> (px, namex) <> (p, name) ->
  lookup_entry namex (entries_after px esx)
  = if decide (px = q /\ namex = name') then Some e' else lookup_entry namex esx.
Proof.
  intros Hpx Hne.
  assert (Hun : px = p -> lookup_entry namex (unlink_entry name es) = lookup_entry namex esx).
  { intros ->. assert (esx = es) as -> by congruence.
    apply lookup_entry_unlink_ne. congruence. }
  destruct (decide (px = q)) as [-> | Hq].
  - assert (esx = esq) as -> by congruence.
    assert (Hold : lookup_entry namex (if decide (q = p) then unlink_entry name es else esq)
                   = lookup_entry namex esq).
    { destruct (decide (q = p)) as [Hqp | Hqp]; [now apply Hun | reflexivity]. }
    assert (Hfree' : lookup_entry name' (if decide (q = p) then unlink_entry name es else esq)
                     = None).
    { destruct (decide (q = p)) as [Hqp | Hqp]; [| exact Hfree].
      apply lookup_entry_unlink_None. assert (es = esq) as -> by congruence. exact Hfree. }
    destruct (decide (q = q /\ namex = name')) as [[_ ->] | Hno].
    + exact (lookup_entry_app_new _ e' Hfree').
    + destruct (lookup_entry namex esq) as [ex|] eqn:Hl.
      * apply lookup_entry_app_Some. now rewrite Hold.
      * apply lookup_entry_app_None; [now rewrite Hold |]. simpl. intros ->. now apply Hno.
  - destruct (decide (px = q /\ namex = name')) as [[? _] | _]; [contradiction |].
    destruct (decide (px = p)) as [Hp | Hp]; [now apply Hun | reflexivity].
Qed.

Lemma moved_lookup_source : lookup_entry name (entries_after p es) = None.
Proof.
  destruct (decide (p = q)) as [Hpq | Hpq].
  - destruct (decide (q = p)) as [_ | Hno]; [| now elim Hno].
    apply lookup_entry_app_None; [apply lookup_entry_unlink_eq |].
    simpl. intros Heq. now apply (moved_names_differ Hpq).
  - destruct (decide (p = p)) as [_ | []]; [| reflexivity]. apply lookup_entry_unlink_eq.
Qed.

Lemma moved_root : root_is_directory fs -> root_is_directory fs'.
Proof. intros [es0 H0]. eexists. exact (moved_directory _ _ H0). Qed.

End Moved.

(** Renaming a regular file to a free name moves its entry, and nothing
    else: the file is found under the new name, the old name is free, every
    other file and every other free name stay as they are. *)
Lemma renameTo_regular_file (fs : gmap nat LocalFS.inode) src dst n data :
  root_is_directory fs -> regular_file fs src n data -> free_name fs dst ->
  exists fs',
    PocoFile.renameTo fs src dst = Ok fs' /\
    regular_file fs' dst n data /\
    free_name fs' src /\
    root_is_directory fs' /\
    dir_entry fs' src = dir_entry fs src /\
    dir_entry fs' dst = dir_entry fs dst /\
    (forall x n' d',
       regular_file fs x n' d' -> dir_entry fs x <> dir_entry fs src ->
       regular_file fs' x n' d' /\ dir_entry fs' x = dir_entry fs x) /\
    (forall x,
       free_name fs x -> dir_entry fs x <> dir_entry fs dst ->
       free_name fs' x /\ dir_entry fs' x = dir_entry fs x).
Proof.
  intros Hroot Hsrc (q & esq & name' & Hq & Hfree).
  destruct (regular_file_entry _ _ _ _ Hroot Hsrc) as (p & es & name & e & Hp & He & Hino).
  pose proof (parent_directory _ _ _ _ _ Hp) as Hdp.
  pose proof (parent_directory _ _ _ _ _ Hq) as Hdq.
  assert (Hfile : fs !! LocalFS.d_ino e = Some (LocalFS.IFile data))
    by (rewrite Hino; apply Hsrc).
  pose proof (moved_parent _ _ _ _ _ _ _ _ name' Hdp He Hfile Hdq) as Hparent.
  pose proof (moved_lookup _ _ _ _ _ _ _ _ Hdp He Hdq Hfree) as Hlookup.
  pose proof (moved_inode _ _ _ name e _ _ name' Hdp Hdq) as Hinode.
  pose proof (moved_dir_entry _ _ _ _ _ _ _ _ name' Hdp He Hfile Hdq) as Hentry.
  set (e' := {| LocalFS.d_name := name'; LocalFS.d_ino := LocalFS.d_ino e;
                LocalFS.d_symlink := LocalFS.d_symlink e |}) in *.
  exists (moved fs p es name q esq e').
  assert (Hne : (q, name') <> (p, name)).
  { intros [= -> ->]. congruence. }
  split; [exact (renameTo_file_free _ _ _ _ _ _ _ _ _ _ _ Hp He Hfile Hq Hfree) |].
  split; [| split; [| split; [| split; [| split; [| split]]]]].
  - split; [| rewrite <- Hino; now apply Hinode].
    rewrite (resolve_parent _ _ _ _ _ (Hparent _ _ _ _ Hq)), (Hlookup _ _ _ Hdq Hne).
    destruct (decide (q = q /\ name' = name')) as [_ | Hno]; [| now elim Hno].
    simpl. now rewrite Hino.
  - exists p. eexists. exists name. split; [exact (Hparent _ _ _ _ Hp) |].
    exact (moved_lookup_source _ _ _ _ _ _ _ name' Hdp He Hdq Hfree).
  - now apply moved_root.
  - exact (Hentry _ _ _ _ Hp).
  - exact (Hentry _ _ _ _ Hq).
  - intros x n' d' Hx Hother.
    destruct (regular_file_entry _ _ _ _ Hroot Hx) as (px & esx & namex & ex & Hpx & Hex & Hix).
    pose proof (parent_directory _ _ _ _ _ Hpx) as Hdx.
    split; [| exact (Hentry _ _ _ _ Hpx)].
    split; [| apply Hinode; apply Hx].
    assert (Hnx : (px, namex) <> (p, name)).
    { intros Heq. apply Hother. unfold dir_entry. rewrite Hpx, Hp. now rewrite Heq. }
    rewrite (resolve_parent _ _ _ _ _ (Hparent _ _ _ _ Hpx)), (Hlookup _ _ _ Hdx Hnx).
    destruct (decide (px = q /\ namex = name')) as [[-> ->] | _].
    + assert (esx = esq) as -> by congruence. congruence.
    + now rewrite Hex, Hix.
  - intros x (px & esx & namex & Hpx & Hfx) Hother.
    pose proof (parent_directory _ _ _ _ _ Hpx) as Hdx.
    split; [| exact (Hentry _ _ _ _ Hpx)].
    exists px. eexists. exists namex. split; [exact (Hparent _ _ _ _ Hpx) |].
    assert (Hnx : (px, namex) <> (p, name)).
    { intros [= -> ->]. congruence. }
    rewrite (Hlookup _ _ _ Hdx Hnx).
    destruct (decide (px = q /\ namex = name')) as [[-> ->] | _]; [| exact Hfx].
    elim Hother. unfold dir_entry. now rewrite Hpx, Hq.
Qed.

(* ===================================================================== *)
(** * Moving and replacing files *)
(* ===================================================================== *)

(** The path of the file is not part of its bytes: the same bytes read
    through another path give the same record, under that path. *)
Lemma read_fields_path root dp fp fp' buf :
  Metadata.read_fields root dp fp' buf
  = match Metadata.read_fields root dp fp buf with
    | Ok (m, rest) => Ok (at_path fp' m, rest)
    | Throw e => Throw e
    end.
Proof.
  unfold Metadata.read_fields, IO.bind, IO.ret, IO.raise.
  repeat match goal with
         | |- match ?x with _ => _ end = _ => destruct x as [[? ?]|?]; try reflexivity
         | |- context [if ?b then _ else _] => destruct b; cbv beta; try reflexivity
         end.
Qed.

Lemma load_moved root dp fp fp' fs fs' n n' data m :
  regular_file fs (dp +:+ fp) n data -> regular_file fs' (dp +:+ fp') n' data ->
  Metadata.Metadata root dp fp false fs = Ok m ->
  Metadata.Metadata root dp fp' false fs' = Ok (at_path fp' m).
Proof.
  intros Hfile Hfile' Hload.
  rewrite (load_regular_file _ _ _ _ _ _ Hfile) in Hload.
  rewrite (load_regular_file _ _ _ _ _ _ Hfile'), (read_fields_path root dp fp fp').
  destruct (Metadata.read_fields root dp fp data) as [[m0 rest]|e]; [| discriminate].
  now injection Hload as ->.
Qed.

Lemma run_exists this path w :
  exists_ this path w = (Ok (LocalFS.exists_ (local_fs w) (metadata_path this +:+ path)), w).
Proof. reflexivity. Qed.

Lemma run_moveFile_free this from_path to_path w :
  LocalFS.exists_ (local_fs w) (metadata_path this +:+ to_path) = false ->
  moveFile this from_path to_path w
  = on_fs (fun fs => PocoFile.renameTo fs (metadata_path this +:+ from_path)
                       (metadata_path this +:+ to_path)) w.
Proof.
  intros Hfree. unfold moveFile. rewrite (run_bind_ok _ _ _ _ _ (run_exists _ _ _)).
  now rewrite Hfree.
Qed.

Lemma run_moveFile_taken this from_path to_path w :
  LocalFS.exists_ (local_fs w) (metadata_path this +:+ to_path) = true ->
  moveFile this from_path to_path w = (Throw (DBException FILE_ALREADY_EXISTS None), w).
Proof.
  intros Htaken. unfold moveFile. rewrite (run_bind_ok _ _ _ _ _ (run_exists _ _ _)).
  now rewrite Htaken.
Qed.

Lemma free_name_resolve (fs : gmap nat LocalFS.inode) path :
  free_name fs path -> LocalFS.resolve fs path = None.
Proof.
  intros (p & es & name & Hp & Hfree).
  now rewrite (resolve_parent _ _ _ _ _ Hp), Hfree.
Qed.

Lemma free_name_regular_file (fs : gmap nat LocalFS.inode) x y n data :
  root_is_directory fs -> free_name fs x -> regular_file fs y n data ->
  dir_entry fs x <> dir_entry fs y.
Proof.
  intros Hroot (p & es & name & Hp & Hfree) Hy.
  destruct (regular_file_entry _ _ _ _ Hroot Hy) as (q & esq & name' & e & Hq & He & _).
  unfold dir_entry. rewrite Hp, Hq. intros [= -> ->].
  pose proof (parent_directory _ _ _ _ _ Hp). pose proof (parent_directory _ _ _ _ _ Hq).
  congruence.
Qed.

(** X11.  [moveFile] refuses a destination that exists, before anything is
    touched, also when the source does not exist or is the destination
    itself.  Moving a regular file to a free name of an existing directory
    moves the link and nothing else: the same file, with the same bytes, is
    found at the destination (so a record read there is the record that was
    read at the source), nothing exists at the source any more, every other
    file is as it was, and the remote store is not asked anything. *)
Theorem moveFile_spec (this : IDiskRemote) (from_path to_path : string) (w : World) :
  let mp := metadata_path this in
  (LocalFS.exists_ (local_fs w) (mp +:+ to_path) = true ->
   moveFile this from_path to_path w = (Throw (DBException FILE_ALREADY_EXISTS None), w)) /\
  (forall n data,
     root_is_directory (local_fs w) ->
     regular_file (local_fs w) (mp +:+ from_path) n data ->
     free_name (local_fs w) (mp +:+ to_path) ->
     exists fs',
       let w' := set_local_fs fs' w in
       moveFile this from_path to_path w = (Ok tt, w') /\
       regular_file fs' (mp +:+ to_path) n data /\
       LocalFS.exists_ fs' (mp +:+ from_path) = false /\
       (forall x n' d',
          regular_file (local_fs w) x n' d' ->
          dir_entry (local_fs w) x <> dir_entry (local_fs w) (mp +:+ from_path) ->
          regular_file fs' x n' d') /\
       (forall m,
          readMeta this from_path w = (Ok m, w) ->
          readMeta this to_path w' = (Ok (at_path to_path m), w')) /\
       remote_removed w' = remote_removed w).
Proof.
  intros mp. subst mp. split; [apply run_moveFile_taken |].
  intros n data Hroot Hfile Hfree.
  destruct (renameTo_regular_file _ _ _ _ _ Hroot Hfile Hfree)
    as (fs' & Hrename & Hto & Hfrom & _ & _ & _ & Hframe & _).
  exists fs'. cbv zeta.
  split; [| split; [exact Hto | split; [now apply free_name_not_exists | split]]].
  - rewrite (run_moveFile_free _ _ _ _ (free_name_not_exists _ _ Hfree)).
    unfold on_fs. now rewrite Hrename.
  - intros x n' d' Hx Hother. now apply Hframe.
  - split; [| reflexivity].
    intros m Hread. apply readMeta_Ok in Hread. rewrite run_readMeta.
    change (local_fs (set_local_fs fs' w)) with fs'.
    now rewrite (load_moved _ _ _ _ _ _ _ _ _ _ Hfile Hto Hread).
Qed.

Lemma moveFile_spec_witness :
  let w := example_world (Metadata.save_buffer (example_record 1 false)) in
  (root_is_directory (local_fs w) /\
   regular_file (local_fs w) "/disk/f" 2%nat (Metadata.save_buffer (example_record 1 false)) /\
   free_name (local_fs w) "/disk/g" /\
   LocalFS.exists_ (local_fs w) "/disk/f" = true) /\
  moveFile example_disk "g" "f" w = (Throw (DBException FILE_ALREADY_EXISTS None), w) /\
  exists w',
    moveFile example_disk "f" "g" w = (Ok tt, w') /\
    regular_file (local_fs w') "/disk/g" 2%nat
      (Metadata.save_buffer (example_record 1 false)) /\
    LocalFS.exists_ (local_fs w') "/disk/f" = false /\
    readMeta example_disk "g" w' = (Ok (at_path "g" (example_record 1 false)), w').
Proof.
  cbv zeta. set (w := example_world (Metadata.save_buffer (example_record 1 false))).
  assert (Hroot : root_is_directory (local_fs w)) by apply example_root_is_directory.
  assert (Hfile : regular_file (local_fs w) "/disk/f" 2%nat
                    (Metadata.save_buffer (example_record 1 false)))
    by (split; vm_compute; reflexivity).
  assert (Hfree : free_name (local_fs w) "/disk/g") by apply example_free_name.
  assert (Hexists : LocalFS.exists_ (local_fs w) "/disk/f" = true)
    by (vm_compute; reflexivity).
  assert (Hread : readMeta example_disk "f" w = (Ok (example_record 1 false), w))
    by (vm_compute; reflexivity).
  split; [exact (conj Hroot (conj Hfile (conj Hfree Hexists))) |].
  split; [exact (proj1 (moveFile_spec example_disk "g" "f" w) Hexists) |].
  destruct (proj2 (moveFile_spec example_disk "f" "g" w) _ _ Hroot Hfile Hfree)
    as (fs' & Hmove & Hto & Hfrom & _ & Hrecord & _).
  exists (set_local_fs fs' w).
  split; [exact Hmove |]. split; [exact Hto |]. split; [exact Hfrom |].
  exact (Hrecord _ Hread).
Defined.

Lemma unlinked_resolve_None (fs : gmap nat LocalFS.inode) file x :
  LocalFS.resolve fs x = None -> LocalFS.resolve (unlinked fs file) x = None.
Proof.
  intros Hx. unfold unlinked.
  destruct (LocalFS.parent fs file) as [[[p es] name]|] eqn:Hp; [| exact Hx].
  destruct (LocalFS.resolve (<[p := LocalFS.IDir (LocalFS.unlink_entry name es)]> fs) x)
    as [m|] eqn:Hm; [| reflexivity].
  apply (walk_unlink_sub _ _ _ _ _ _ _ (parent_directory _ _ _ _ _ Hp)) in Hm.
  unfold LocalFS.resolve in Hx. congruence.
Qed.

Lemma resolve_None_not_exists (fs : gmap nat LocalFS.inode) x :
  LocalFS.resolve fs x = None -> LocalFS.exists_ fs x = false.
Proof. intros Hx. unfold LocalFS.exists_, LocalFS.stat. now rewrite Hx. Qed.

Lemma regular_file_exists (fs : gmap nat LocalFS.inode) x n data :
  regular_file fs x n data -> LocalFS.exists_ fs x = true.
Proof.
  intros Hx. unfold LocalFS.exists_. now rewrite (regular_file_stat _ _ _ _ Hx).
Qed.

Lemma renameTo_missing (fs : gmap nat LocalFS.inode) src dst :
  free_name fs src ->
  PocoFile.renameTo fs src dst = Throw (PocoException FileNotFoundException).
Proof.
  intros (p & es & name & Hp & Hfree). unfold PocoFile.renameTo. now rewrite Hp, Hfree.
Qed.

(** X12.  [replaceFile] onto an existing record that nothing else refers
    to: the file of [from_path] becomes the file of [to_path], nothing is left
    at [from_path] nor at the temporary name [to_path.old], and one delete
    request per object of the replaced record goes to the remote store.  The
    record read at [to_path] afterwards is the one that was read at
    [from_path]. *)
Theorem replaceFile_replaces (this : IDiskRemote) (from_path to_path : string) (w : World)
    (old : Metadata.t) (n : nat) (data : string) :
  let mp := metadata_path this in
  let tmp_path := to_path +:+ ".old" in
  root_is_directory (local_fs w) ->
  remote_error w = None ->
  readMeta this to_path w = (Ok old, w) ->
  Metadata.ref_count old = 0 ->
  regular_file (local_fs w) (mp +:+ from_path) n data ->
  dir_entry (local_fs w) (mp +:+ from_path) <> dir_entry (local_fs w) (mp +:+ to_path) ->
  free_name (local_fs w) (mp +:+ tmp_path) ->
  exists w',
    replaceFile this from_path to_path w = (Ok tt, w') /\
    regular_file (local_fs w') (mp +:+ to_path) n data /\
    LocalFS.exists_ (local_fs w') (mp +:+ from_path) = false /\
    LocalFS.exists_ (local_fs w') (mp +:+ tmp_path) = false /\
    remote_removed w' = remote_removed w ++ map fst (Metadata.remote_fs_objects old) /\
    (forall m,
       readMeta this from_path w = (Ok m, w) ->
       readMeta this to_path w' = (Ok (at_path to_path m), w')).
Proof.
  intros mp tmp_path Hroot Hremote Hread Hzero Hfrom Hlinks Hfree.
  apply readMeta_Ok in Hread. fold mp in Hread.
  destruct (loaded_record _ _ _ _ _ Hread) as ((n_to & d_to & Hto) & _).
  (* the replaced file steps aside *)
  destruct (renameTo_regular_file _ _ _ _ _ Hroot Hto Hfree)
    as (fs_a & Hren_a & Htmp_a & Hto_a & Hroot_a & _ & Hent_tmp_a & Hframe_a & _).
  destruct (Hframe_a _ _ _ Hfrom Hlinks) as [Hfrom_a Hent_from_a].
  set (w_a := set_local_fs fs_a w).
  assert (Hmove_a : moveFile this to_path tmp_path w = (Ok tt, w_a)).
  { rewrite (run_moveFile_free _ _ _ _ (free_name_not_exists _ _ Hfree)).
    unfold on_fs. fold mp. now rewrite Hren_a. }
  (* the new file takes its place *)
  destruct (renameTo_regular_file _ _ _ _ _ Hroot_a Hfrom_a Hto_a)
    as (fs_b & Hren_b & Hto_b & Hfrom_b & Hroot_b & _ & Hent_to_b & Hframe_b & _).
  assert (Hother_a : dir_entry fs_a (mp +:+ tmp_path) <> dir_entry fs_a (mp +:+ from_path)).
  { rewrite Hent_tmp_a, Hent_from_a.
    exact (free_name_regular_file _ _ _ _ _ Hroot Hfree Hfrom). }
  destruct (Hframe_b _ _ _ Htmp_a Hother_a) as [Htmp_b Hent_tmp_b].
  set (w_b := set_local_fs fs_b w_a).
  assert (Hmove_b : moveFile this from_path to_path w_a = (Ok tt, w_b)).
  { rewrite (run_moveFile_free this from_path to_path w_a
               (free_name_not_exists _ _ Hto_a)).
    unfold on_fs. fold mp. change (local_fs w_a) with fs_a. now rewrite Hren_b. }
  (* the replaced file is removed *)
  assert (Hload_tmp : Metadata.Metadata (remote_fs_root_path this) mp tmp_path false fs_b
                      = Ok (at_path tmp_path old))
    by exact (load_moved _ _ _ _ _ _ _ _ _ _ Hto Htmp_b Hread).
  assert (Hother_b : dir_entry fs_b (mp +:+ to_path) <> dir_entry fs_b (mp +:+ tmp_path)).
  { rewrite Hent_to_b, Hent_tmp_b.
    exact (free_name_regular_file _ _ _ _ _ Hroot_a Hto_a Htmp_a). }
  set (fs_c := unlinked fs_b (mp +:+ tmp_path)).
  assert (Hto_c : regular_file fs_c (mp +:+ to_path) n data)
    by exact (unlinked_other_link _ _ _ _ _ _ _ Hroot_b Htmp_b Hto_b Hother_b).
  eexists. split.
  - unfold replaceFile. rewrite (run_bind_ok _ _ _ _ _ (run_exists _ _ _)).
    fold mp. rewrite (regular_file_exists _ _ _ _ Hto). fold tmp_path.
    rewrite (run_bind_ok _ _ _ _ _ Hmove_a), (run_bind_ok _ _ _ _ _ Hmove_b).
    unfold removeFile, removeSharedFile.
    rewrite (removeMeta_last_reference this tmp_path false w_b (at_path tmp_path old)
               Hroot_b Hload_tmp Hzero).
    cbv zeta. unfold try_catch. rewrite run_removeFromRemoteFS by exact Hremote.
    reflexivity.
  - split; [exact Hto_c |].
    split; [apply resolve_None_not_exists, unlinked_resolve_None;
            exact (free_name_resolve _ _ Hfrom_b) |].
    split; [exact (unlinked_gone _ _ _ _ Hroot_b Htmp_b) |].
    split; [reflexivity |].
    intros m Hm. apply readMeta_Ok in Hm. rewrite run_readMeta. fold mp.
    match goal with
    | |- context [local_fs ?w'] => change (local_fs w') with fs_c
    end.
    now rewrite (load_moved _ _ _ _ _ _ _ _ _ _ Hfrom Hto_c Hm).
Qed.

(** X13.  [replaceFile] is not atomic, and it trusts the temporary name.
    When something exists at [to_path.old] already, it raises before anything
    is touched.  When nothing is to be found at [from_path], the file of
    [to_path] has been moved to [to_path.old] by the time the error is raised,
    and stays there: nothing exists at [to_path] afterwards. *)
Theorem replaceFile_not_atomic (this : IDiskRemote) (from_path to_path : string)
    (w : World) :
  let mp := metadata_path this in
  let tmp_path := to_path +:+ ".old" in
  (LocalFS.exists_ (local_fs w) (mp +:+ to_path) = true ->
   LocalFS.exists_ (local_fs w) (mp +:+ tmp_path) = true ->
   replaceFile this from_path to_path w
   = (Throw (DBException FILE_ALREADY_EXISTS None), w)) /\
  (forall n data,
     root_is_directory (local_fs w) ->
     regular_file (local_fs w) (mp +:+ to_path) n data ->
     free_name (local_fs w) (mp +:+ tmp_path) ->
     free_name (local_fs w) (mp +:+ from_path) ->
     dir_entry (local_fs w) (mp +:+ from_path) <> dir_entry (local_fs w) (mp +:+ tmp_path) ->
     exists fs',
       replaceFile this from_path to_path w
       = (Throw (PocoException FileNotFoundException), set_local_fs fs' w) /\
       LocalFS.exists_ fs' (mp +:+ to_path) = false /\
       regular_file fs' (mp +:+ tmp_path) n data).
Proof.
  intros mp tmp_path. split.
  - intros Hto Htmp. unfold replaceFile.
    rewrite (run_bind_ok _ _ _ _ _ (run_exists _ _ _)). fold mp. rewrite Hto.
    apply run_bind_throw. now apply run_moveFile_taken.
  - intros n data Hroot Hto Hfree Hmissing Hother.
    destruct (renameTo_regular_file _ _ _ _ _ Hroot Hto Hfree)
      as (fs_a & Hren_a & Htmp_a & Hto_a & _ & _ & _ & _ & Hframe_a).
    destruct (Hframe_a _ Hmissing Hother) as [Hmissing_a _].
    exists fs_a. split; [| split; [now apply free_name_not_exists | exact Htmp_a]].
    unfold replaceFile. rewrite (run_bind_ok _ _ _ _ _ (run_exists _ _ _)).
    fold mp. rewrite (regular_file_exists _ _ _ _ Hto). fold tmp_path.
    assert (Hmove_a : moveFile this to_path tmp_path w = (Ok tt, set_local_fs fs_a w)).
    { rewrite (run_moveFile_free _ _ _ _ (free_name_not_exists _ _ Hfree)).
      unfold on_fs. fold mp. now rewrite Hren_a. }
    rewrite (run_bind_ok _ _ _ _ _ Hmove_a).
    apply run_bind_throw.
    rewrite (run_moveFile_free this from_path to_path (set_local_fs fs_a w)
               (free_name_not_exists _ _ Hto_a)).
    unfold on_fs. fold mp. change (local_fs (set_local_fs fs_a w)) with fs_a.
    now rewrite (renameTo_missing _ _ _ Hmissing_a).
Qed.

Lemma example_old_name_free data data' :
  free_name (example_two_files_fs "g" data data') "/disk/g.old".
Proof.
  exists 1%nat,
    [{| LocalFS.d_name := "f"; LocalFS.d_ino := 2%nat; LocalFS.d_symlink := false |};
     {| LocalFS.d_name := "g"; LocalFS.d_ino := 3%nat; LocalFS.d_symlink := false |}],
    "g.old"%string.
  split; vm_compute; reflexivity.
Qed.

Lemma replaceFile_replaces_witness :
  let new_bytes := Metadata.save_buffer (example_record 1 false) in
  let w := example_two_files_world "g" new_bytes
             (Metadata.save_buffer (example_record 0 false)) in
  (root_is_directory (local_fs w) /\ remote_error w = None /\
   readMeta example_disk "g" w = (Ok (at_path "g" (example_record 0 false)), w) /\
   Metadata.ref_count (at_path "g" (example_record 0 false)) = 0 /\
   regular_file (local_fs w) "/disk/f" 2%nat new_bytes /\
   dir_entry (local_fs w) "/disk/f" <> dir_entry (local_fs w) "/disk/g" /\
   free_name (local_fs w) "/disk/g.old") /\
  exists w',
    replaceFile example_disk "f" "g" w = (Ok tt, w') /\
    regular_file (local_fs w') "/disk/g" 2%nat new_bytes /\
    LocalFS.exists_ (local_fs w') "/disk/f" = false /\
    LocalFS.exists_ (local_fs w') "/disk/g.old" = false /\
    remote_removed w' = ["abc"; "d"]%string.
Proof.
  cbv zeta.
  set (new_bytes := Metadata.save_buffer (example_record 1 false)).
  set (w := example_two_files_world "g" new_bytes
              (Metadata.save_buffer (example_record 0 false))).
  destruct (example_two_files new_bytes (Metadata.save_buffer (example_record 0 false)))
    as (Hfrom & _ & Hroot).
  assert (Hremote : remote_error w = None) by reflexivity.
  assert (Hread : readMeta example_disk "g" w
                  = (Ok (at_path "g" (example_record 0 false)), w))
    by (vm_compute; reflexivity).
  assert (Hzero : Metadata.ref_count (at_path "g" (example_record 0 false)) = 0)
    by reflexivity.
  assert (Hlinks : dir_entry (local_fs w) "/disk/f" <> dir_entry (local_fs w) "/disk/g")
    by (vm_compute; discriminate).
  assert (Hfree : free_name (local_fs w) "/disk/g.old") by apply example_old_name_free.
  split; [exact (conj Hroot (conj Hremote (conj Hread (conj Hzero
                   (conj Hfrom (conj Hlinks Hfree)))))) |].
  destruct (replaceFile_replaces example_disk "f" "g" w _ 2%nat new_bytes
              Hroot Hremote Hread Hzero Hfrom Hlinks Hfree)
    as (w' & Hreplace & Hto & Hgone & Htmp & Hpurged & _).
  exists w'. split; [exact Hreplace |]. split; [exact Hto |]. split; [exact Hgone |].
  split; [exact Htmp | exact Hpurged].
Defined.

Lemma replaceFile_not_atomic_witness :
  let stale := example_two_files_world "f.old" EmptyString EmptyString in
  let w := example_two_files_world "g" EmptyString EmptyString in
  (LocalFS.exists_ (local_fs stale) "/disk/f" = true /\
   LocalFS.exists_ (local_fs stale) "/disk/f.old" = true /\
   root_is_directory (local_fs w) /\
   regular_file (local_fs w) "/disk/g" 3%nat EmptyString /\
   free_name (local_fs w) "/disk/g.old" /\
   free_name (local_fs w) "/disk/h" /\
   dir_entry (local_fs w) "/disk/h" <> dir_entry (local_fs w) "/disk/g.old") /\
  replaceFile example_disk "h" "f" stale = (Throw (DBException FILE_ALREADY_EXISTS None), stale) /\
  exists fs',
    replaceFile example_disk "h" "g" w
    = (Throw (PocoException FileNotFoundException), set_local_fs fs' w) /\
    LocalFS.exists_ fs' "/disk/g" = false /\
    regular_file fs' "/disk/g.old" 3%nat EmptyString.
Proof.
  cbv zeta.
  set (stale := example_two_files_world "f.old" EmptyString EmptyString).
  set (w := example_two_files_world "g" EmptyString EmptyString).
  assert (Hf : LocalFS.exists_ (local_fs stale) "/disk/f" = true)
    by (vm_compute; reflexivity).
  assert (Hold : LocalFS.exists_ (local_fs stale) "/disk/f.old" = true)
    by (vm_compute; reflexivity).
  destruct (example_two_files EmptyString EmptyString) as (_ & Hto & Hroot).
  assert (Hfree : free_name (local_fs w) "/disk/g.old") by apply example_old_name_free.
  assert (Hmissing : free_name (local_fs w) "/disk/h").
  { exists 1%nat,
      [{| LocalFS.d_name := "f"; LocalFS.d_ino := 2%nat; LocalFS.d_symlink := false |};
       {| LocalFS.d_name := "g"; LocalFS.d_ino := 3%nat; LocalFS.d_symlink := false |}],
      "h"%string.
    split; vm_compute; reflexivity. }
  assert (Hother : dir_entry (local_fs w) "/disk/h" <> dir_entry (local_fs w) "/disk/g.old")
    by (vm_compute; discriminate).
  split; [exact (conj Hf (conj Hold (conj Hroot (conj Hto
                   (conj Hfree (conj Hmissing Hother)))))) |].
  split; [exact (proj1 (replaceFile_not_atomic example_disk "h" "f" stale) Hf Hold) |].
  exact (proj2 (replaceFile_not_atomic example_disk "h" "g" w) 3%nat EmptyString
           Hroot Hto Hfree Hmissing Hother).
Defined.

(* ===================================================================== *)
(** * Removal: what is not a file, and what is kept *)
(* ===================================================================== *)

(** X14.  The removal of a file is for files only.  On a directory it raises
    [CANNOT_DELETE_DIRECTORY], and so does [removeFileIfExists]; on a path
    where nothing exists it raises the file-not-found error of [Poco], which
    is not a [DB::Exception] and passes the handler of [removeMeta].  In both
    cases the removal was logged, and local storage and the remote store are
    as they were. *)
Theorem removeSharedFile_not_a_file (this : IDiskRemote) (path : string)
    (keep_in_remote_fs : bool) (w : World) :
  let file := metadata_path this +:+ path in
  let w' := add_log Debug (RemoveFileByPath file) w in
  (forall es,
     LocalFS.stat (local_fs w) file = Some (LocalFS.IDir es) ->
     removeSharedFile this path keep_in_remote_fs w
     = (Throw (DBException CANNOT_DELETE_DIRECTORY None), w') /\
     removeFileIfExists this path w = (Throw (DBException CANNOT_DELETE_DIRECTORY None), w')) /\
  (LocalFS.stat (local_fs w) file = None ->
   removeSharedFile this path keep_in_remote_fs w
   = (Throw (PocoException FileNotFoundException), w')) /\
  local_fs w' = local_fs w /\ remote_removed w' = remote_removed w.
Proof.
  intros file w'. split; [| split; [| now split]].
  - intros es Hdir.
    assert (Hrun : forall keep,
               removeMeta this path keep w
               = (Throw (DBException CANNOT_DELETE_DIRECTORY None), w')).
    { intros keep. unfold removeMeta, bind, LOG, file_isFile, ask_fs, LocalFS.isFile.
      fold file. cbn [local_fs add_log]. now rewrite Hdir. }
    split; [apply Hrun |].
    unfold removeFileIfExists, file_exists, ask_fs, bind, LocalFS.exists_. fold file.
    rewrite Hdir. apply Hrun.
  - intros Hnone.
    unfold removeSharedFile, removeMeta, bind, LOG, file_isFile, ask_fs, LocalFS.isFile.
    fold file. cbn [local_fs add_log]. now rewrite Hnone.
Qed.

Lemma removeSharedFile_not_a_file_witness :
  let w := example_world EmptyString in
  (LocalFS.stat (local_fs w) "/disk/"
   = Some (LocalFS.IDir
             [{| LocalFS.d_name := "f"; LocalFS.d_ino := 2%nat;
                 LocalFS.d_symlink := false |}]) /\
   LocalFS.stat (local_fs w) "/disk/g" = None) /\
  removeSharedFile example_disk EmptyString true w
  = (Throw (DBException CANNOT_DELETE_DIRECTORY None),
     add_log Debug (RemoveFileByPath "/disk/") w) /\
  removeFileIfExists example_disk EmptyString w
  = (Throw (DBException CANNOT_DELETE_DIRECTORY None),
     add_log Debug (RemoveFileByPath "/disk/") w) /\
  removeSharedFile example_disk "g" false w
  = (Throw (PocoException FileNotFoundException),
     add_log Debug (RemoveFileByPath "/disk/g") w).
Proof.
  cbv zeta. set (w := example_world EmptyString).
  assert (Hdir : LocalFS.stat (local_fs w) "/disk/"
                 = Some (LocalFS.IDir
                           [{| LocalFS.d_name := "f"; LocalFS.d_ino := 2%nat;
                               LocalFS.d_symlink := false |}]))
    by (vm_compute; reflexivity).
  assert (Hnone : LocalFS.stat (local_fs w) "/disk/g" = None) by (vm_compute; reflexivity).
  split; [exact (conj Hdir Hnone) |].
  destruct (proj1 (removeSharedFile_not_a_file example_disk EmptyString true w) _ Hdir)
    as [Hshared Hif].
  split; [exact Hshared |]. split; [exact Hif |].
  exact (proj1 (proj2 (removeSharedFile_not_a_file example_disk "g" false w)) Hnone).
Defined.

Section KeepsRemote.

Lemma keeps_remote_ret {A} (a : A) : keeps_remote (ret a).
Proof. now intros w. Qed.

Lemma keeps_remote_throw {A} e : keeps_remote (@throw A e).
Proof. now intros w. Qed.

Lemma keeps_remote_bind {A B} (m : M A) (k : A -> M B) :
  keeps_remote m -> (forall a, keeps_remote (k a)) -> keeps_remote (bind m k).
Proof.
  intros Hm Hk w. unfold bind. specialize (Hm w).
  destruct (m w) as [[a | e] w1]; simpl in *; [| exact Hm].
  now rewrite Hk.
Qed.

Lemma keeps_remote_try {A} (body : M A) handler :
  keeps_remote body -> (forall e, keeps_remote (handler e)) ->
  keeps_remote (try_catch body handler).
Proof.
  intros Hm Hk w. unfold try_catch. specialize (Hm w).
  destruct (body w) as [[a | e] w1]; simpl in *; [exact Hm |].
  now rewrite Hk.
Qed.

Lemma keeps_remote_on_fs op : keeps_remote (on_fs op).
Proof. intros w. unfold on_fs. now destruct (op (local_fs w)). Qed.

Lemma keeps_remote_ask_fs {A} (q : gmap nat LocalFS.inode -> Result A) :
  keeps_remote (ask_fs q).
Proof. intros w. unfold ask_fs. now destruct (q (local_fs w)). Qed.

Lemma keeps_remote_LOG l msg : keeps_remote (LOG l msg).
Proof. now intros w. Qed.

Lemma keeps_remote_forM_ {A} (l : list A) (f : A -> M unit) :
  (forall x, keeps_remote (f x)) -> keeps_remote (forM_ l f).
Proof.
  intros Hf. induction l as [|x l IH]; [apply keeps_remote_ret |].
  simpl. apply keeps_remote_bind; [apply Hf | intros _; exact IH].
Qed.

Variable this : IDiskRemote.

Lemma keeps_remote_removeMeta path : keeps_remote (removeMeta this path true).
Proof.
  unfold removeMeta. apply keeps_remote_bind; [apply keeps_remote_LOG |]. intros _.
  apply keeps_remote_bind; [apply keeps_remote_ask_fs |]. intros is_file.
  destruct (negb is_file); [apply keeps_remote_throw |].
  apply keeps_remote_try.
  - unfold removeMeta_try. apply keeps_remote_bind; [apply keeps_remote_ask_fs |].
    intros m. destruct (Metadata.ref_count m =? 0).
    + apply keeps_remote_bind; [apply keeps_remote_on_fs |]. intros _.
      apply keeps_remote_ret.
    + apply keeps_remote_bind; [apply keeps_remote_on_fs |]. intros _.
      apply keeps_remote_on_fs.
  - intros [code nested | what]; simpl; [| apply keeps_remote_throw].
    destruct (ErrorCode_eqb code UNKNOWN_FORMAT); [| apply keeps_remote_throw].
    apply keeps_remote_bind; [apply keeps_remote_LOG |]. intros _.
    apply keeps_remote_on_fs.
Qed.

Lemma keeps_remote_removeMetaRecursive stack path :
  keeps_remote (removeMetaRecursive this stack path true).
Proof.
  revert path. induction stack as [|stack IH]; intros path.
  - now intros w.
  - rewrite removeMetaRecursive_S.
    apply keeps_remote_bind; [apply keeps_remote_ret |]. intros _. cbv zeta.
    apply keeps_remote_bind; [apply keeps_remote_ask_fs |]. intros is_file.
    destruct is_file; [apply keeps_remote_removeMeta |].
    apply keeps_remote_bind; [apply keeps_remote_ask_fs |]. intros names.
    apply keeps_remote_bind; [| intros _; apply keeps_remote_on_fs].
    apply keeps_remote_forM_. intros name.
    apply keeps_remote_bind; [| intros it_path; apply IH].
    unfold iterator_path.
    apply keeps_remote_bind; [apply keeps_remote_ask_fs | intros b; apply keeps_remote_ret].
Qed.

End KeepsRemote.

(** X15.  With [keep_in_remote_fs] set, the removal of a file and the
    recursive removal send no delete request to the remote store: on every
    path, on every local storage, with any stack left, whether they return or
    raise. *)
Theorem keep_in_remote_fs_keeps (this : IDiskRemote) (stack : nat) (path : string)
    (w : World) :
  remote_removed (snd (removeSharedFile this path true w)) = remote_removed w /\
  remote_removed (snd (removeSharedRecursive this stack path true w)) = remote_removed w.
Proof.
  split; [apply keeps_remote_removeMeta | apply keeps_remote_removeMetaRecursive].
Qed.

(* ===================================================================== *)
(** * Clearing a directory *)
(* ===================================================================== *)

Section Children.

Import LocalFS.

Lemma split_path_name name : valid_name name -> split_path name = [name].
Proof.
  intros [Hne Hns]. unfold split_path.
  destruct (split_path_from_name EmptyString name Hns) as [H _].
  - now rewrite string_app_nil_l.
  - now rewrite string_app_nil_l in H.
Qed.

Lemma split_path_child file name :
  ends_with_slash file -> valid_name name ->
  split_path (file +:+ name) = split_path file ++ [name].
Proof.
  intros Hfile Hname. unfold split_path.
  rewrite (split_path_from_app _ file _ Hfile). now rewrite (split_path_name _ Hname).
Qed.

Lemma resolve_child_file (fs : gmap nat inode) file name d es e :
  ends_with_slash file -> valid_name name ->
  resolve fs file = Some d -> fs !! d = Some (IDir es) ->
  lookup_entry name es = Some e ->
  resolve fs (file +:+ name) = Some (d_ino e).
Proof.
  intros Hfile Hname Hres Hd He. unfold resolve in *.
  rewrite (split_path_child _ _ Hfile Hname), walk_app, Hres. simpl. now rewrite Hd, He.
Qed.

Lemma parent_child (fs : gmap nat inode) file name d es :
  ends_with_slash file -> valid_name name ->
  resolve fs file = Some d -> fs !! d = Some (IDir es) ->
  parent fs (file +:+ name) = Some (d, es, name).
Proof.
  intros Hfile Hname Hres Hd. unfold parent, resolve in *.
  now rewrite (split_path_child _ _ Hfile Hname), split_last_app, Hres, Hd.
Qed.

Lemma ends_with_slash_app a b : ends_with_slash b -> ends_with_slash (a +:+ b).
Proof. intros [p ->]. exists (a +:+ p). now rewrite string_app_assoc. Qed.

Lemma lookup_entry_middle l1 e l2 :
  ~ In (d_name e) (map d_name l1) ->
  lookup_entry (d_name e) (l1 ++ e :: l2) = Some e.
Proof.
  unfold lookup_entry. induction l1 as [|x l1 IH]; simpl; intros Hnot.
  - now rewrite String.eqb_refl.
  - destruct (String.eqb_spec (d_name x) (d_name e)) as [Heq | _]; [tauto |].
    apply IH. tauto.
Qed.

Lemma unlink_entry_app name l1 l2 :
  unlink_entry name (l1 ++ l2) = unlink_entry name l1 ++ unlink_entry name l2.
Proof. unfold unlink_entry. apply List.filter_app. Qed.

Lemma unlink_entry_not_in name es :
  ~ In name (map d_name es) -> unlink_entry name es = es.
Proof.
  unfold unlink_entry. induction es as [|x es IH]; [reflexivity |].
  simpl. intros Hnot.
  destruct (String.eqb_spec (d_name x) name) as [Heq | _]; [tauto |].
  simpl. rewrite IH; tauto.
Qed.

Lemma unlink_entry_middle l1 e l2 :
  ~ In (d_name e) (map d_name l1) -> ~ In (d_name e) (map d_name l2) ->
  unlink_entry (d_name e) (l1 ++ e :: l2) = l1 ++ l2.
Proof.
  intros H1 H2. rewrite unlink_entry_app. simpl. unfold unlink_entry at 2. simpl.
  rewrite String.eqb_refl. simpl.
  fold (unlink_entry (d_name e) l2).
  now rewrite (unlink_entry_not_in _ _ H1), (unlink_entry_not_in _ _ H2).
Qed.

End Children.

(** On a regular file, and while the remote store answers, [removeMeta]
    returns: the file is unlinked, possibly after its bytes were rewritten. *)
Lemma removeMeta_regular_file this path keep w n data :
  root_is_directory (local_fs w) -> remote_error w = None ->
  regular_file (local_fs w) (metadata_path this +:+ path) n data ->
  exists w' data',
    removeMeta this path keep w = (Ok tt, w') /\
    local_fs w'
    = unlinked (<[n := LocalFS.IFile data']> (local_fs w)) (metadata_path this +:+ path) /\
    remote_error w' = None.
Proof.
  intros Hroot Hremote Hfile.
  assert (Hsame : <[n := LocalFS.IFile data]> (local_fs w) = local_fs w)
    by (apply insert_id, Hfile).
  destruct (Metadata.Metadata (remote_fs_root_path this) (metadata_path this) path false
              (local_fs w)) as [m | e] eqn:Hload.
  - destruct (Z.eq_dec (Metadata.ref_count m) 0) as [Hzero | Hshared].
    + rewrite (removeMeta_last_reference this path keep w m Hroot Hload Hzero).
      cbv zeta. destruct keep.
      * eexists _, data. split; [reflexivity |]. split; [| exact Hremote].
        cbn [local_fs set_local_fs]. now rewrite Hsame.
      * unfold try_catch. rewrite run_removeFromRemoteFS by exact Hremote.
        eexists _, data. split; [reflexivity |]. split; [| exact Hremote].
        cbn [local_fs set_remote_removed set_local_fs]. now rewrite Hsame.
    + rewrite (removeMeta_shared this path keep w m n data Hroot Hfile Hload Hshared).
      eexists _, _. split; [reflexivity |]. split; [reflexivity | exact Hremote].
  - rewrite (removeMeta_unreadable this path keep w n data e Hroot Hfile Hload).
    eexists _, data. split; [reflexivity |]. split; [| exact Hremote].
    cbn [local_fs set_local_fs]. now rewrite Hsame.
Qed.

Section Clearing.

Variable this : IDiskRemote.
Variable path : string.
Variable fs0 : gmap nat LocalFS.inode.
Variable d : nat.

Hypothesis Hslash : ends_with_slash path.

Local Abbreviation dir := (metadata_path this +:+ path).

(** What the loop of [clearDirectory] or of a recursive removal sees at an
    entry that is a directory: the iterator gives its path with a slash, and
    it is not a file. *)
Lemma clearing_subdirectory done e todo w sub :
  clearing fs0 dir d done (e :: todo) (local_fs w) ->
  valid_name (LocalFS.d_name e) ->
  ~ In (LocalFS.d_name e) (map LocalFS.d_name (subdirectories fs0 done)) ->
  fs0 !! LocalFS.d_ino e = Some (LocalFS.IDir sub) ->
  iterator_path this path (LocalFS.d_name e) w
  = (Ok (path +:+ LocalFS.d_name e +:+ "/"), w) /\
  isFile this (path +:+ LocalFS.d_name e +:+ "/") w = (Ok false, w) /\
  clearing fs0 dir d (done ++ [e]) todo (local_fs w).
Proof.
  intros (Hdirs & Hfiles & Hd & Hres & Hroot) Hname Hnew Hsub.
  assert (He : LocalFS.lookup_entry (LocalFS.d_name e) (subdirectories fs0 done ++ e :: todo)
               = Some e) by now apply lookup_entry_middle.
  assert (Hkind : exists sub', local_fs w !! LocalFS.d_ino e = Some (LocalFS.IDir sub')).
  { destruct (decide (LocalFS.d_ino e = d)) as [Heq | Hne];
      [rewrite Heq; eexists; exact Hd |].
    exists sub. now apply Hdirs. }
  destruct Hkind as [sub' Hsub'].
  destruct (resolve_child _ _ _ _ _ _ (ends_with_slash_app _ _ Hslash) Hname Hres Hd He)
    as [Hchild1 Hchild2].
  rewrite !string_app_assoc in Hchild1, Hchild2.
  split; [| split].
  - unfold iterator_path, bind, ask_fs, LocalFS.isDirectory, LocalFS.stat.
    now rewrite Hchild1, Hsub'.
  - unfold isFile, file_isFile, ask_fs, LocalFS.isFile, LocalFS.stat.
    now rewrite Hchild2, Hsub'.
  - split; [exact Hdirs |]. split; [exact Hfiles |]. split; [| now split].
    assert (Hk : is_directory_inode fs0 (LocalFS.d_ino e) = true)
      by (unfold is_directory_inode; now rewrite Hsub).
    rewrite Hd. unfold subdirectories. rewrite List.filter_app. cbn [List.filter].
    rewrite Hk. now rewrite <- app_assoc.
Qed.

(** What they see at an entry that is a file: the iterator gives its path,
    it is a file, and its removal returns and takes the entry away. *)
Lemma clearing_file keep done e todo w data :
  clearing fs0 dir d done (e :: todo) (local_fs w) ->
  remote_error w = None ->
  valid_name (LocalFS.d_name e) ->
  ~ In (LocalFS.d_name e) (map LocalFS.d_name (subdirectories fs0 done)) ->
  ~ In (LocalFS.d_name e) (map LocalFS.d_name todo) ->
  fs0 !! LocalFS.d_ino e = Some (LocalFS.IFile data) ->
  iterator_path this path (LocalFS.d_name e) w = (Ok (path +:+ LocalFS.d_name e), w) /\
  isFile this (path +:+ LocalFS.d_name e) w = (Ok true, w) /\
  exists w',
    removeMeta this (path +:+ LocalFS.d_name e) keep w = (Ok tt, w') /\
    clearing fs0 dir d (done ++ [e]) todo (local_fs w') /\
    remote_error w' = None.
Proof.
  intros (Hdirs & Hfiles & Hd & Hres & Hroot) Hremote Hname Hnew Hnew' Hfile.
  set (name := LocalFS.d_name e) in *.
  set (cur := subdirectories fs0 done ++ e :: todo) in *.
  assert (He : LocalFS.lookup_entry name cur = Some e) by now apply lookup_entry_middle.
  destruct (Hfiles _ _ Hfile) as [data1 Hn].
  assert (Hend : ends_with_slash dir) by exact (ends_with_slash_app _ _ Hslash).
  destruct (resolve_child _ _ _ _ _ _ Hend Hname Hres Hd He) as [Hchild1 _].
  pose proof (resolve_child_file _ _ _ _ _ _ Hend Hname Hres Hd He) as Hchild.
  pose proof (parent_child _ _ _ _ _ Hend Hname Hres Hd) as Hparent.
  rewrite !string_app_assoc in Hchild1, Hchild, Hparent.
  assert (Hreg : regular_file (local_fs w) (metadata_path this +:+ path +:+ name)
                   (LocalFS.d_ino e) data1) by now split.
  split; [| split].
  { unfold iterator_path, bind, ask_fs, LocalFS.isDirectory, LocalFS.stat.
    now rewrite Hchild1, Hn. }
  { unfold isFile, file_isFile, ask_fs, LocalFS.isFile, LocalFS.stat.
    now rewrite Hchild, Hn. }
  destruct (removeMeta_regular_file this (path +:+ name) keep w _ _ Hroot Hremote Hreg)
    as (w' & data2 & Hrm & Hfs & Hremote').
  exists w'. split; [exact Hrm |]. split; [| exact Hremote'].
  rewrite Hfs. unfold unlinked.
  rewrite (parent_rewrite _ _ _ data2 _ Hn), Hparent.
  assert (Hnd : LocalFS.d_ino e <> d) by (intros Heq; rewrite Heq in Hn; congruence).
  split; [| split; [| split; [| split]]].
  - intros x sub Hx Hxd. rewrite !lookup_insert_ne; [now apply Hdirs | congruence |].
    intros <-. specialize (Hdirs _ _ Hx Hxd). congruence.
  - intros x data' Hx. destruct (Hfiles _ _ Hx) as [data'' Hx'].
    assert (x <> d) by (intros ->; congruence).
    rewrite lookup_insert_ne by congruence.
    destruct (decide (x = LocalFS.d_ino e)) as [-> | Hne].
    + rewrite lookup_insert_eq. now eexists.
    + rewrite lookup_insert_ne by congruence. eexists. exact Hx'.
  - rewrite lookup_insert_eq. unfold cur, name.
    rewrite (unlink_entry_middle _ _ _ Hnew Hnew').
    assert (Hk : is_directory_inode fs0 (LocalFS.d_ino e) = false)
      by (unfold is_directory_inode; now rewrite Hfile).
    unfold subdirectories. rewrite List.filter_app. cbn [List.filter].
    rewrite Hk. now rewrite app_nil_r.
  - unfold LocalFS.resolve in *.
    apply (walk_unlink_file_frame _ _ _ _ e data2 _ _ _ cur).
    + now rewrite lookup_insert_ne by congruence.
    + exact He.
    + apply lookup_insert_eq.
    + now rewrite (walk_rewrite _ _ _ data2 _ _ Hn).
    + now rewrite lookup_insert_ne by congruence.
  - apply root_is_directory_unlink with (es := cur).
    + now rewrite lookup_insert_ne by congruence.
    + exact (root_is_directory_rewrite _ _ _ _ Hn Hroot).
Qed.

(** A loop over the entries of the directory whose body removes the files
    (keeping their remote data or not) and passes by the directories. *)
Variable keep : bool.
Variable body : string -> M unit.

Hypothesis body_file : forall name w,
  iterator_path this path name w = (Ok (path +:+ name), w) ->
  isFile this (path +:+ name) w = (Ok true, w) ->
  body name w = removeMeta this (path +:+ name) keep w.

Lemma clearing_loop todo : forall done w,
  clearing fs0 dir d done todo (local_fs w) ->
  remote_error w = None ->
  Forall (fun e => valid_name (LocalFS.d_name e)) todo ->
  Forall (fun e =>
            (exists data, fs0 !! LocalFS.d_ino e = Some (LocalFS.IFile data)) \/
            (is_directory_inode fs0 (LocalFS.d_ino e) = true /\
             forall w,
               iterator_path this path (LocalFS.d_name e) w
               = (Ok (path +:+ LocalFS.d_name e +:+ "/"), w) ->
               isFile this (path +:+ LocalFS.d_name e +:+ "/") w = (Ok false, w) ->
               body (LocalFS.d_name e) w = (Ok tt, w))) todo ->
  List.NoDup (map LocalFS.d_name (done ++ todo)) ->
  exists w',
    forM_ (map LocalFS.d_name todo) body w = (Ok tt, w') /\
    clearing fs0 dir d (done ++ todo) [] (local_fs w') /\
    remote_error w' = None.
Proof.
  induction todo as [|e todo IH]; intros done w Hinv Hremote Hnames Hkinds Hnodup.
  - exists w. rewrite !app_nil_r. now split.
  - apply Forall_cons_iff in Hnames as [Hname Hnames].
    apply Forall_cons_iff in Hkinds as [Hkind Hkinds].
    rewrite map_app in Hnodup. cbn [map] in Hnodup.
    pose proof (NoDup_remove_2 _ _ _ Hnodup) as Hfresh.
    assert (Hnew : ~ In (LocalFS.d_name e) (map LocalFS.d_name (subdirectories fs0 done))).
    { intros Hin. apply Hfresh, in_or_app. left.
      apply in_map_iff in Hin as (x & Hx & Hin). apply in_map_iff. exists x.
      split; [exact Hx |]. unfold subdirectories in Hin.
      now apply List.filter_In in Hin. }
    assert (Hnew' : ~ In (LocalFS.d_name e) (map LocalFS.d_name todo)).
    { intros Hin. apply Hfresh, in_or_app. now right. }
    assert (Hnodup' : List.NoDup (map LocalFS.d_name ((done ++ [e]) ++ todo))).
    { rewrite <- app_assoc, map_app. exact Hnodup. }
    destruct Hkind as [[data Hfile] | [Hdir Hpass]].
    + destruct (clearing_file keep done e todo w data Hinv Hremote Hname Hnew Hnew' Hfile)
        as (Hit & His & w1 & Hrm & Hinv1 & Hremote1).
      destruct (IH _ _ Hinv1 Hremote1 Hnames Hkinds Hnodup')
        as (w' & Hrest & Hinv' & Hremote').
      exists w'. cbn [map forM_].
      rewrite (run_bind_ok _ _ _ _ _ (eq_trans (body_file _ _ Hit His) Hrm)).
      rewrite <- app_assoc in Hinv'. now split.
    + unfold is_directory_inode in Hdir.
      destruct (fs0 !! LocalFS.d_ino e) as [[data | sub]|] eqn:Hsub; try discriminate.
      destruct (clearing_subdirectory done e todo w sub Hinv Hname Hnew Hsub)
        as (Hit & His & Hinv1).
      destruct (IH _ _ Hinv1 Hremote Hnames Hkinds Hnodup')
        as (w' & Hrest & Hinv' & Hremote').
      exists w'. cbn [map forM_]. rewrite (run_bind_ok _ _ _ _ _ (Hpass w Hit His)).
      rewrite <- app_assoc in Hinv'. now split.
Qed.

End Clearing.

Lemma lookup_entry_In name es e :
  LocalFS.lookup_entry name es = Some e -> In e es /\ LocalFS.d_name e = name.
Proof.
  unfold LocalFS.lookup_entry. intros H. apply List.find_some in H as [Hin Heq].
  split; [exact Hin | now apply String.eqb_eq].
Qed.

Lemma NoDup_names_unique (es : list LocalFS.dirent) e e' :
  List.NoDup (map LocalFS.d_name es) -> In e es -> In e' es ->
  LocalFS.d_name e = LocalFS.d_name e' -> e = e'.
Proof.
  induction es as [|x es IH]; [contradiction |].
  cbn [map]. intros Hnd [-> | Hin] [-> | Hin'] Heq.
  - reflexivity.
  - exfalso. apply NoDup_cons_iff in Hnd as [Hnot _]. apply Hnot.
    rewrite Heq. now apply in_map.
  - exfalso. apply NoDup_cons_iff in Hnd as [Hnot _]. apply Hnot.
    rewrite <- Heq. now apply in_map.
  - apply NoDup_cons_iff in Hnd as [_ Hnd]. now apply IH.
Qed.

(** The run of [clearDirectory] on a directory whose entries have proper and
    distinct names and none of which dangles: every entry is visited. *)
Lemma clearDirectory_run (this : IDiskRemote) (path : string) (w : World)
    (d : nat) (es : list LocalFS.dirent) :
  let dir := metadata_path this +:+ path in
  root_is_directory (local_fs w) -> remote_error w = None ->
  ends_with_slash path ->
  LocalFS.resolve (local_fs w) dir = Some d ->
  local_fs w !! d = Some (LocalFS.IDir es) ->
  Forall (fun e => valid_name (LocalFS.d_name e)) es ->
  Forall (fun e => local_fs w !! LocalFS.d_ino e <> None) es ->
  List.NoDup (map LocalFS.d_name es) ->
  exists w',
    clearDirectory this path w = (Ok tt, w') /\
    clearing (local_fs w) dir d es [] (local_fs w').
Proof.
  intros dir Hroot Hremote Hslash Hres Hd Hnames Htargets Hnodup. subst dir.
  assert (Hinv : clearing (local_fs w) (metadata_path this +:+ path) d [] es (local_fs w)).
  { split; [now intros |]. split; [intros x data Hx; now exists data |].
    split; [exact Hd |]. now split. }
  set (pass := fun name =>
         bind (iterator_path this path name) (fun it_path =>
           bind (isFile this it_path) (fun is_file =>
             if is_file : bool then
               bind (iterator_path this path name) (fun it_path => removeFile this it_path)
             else ret tt))).
  assert (Hbody : forall name w0,
             iterator_path this path name w0 = (Ok (path +:+ name), w0) ->
             isFile this (path +:+ name) w0 = (Ok true, w0) ->
             pass name w0 = removeMeta this (path +:+ name) false w0).
  { intros name w0 Hit His. unfold pass.
    rewrite (run_bind_ok _ _ _ _ _ Hit), (run_bind_ok _ _ _ _ _ His).
    now rewrite (run_bind_ok _ _ _ _ _ Hit). }
  assert (Hkinds :
            Forall (fun e =>
                      (exists data,
                         local_fs w !! LocalFS.d_ino e = Some (LocalFS.IFile data)) \/
                      (is_directory_inode (local_fs w) (LocalFS.d_ino e) = true /\
                       forall w0,
                         iterator_path this path (LocalFS.d_name e) w0
                         = (Ok (path +:+ LocalFS.d_name e +:+ "/"), w0) ->
                         isFile this (path +:+ LocalFS.d_name e +:+ "/") w0
                         = (Ok false, w0) ->
                         pass (LocalFS.d_name e) w0 = (Ok tt, w0))) es).
  { apply List.Forall_forall. intros e Hin.
    pose proof (proj1 (List.Forall_forall _ _) Htargets e Hin) as Ht.
    destruct (local_fs w !! LocalFS.d_ino e) as [[data | sub]|] eqn:Hk;
      [left; now eexists | right | congruence].
    split; [unfold is_directory_inode; now rewrite Hk |].
    intros w0 Hit His. unfold pass.
    rewrite (run_bind_ok _ _ _ _ _ Hit). now rewrite (run_bind_ok _ _ _ _ _ His). }
  destruct (clearing_loop this path (local_fs w) d Hslash false pass Hbody es [] w Hinv
              Hremote Hnames Hkinds Hnodup) as (w' & Hloop & Hinv' & _).
  exists w'. split; [| exact Hinv'].
  unfold clearDirectory.
  assert (Hiter : iterateDirectory this path w = (Ok (map LocalFS.d_name es), w)).
  { unfold iterateDirectory, ask_fs, LocalFS.DirectoryIterator, LocalFS.stat.
    now rewrite Hres, Hd. }
  rewrite (run_bind_ok _ _ _ _ _ Hiter). exact Hloop.
Qed.



(* ===================================================================== *)
(** * Saving a record and reading it back *)
(* ===================================================================== *)

(** X17.  Every valid record of the disk can be saved wherever its path
    names a regular file or a free name of an existing directory, and what is
    read back there has its objects (paths and sizes, in order), its total
    size and its reference count.  The read-only flag is read back false
    whatever it was: [save] marks the file as version 2, and the reader looks
    for the flag in files of version 3 only. *)
Theorem save_readMeta_round_trip (this : IDiskRemote) (m : Metadata.t) (sync : bool)
    (w : World) :
  let file := metadata_path this +:+ Metadata.metadata_file_path m in
  valid_record m ->
  Metadata.remote_fs_root_path m = remote_fs_root_path this ->
  Metadata.disk_path m = metadata_path this ->
  (exists n old, regular_file (local_fs w) file n old) \/ free_name (local_fs w) file ->
  exists w',
    Metadata.save m sync w = (Ok tt, w') /\
    readMeta this (Metadata.metadata_file_path m) w'
    = (Ok (Metadata.set_read_only false m), w') /\
    getFileSize this (Metadata.metadata_file_path m) w' = (Ok (Metadata.total_size m), w').
Proof.
  intros file Hvalid Hroot Hdp Hplace. subst file.
  assert (Hsave : exists fs', Metadata.save m sync w = (Ok tt, set_local_fs fs' w)).
  { unfold Metadata.save, on_fs. rewrite Hdp.
    destruct Hplace as [(n & old & Hfile) | Hfree].
    - rewrite (WriteBufferFromFile_existing _ _ _ _ (Metadata.save_buffer m) Hfile).
      now eexists.
    - destruct (WriteBufferFromFile_free _ _ (Metadata.save_buffer m) Hfree)
        as (fs' & n & Hw & _).
      rewrite Hw. now eexists. }
  destruct Hsave as [fs' Hsave]. exists (set_local_fs fs' w).
  pose proof (save_then_load m sync w _ Hvalid Hsave) as Hload.
  rewrite Hroot, Hdp in Hload.
  assert (Hread : readMeta this (Metadata.metadata_file_path m) (set_local_fs fs' w)
                  = (Ok (Metadata.set_read_only false m), set_local_fs fs' w)).
  { rewrite run_readMeta. now rewrite Hload. }
  split; [exact Hsave |]. split; [exact Hread |].
  unfold getFileSize. now rewrite (run_bind_ok _ _ _ _ _ Hread).
Qed.

Lemma save_readMeta_round_trip_witness :
  let m := Metadata.addObject "e" 12 (example_record 3 true) in
  let w := example_world EmptyString in
  (valid_record m /\ Metadata.remote_fs_root_path m = "root/"%string /\
   Metadata.disk_path m = "/disk/"%string /\
   exists n old, regular_file (local_fs w) "/disk/f" n old) /\
  exists w',
    Metadata.save m false w = (Ok tt, w') /\
    readMeta example_disk "f" w' = (Ok (Metadata.set_read_only false m), w') /\
    getFileSize example_disk "f" w' = (Ok 42, w').
Proof.
  cbv zeta. set (m := Metadata.addObject "e" 12 (example_record 3 true)).
  set (w := example_world EmptyString).
  assert (Hvalid : valid_record m).
  { split; [split; [reflexivity |] |].
    - repeat (constructor; [apply in_range_literal; reflexivity |]). constructor.
    - split; apply in_range_literal; reflexivity. }
  assert (Hfile : exists n old, regular_file (local_fs w) "/disk/f" n old).
  { exists 2%nat, EmptyString. split; vm_compute; reflexivity. }
  split; [exact (conj Hvalid (conj eq_refl (conj eq_refl Hfile))) |].
  exact (save_readMeta_round_trip example_disk m false w Hvalid eq_refl eq_refl
           (or_introl Hfile)).
Defined.

(* ===================================================================== *)
(** * Listing a directory *)
(* ===================================================================== *)

Lemma fold_push_back (names file_names : list string) :
  fold_left (fun v name => v ++ [name]) names file_names = file_names ++ names.
Proof.
  revert file_names. induction names as [|name names IH]; intros file_names.
  - now rewrite app_nil_r.
  - simpl. now rewrite IH, <- app_assoc.
Qed.

(** X18.  [listFiles] appends to the vector it is given: what the vector
    held stays in front, followed by the names of the entries of the
    directory, files and directories alike, in enumeration order.  Nothing is
    changed.  On a path that is not a directory it raises and the vector is as
    it was. *)
Theorem listFiles_appends (this : IDiskRemote) (path : string) (file_names : list string)
    (w : World) :
  let dir := metadata_path this +:+ path in
  (forall es,
     LocalFS.stat (local_fs w) dir = Some (LocalFS.IDir es) ->
     listFiles this path file_names w
     = (Ok (file_names ++ map LocalFS.d_name es), w)) /\
  ((forall es, LocalFS.stat (local_fs w) dir <> Some (LocalFS.IDir es)) ->
   exists e, listFiles this path file_names w = (Throw e, w)).
Proof.
  intros dir. unfold listFiles, iterateDirectory, bind, ask_fs, LocalFS.DirectoryIterator.
  fold dir. split.
  - intros es Hdir. rewrite Hdir. unfold ret. now rewrite fold_push_back.
  - intros Hnot. destruct (LocalFS.stat (local_fs w) dir) as [[data | es]|].
    + now eexists.
    + now elim (Hnot es).
    + now eexists.
Qed.

Lemma listFiles_appends_witness :
  let w := example_tree_world EmptyString in
  (LocalFS.stat (local_fs w) "/disk/a"
   = Some (LocalFS.IDir
             [{| LocalFS.d_name := "f"; LocalFS.d_ino := 3%nat;
                 LocalFS.d_symlink := false |};
              {| LocalFS.d_name := "sub"; LocalFS.d_ino := 4%nat;
                 LocalFS.d_symlink := false |}]) /\
   forall es, LocalFS.stat (local_fs w) "/disk/a/f" <> Some (LocalFS.IDir es)) /\
  listFiles example_disk "a" ["z"%string] w = (Ok ["z"; "f"; "sub"]%string, w) /\
  exists e, listFiles example_disk "a/f" ["z"%string] w = (Throw e, w).
Proof.
  cbv zeta. set (w := example_tree_world EmptyString).
  assert (Hdir : LocalFS.stat (local_fs w) "/disk/a"
                 = Some (LocalFS.IDir
                           [{| LocalFS.d_name := "f"; LocalFS.d_ino := 3%nat;
                               LocalFS.d_symlink := false |};
                            {| LocalFS.d_name := "sub"; LocalFS.d_ino := 4%nat;
                               LocalFS.d_symlink := false |}]))
    by (vm_compute; reflexivity).
  assert (Hfile : forall es,
             LocalFS.stat (local_fs w) "/disk/a/f" <> Some (LocalFS.IDir es))
    by (intros es; vm_compute; discriminate).
  split; [exact (conj Hdir Hfile) |].
  split.
  - exact (proj1 (listFiles_appends example_disk "a" ["z"%string] w) _ Hdir).
  - exact (proj2 (listFiles_appends example_disk "a/f" ["z"%string] w) Hfile).
Defined.

(* ===================================================================== *)
(** * Removing the links to a record one after the other *)
(* ===================================================================== *)

Section Links.

Variable this : IDiskRemote.

Local Abbreviation root := (remote_fs_root_path this).
Local Abbreviation mp := (metadata_path this).

Lemma rewrite_not_exists (fs : gmap nat LocalFS.inode) n old data x :
  fs !! n = Some (LocalFS.IFile old) ->
  LocalFS.exists_ fs x = false ->
  LocalFS.exists_ (<[n := LocalFS.IFile data]> fs) x = false.
Proof.
  intros Hn. unfold LocalFS.exists_, LocalFS.stat, LocalFS.resolve.
  rewrite (walk_rewrite _ _ _ data _ _ Hn).
  destruct (LocalFS.walk fs LocalFS.root_ino (LocalFS.split_path x)) as [m|]; [| easy].
  destruct (decide (m = n)) as [-> | Hne]; [now rewrite Hn |].
  now rewrite lookup_insert_ne by congruence.
Qed.

Lemma unlinked_not_exists (fs : gmap nat LocalFS.inode) file x :
  LocalFS.exists_ fs x = false -> LocalFS.exists_ (unlinked fs file) x = false.
Proof.
  unfold unlinked.
  destruct (LocalFS.parent fs file) as [[[p es] name]|] eqn:Hp; [| easy].
  pose proof (parent_directory _ _ _ _ _ Hp) as Hdir.
  unfold LocalFS.exists_, LocalFS.stat, LocalFS.resolve. intros Hx.
  destruct (LocalFS.walk (<[p := LocalFS.IDir (LocalFS.unlink_entry name es)]> fs)
              LocalFS.root_ino (LocalFS.split_path x)) as [m|] eqn:Hm; [| reflexivity].
  rewrite (walk_unlink_sub _ _ _ _ _ _ _ Hdir Hm) in Hx.
  destruct (decide (m = p)) as [-> | Hne]; [now rewrite Hdir in Hx |].
  now rewrite lookup_insert_ne by congruence.
Qed.

Lemma dir_entry_unlinked (fs : gmap nat LocalFS.inode) file n data x n' data' :
  root_is_directory fs -> regular_file fs file n data -> regular_file fs x n' data' ->
  dir_entry (unlinked fs file) x = dir_entry fs x.
Proof.
  intros Hroot Hfile Hx.
  destruct (regular_file_entry _ _ _ _ Hroot Hfile) as (p & es & name & e & Hp & He & Hino).
  destruct (regular_file_entry _ _ _ _ Hroot Hx) as (px & esx & namex & ex & Hpx & _).
  assert (Hn : fs !! LocalFS.d_ino e = Some (LocalFS.IFile data))
    by (rewrite Hino; apply Hfile).
  unfold unlinked, dir_entry. rewrite Hp.
  now rewrite (parent_unlink_file _ _ _ _ _ _ _ _ _ _ (parent_directory _ _ _ _ _ Hp)
                 He Hn Hpx), Hpx.
Qed.

Lemma linked_regular_file (fs : gmap nat LocalFS.inode) n k objects path :
  linked this fs n k objects path ->
  exists data m,
    regular_file fs (mp +:+ path) n data /\
    Metadata.Metadata root mp path false fs = Ok m /\ valid_record m /\
    Metadata.ref_count m = k /\ Metadata.remote_fs_objects m = objects.
Proof.
  intros (Hres & m & Hload & Hk & Hobjs).
  destruct (loaded_record _ _ _ _ _ Hload) as ((n' & data & [Hres' Hn']) & Hvalid & _).
  assert (n' = n) as -> by congruence.
  exists data, m. split; [split; assumption |]. split; [exact Hload |].
  split; [exact Hvalid |]. now split.
Qed.

(** Removing one link of a record that has references left. *)
Lemma remove_one_link (w : World) n k objects p rest :
  root_is_directory (local_fs w) -> remote_error w = None ->
  Forall (linked this (local_fs w) n k objects) (p :: rest) ->
  List.NoDup (map (fun x => dir_entry (local_fs w) (mp +:+ x)) (p :: rest)) ->
  0 < k ->
  exists w1,
    removeFile this p w = (Ok tt, w1) /\
    remote_removed w1 = remote_removed w /\
    remote_error w1 = None /\ root_is_directory (local_fs w1) /\
    LocalFS.exists_ (local_fs w1) (mp +:+ p) = false /\
    (forall x, LocalFS.exists_ (local_fs w) x = false ->
               LocalFS.exists_ (local_fs w1) x = false) /\
    Forall (linked this (local_fs w1) n (k - 1) objects) rest /\
    List.NoDup (map (fun x => dir_entry (local_fs w1) (mp +:+ x)) rest).
Proof.
  intros Hroot Hremote Hlinks Hnodup Hk.
  apply Forall_cons_iff in Hlinks as [Hp Hrest].
  destruct (linked_regular_file _ _ _ _ _ Hp) as (data & m & Hfile & Hload & Hvalid & Href & Hobjs).
  assert (Hn : local_fs w !! n = Some (LocalFS.IFile data)) by apply Hfile.
  set (m' := Metadata.set_ref_count (wrap UInt32_bits (Metadata.ref_count m - 1)) m).
  set (d' := Metadata.save_buffer m').
  set (X := <[n := LocalFS.IFile d']> (local_fs w)).
  assert (Hwrap : wrap UInt32_bits (Metadata.ref_count m - 1) = k - 1).
  { rewrite Href. apply wrap_small. destruct Hvalid as (_ & _ & Hr).
    unfold in_range, UInt32_bits in *. lia. }
  assert (Hvalid' : valid_record m').
  { apply valid_record_set_ref_count; [exact Hvalid |]. apply wrap_range. discriminate. }
  assert (HfileX : regular_file X (mp +:+ p) n d')
    by exact (regular_file_rewrite_same _ _ _ _ _ Hfile).
  assert (HrootX : root_is_directory X)
    by exact (root_is_directory_rewrite _ _ _ _ Hn Hroot).
  eexists. split.
  { unfold removeFile, removeSharedFile.
    rewrite (removeMeta_shared this p false w m n data Hroot Hfile Hload) by lia.
    reflexivity. }
  cbv zeta. cbn [remote_removed remote_error local_fs set_local_fs add_log].
  fold m' d' X.
  split; [reflexivity |]. split; [exact Hremote |].
  split; [exact (unlinked_root _ _ _ _ HrootX HfileX) |].
  split; [exact (unlinked_gone _ _ _ _ HrootX HfileX) |].
  split; [intros x Hx; apply unlinked_not_exists; now apply (rewrite_not_exists _ _ data) |].
  apply NoDup_cons_iff in Hnodup as [Hfresh Hnodup].
  assert (Hkept : forall x, In x rest ->
            regular_file (unlinked X (mp +:+ p)) (mp +:+ x) n d' /\
            dir_entry (unlinked X (mp +:+ p)) (mp +:+ x) = dir_entry (local_fs w) (mp +:+ x)).
  { intros x Hin.
    destruct (linked_regular_file _ _ _ _ _ (proj1 (List.Forall_forall _ _) Hrest x Hin))
      as (datax & _ & Hx & _).
    assert (HxX : regular_file X (mp +:+ x) n d')
      by exact (regular_file_rewrite_link _ _ _ _ _ _ Hn Hx).
    assert (Hother : dir_entry X (mp +:+ x) <> dir_entry X (mp +:+ p)).
    { unfold X. rewrite !(dir_entry_rewrite _ _ _ _ _ Hn). intros Heq.
      apply Hfresh. rewrite <- Heq.
      exact (in_map (fun x => dir_entry (local_fs w) (mp +:+ x)) _ _ Hin). }
    split; [exact (unlinked_other_link _ _ _ _ _ _ _ HrootX HfileX HxX Hother) |].
    rewrite (dir_entry_unlinked _ _ _ _ _ _ _ HrootX HfileX HxX).
    unfold X. apply (dir_entry_rewrite _ _ _ _ _ Hn). }
  split.
  - apply List.Forall_forall. intros x Hin. destruct (Hkept x Hin) as [Hx _].
    split; [apply Hx |].
    exists (reread root mp x m'). split; [exact (load_saved _ _ _ _ _ _ Hvalid' Hx) |].
    split; [exact Hwrap | exact Hobjs].
  - rewrite (map_ext_in _ (fun x => dir_entry (local_fs w) (mp +:+ x))); [exact Hnodup |].
    intros x Hin. apply (Hkept x Hin).
Qed.

(** Removing some of the links of a record that has at least as many
    references. *)
Lemma remove_links pre : forall (w : World) n k objects rest,
  root_is_directory (local_fs w) -> remote_error w = None ->
  Forall (linked this (local_fs w) n k objects) (pre ++ rest) ->
  List.NoDup (map (fun x => dir_entry (local_fs w) (mp +:+ x)) (pre ++ rest)) ->
  Z.of_nat (length pre) <= k ->
  exists w1,
    forM_ pre (removeFile this) w = (Ok tt, w1) /\
    remote_removed w1 = remote_removed w /\
    remote_error w1 = None /\ root_is_directory (local_fs w1) /\
    Forall (fun p => LocalFS.exists_ (local_fs w1) (mp +:+ p) = false) pre /\
    (forall x, LocalFS.exists_ (local_fs w) x = false ->
               LocalFS.exists_ (local_fs w1) x = false) /\
    Forall (linked this (local_fs w1) n (k - Z.of_nat (length pre)) objects) rest /\
    List.NoDup (map (fun x => dir_entry (local_fs w1) (mp +:+ x)) rest).
Proof.
  induction pre as [|p pre IH]; intros w n k objects rest Hroot Hremote Hlinks Hnodup Hk.
  - exists w. cbn [length Z.of_nat app] in *. rewrite Z.sub_0_r.
    repeat (split; [easy || constructor |]). exact Hnodup.
  - cbn [length app] in *. rewrite Nat2Z.inj_succ in *.
    destruct (remove_one_link w n k objects p (pre ++ rest) Hroot Hremote Hlinks Hnodup
                ltac:(lia))
      as (w1 & Hrm & Hkept1 & Hremote1 & Hroot1 & Hgone1 & Hstay1 & Hlinks1 & Hnodup1).
    destruct (IH w1 n (k - 1) objects rest Hroot1 Hremote1 Hlinks1 Hnodup1 ltac:(lia))
      as (w2 & Hrest & Hkept2 & Hremote2 & Hroot2 & Hgone2 & Hstay2 & Hlinks2 & Hnodup2).
    exists w2. cbn [forM_]. rewrite (run_bind_ok _ _ _ _ _ Hrm).
    split; [exact Hrest |]. split; [congruence |]. split; [exact Hremote2 |].
    split; [exact Hroot2 |].
    split; [constructor; [now apply Hstay2 | exact Hgone2] |].
    split; [intros x Hx; now apply Hstay2, Hstay1 |].
    split; [| exact Hnodup2].
    replace (k - Z.succ (Z.of_nat (length pre))) with (k - 1 - Z.of_nat (length pre)) by lia.
    exact Hlinks2.
Qed.

End Links.

(** X19.  Reference counting purges a record once, at its last link.  Let
    the paths [pre] and [last] be distinct links to one file, each reading a
    record with the objects [objects] and a reference count that is the
    number of links in [pre].  Removing the links in [pre] one after the
    other sends no delete request to the remote store and leaves [last]
    reading the objects with the reference count 0; removing [last] then sends
    one delete request per object.  Nothing exists at any of the paths
    afterwards. *)
Theorem removeFile_last_link_purges (this : IDiskRemote) (pre : list string)
    (last : string) (w : World) (n : nat) (objects : list (string * Z)) :
  let mp := metadata_path this in
  root_is_directory (local_fs w) -> remote_error w = None ->
  Forall (linked this (local_fs w) n (Z.of_nat (length pre)) objects) (pre ++ [last]) ->
  List.NoDup (map (fun p => dir_entry (local_fs w) (mp +:+ p)) (pre ++ [last])) ->
  exists w1 w2,
    forM_ pre (removeFile this) w = (Ok tt, w1) /\
    remote_removed w1 = remote_removed w /\
    linked this (local_fs w1) n 0 objects last /\
    removeFile this last w1 = (Ok tt, w2) /\
    remote_removed w2 = remote_removed w ++ map fst objects /\
    Forall (fun p => LocalFS.exists_ (local_fs w2) (mp +:+ p) = false) (pre ++ [last]).
Proof.
  intros mp Hroot Hremote Hlinks Hnodup. subst mp.
  destruct (remove_links this pre w n _ objects [last] Hroot Hremote Hlinks Hnodup
              ltac:(lia))
    as (w1 & Hpre & Hkept & Hremote1 & Hroot1 & Hgone & _ & Hlast & _).
  rewrite Z.sub_diag in Hlast. apply Forall_cons_iff in Hlast as [Hlast _].
  destruct (linked_regular_file _ _ _ _ _ _ Hlast)
    as (data & m & Hfile & Hload & _ & Hzero & Hobjs).
  eexists w1, _. split; [exact Hpre |]. split; [exact Hkept |]. split; [exact Hlast |].
  split.
  { unfold removeFile, removeSharedFile.
    rewrite (removeMeta_last_reference this last false w1 m Hroot1 Hload Hzero).
    cbv zeta. unfold try_catch. rewrite run_removeFromRemoteFS by exact Hremote1.
    reflexivity. }
  cbn [remote_removed local_fs set_remote_removed set_local_fs add_log].
  split; [now rewrite Hkept, Hobjs |].
  apply Forall_app. split.
  - apply List.Forall_forall. intros p Hin. apply unlinked_not_exists.
    exact (proj1 (List.Forall_forall _ _) Hgone p Hin).
  - constructor; [| constructor]. exact (unlinked_gone _ _ _ _ Hroot1 Hfile).
Qed.

Lemma example_linked path :
  In path ["f"; "g"; "h"]%string ->
  linked example_disk
    (local_fs (example_links_world (Metadata.save_buffer (example_record 2 false))))
    2%nat 2 [("abc"%string, 10); ("d"%string, 20)] path.
Proof.
  intros [<- | [<- | [<- | []]]];
    (split; [vm_compute; reflexivity |]);
    eexists; (split; [vm_compute; reflexivity |]); split; reflexivity.
Qed.

Lemma removeFile_last_link_purges_witness :
  let w := example_links_world (Metadata.save_buffer (example_record 2 false)) in
  (root_is_directory (local_fs w) /\ remote_error w = None /\
   Forall (linked example_disk (local_fs w) 2%nat 2 [("abc"%string, 10); ("d"%string, 20)])
     ["f"; "g"; "h"]%string /\
   List.NoDup (map (fun p => dir_entry (local_fs w) ("/disk/" +:+ p)) ["f"; "g"; "h"]%string)) /\
  exists w1 w2,
    forM_ ["f"; "g"]%string (removeFile example_disk) w = (Ok tt, w1) /\
    remote_removed w1 = [] /\
    linked example_disk (local_fs w1) 2%nat 0 [("abc"%string, 10); ("d"%string, 20)] "h" /\
    removeFile example_disk "h" w1 = (Ok tt, w2) /\
    remote_removed w2 = ["abc"; "d"]%string /\
    Forall (fun p => LocalFS.exists_ (local_fs w2) ("/disk/" +:+ p) = false)
      ["f"; "g"; "h"]%string.
Proof.
  cbv zeta. set (w := example_links_world (Metadata.save_buffer (example_record 2 false))).
  assert (Hroot : root_is_directory (local_fs w)) by (eexists; reflexivity).
  assert (Hremote : remote_error w = None) by reflexivity.
  assert (Hlinks : Forall (linked example_disk (local_fs w) 2%nat 2
                             [("abc"%string, 10); ("d"%string, 20)])
                     ["f"; "g"; "h"]%string).
  { apply List.Forall_forall. intros p Hin. now apply example_linked. }
  assert (Hnodup : List.NoDup (map (fun p => dir_entry (local_fs w) ("/disk/" +:+ p))
                                 ["f"; "g"; "h"]%string)).
  { assert (Heq : map (fun p => dir_entry (local_fs w) ("/disk/" +:+ p)) ["f"; "g"; "h"]%string
                  = [Some (1%nat, "f"%string); Some (1%nat, "g"%string);
                     Some (1%nat, "h"%string)]) by (vm_compute; reflexivity).
    rewrite Heq. repeat constructor; cbn; intuition discriminate. }
  split; [exact (conj Hroot (conj Hremote (conj Hlinks Hnodup))) |].
  exact (removeFile_last_link_purges example_disk ["f"; "g"]%string "h" w 2%nat
           [("abc"%string, 10); ("d"%string, 20)] Hroot Hremote Hlinks Hnodup).
Defined.

(* ===================================================================== *)
(** * A purge that fails *)
(* ===================================================================== *)

(** Removing what has been unlinked already raises the file-not-found error
    of [Poco]. *)
Lemma run_remove_unlinked file w n data :
  root_is_directory (local_fs w) -> regular_file (local_fs w) file n data ->
  forall w1,
    local_fs w1 = unlinked (local_fs w) file ->
    file_remove file w1 = (Throw (PocoException FileNotFoundException), w1).
Proof.
  intros Hroot Hfile w1 Hfs.
  destruct (regular_file_entry _ _ _ _ Hroot Hfile) as (p & es & name & e & Hp & He & Hino).
  assert (Hn : local_fs w !! LocalFS.d_ino e = Some (LocalFS.IFile data))
    by (rewrite Hino; apply Hfile).
  unfold file_remove, on_fs, LocalFS.remove. rewrite Hfs. unfold unlinked. rewrite Hp.
  rewrite (parent_unlink_file _ _ _ _ _ _ _ _ _ _ (parent_directory _ _ _ _ _ Hp) He Hn Hp).
  destruct (decide (p = p)) as [_ | []]; [| reflexivity].
  now rewrite lookup_entry_unlink_eq.
Qed.

(** X20.  The purge comes after the local removal, and is not undone.  Let
    the record at [path] load with reference count 0 and at least one object,
    and let the remote store answer every delete request with the error [e].
    Then [removeSharedFile path false] raises, no object has been deleted, and
    the metadata file is gone.  What it raises is [e], unless [e] is itself a
    format error: the handler of [removeMeta] takes that for unreadable
    metadata, logs the warning and removes the file once more, which raises
    the file-not-found error of [Poco]. *)
Theorem removeSharedFile_purge_fails (this : IDiskRemote) (path : string) (w : World)
    (m : Metadata.t) (e : Exception) :
  let file := metadata_path this +:+ path in
  let w1 := set_local_fs (unlinked (local_fs w) file)
              (add_log Debug (RemoveFileByPath file) w) in
  root_is_directory (local_fs w) ->
  readMeta this path w = (Ok m, w) ->
  Metadata.ref_count m = 0 -> Metadata.remote_fs_objects m <> [] ->
  remote_error w = Some e ->
  LocalFS.exists_ (local_fs w1) file = false /\
  remote_removed w1 = remote_removed w /\
  (~ is_format_error e -> removeSharedFile this path false w = (Throw e, w1)) /\
  (is_format_error e ->
   removeSharedFile this path false w
   = (Throw (PocoException FileNotFoundException),
      add_log Warning (MetadataCantBeRead path e) w1)).
Proof.
  intros file w1 Hroot Hread Hzero Hobjs Hremote.
  apply readMeta_Ok in Hread.
  destruct (loaded_record _ _ _ _ _ Hread) as ((n & data & Hfile) & _).
  destruct (Metadata.remote_fs_objects m) as [|o objects] eqn:Ho; [congruence |].
  assert (Hrun : removeSharedFile this path false w = removeMeta_catch this path e w1).
  { unfold removeSharedFile.
    rewrite (removeMeta_last_reference this path false w m Hroot Hread Hzero).
    cbv zeta. fold file w1.
    apply run_try_throw. exact (run_removeFromRemoteFS_failing this m w1 e o objects Hremote Ho). }
  split; [exact (unlinked_gone _ _ _ _ Hroot Hfile) |]. split; [reflexivity |].
  rewrite Hrun. split.
  - intros Hother. now apply removeMeta_catch_other.
  - intros [nested ->]. unfold removeMeta_catch. cbn [ErrorCode_eqb].
    rewrite (run_bind_ok _ _ w1 tt (add_log Warning
               (MetadataCantBeRead path (DBException UNKNOWN_FORMAT nested)) w1))
      by reflexivity.
    exact (run_remove_unlinked file w n data Hroot Hfile
             (add_log Warning (MetadataCantBeRead path (DBException UNKNOWN_FORMAT nested)) w1)
             eq_refl).
Qed.

Lemma removeSharedFile_purge_fails_witness :
  let data := Metadata.save_buffer (example_record 0 false) in
  let failing e :=
    {| local_fs := example_fs data; remote_removed := []; remote_error := Some e;
       available_space := 100; reserved_bytes := 40; reservation_count := 2;
       log := [] |} in
  let network := DBException NETWORK_ERROR None in
  let format := DBException UNKNOWN_FORMAT None in
  (root_is_directory (example_fs data) /\
   readMeta example_disk "f" (failing network) = (Ok (example_record 0 false), failing network) /\
   readMeta example_disk "f" (failing format) = (Ok (example_record 0 false), failing format) /\
   Metadata.ref_count (example_record 0 false) = 0 /\
   Metadata.remote_fs_objects (example_record 0 false) <> [] /\
   ~ is_format_error network /\ is_format_error format) /\
  fst (removeSharedFile example_disk "f" false (failing network)) = Throw network /\
  LocalFS.exists_ (local_fs (snd (removeSharedFile example_disk "f" false (failing network))))
    "/disk/f" = false /\
  fst (removeSharedFile example_disk "f" false (failing format))
  = Throw (PocoException FileNotFoundException).
Proof.
  cbv zeta.
  set (data := Metadata.save_buffer (example_record 0 false)).
  set (failing := fun e =>
         {| local_fs := example_fs data; remote_removed := []; remote_error := Some e;
            available_space := 100; reserved_bytes := 40; reservation_count := 2;
            log := [] |}).
  assert (Hroot : root_is_directory (example_fs data)) by apply example_root_is_directory.
  assert (Hread : forall e,
             readMeta example_disk "f" (failing e) = (Ok (example_record 0 false), failing e)).
  { intros e. rewrite run_readMeta.
    assert (Hload : Metadata.Metadata "root/" "/disk/" "f" false (example_fs data)
                    = Ok (example_record 0 false)) by (vm_compute; reflexivity).
    change (local_fs (failing e)) with (example_fs data).
    change (remote_fs_root_path example_disk) with "root/"%string.
    change (metadata_path example_disk) with "/disk/"%string.
    now rewrite Hload. }
  assert (Hzero : Metadata.ref_count (example_record 0 false) = 0) by reflexivity.
  assert (Hobjs : Metadata.remote_fs_objects (example_record 0 false) <> []) by discriminate.
  assert (Hnet : ~ is_format_error (DBException NETWORK_ERROR None))
    by (intros [nested H]; discriminate H).
  assert (Hfmt : is_format_error (DBException UNKNOWN_FORMAT None)) by (now exists None).
  split; [exact (conj Hroot (conj (Hread _) (conj (Hread _) (conj Hzero
                   (conj Hobjs (conj Hnet Hfmt)))))) |].
  destruct (removeSharedFile_purge_fails example_disk "f" (failing (DBException NETWORK_ERROR None))
              _ _ Hroot (Hread _) Hzero Hobjs eq_refl)
    as (Hgone & _ & Hother & _).
  destruct (removeSharedFile_purge_fails example_disk "f" (failing (DBException UNKNOWN_FORMAT None))
              _ _ Hroot (Hread _) Hzero Hobjs eq_refl)
    as (_ & _ & _ & Hformat).
  rewrite (Hother Hnet), (Hformat Hfmt). split; [reflexivity |]. split; [exact Hgone |].
  reflexivity.
Defined.

(* ===================================================================== *)
(** * Removing a tree *)
(* ===================================================================== *)

Section Trees.

Import LocalFS.

Lemma sublist_unlink_entry name es : sublist (unlink_entry name es) es.
Proof.
  unfold unlink_entry. induction es as [|x es IH]; [constructor |].
  simpl. destruct (negb (String.eqb (d_name x) name)); now constructor.
Qed.

Lemma sublist_In {A} (l1 l2 : list A) x : sublist l1 l2 -> In x l1 -> In x l2.
Proof.
  induction 1 as [|y l1 l2 _ IH | y l1 l2 _ IH]; [easy | |].
  - intros [-> | Hin]; [now left | right; now apply IH].
  - intros Hin. right. now apply IH.
Qed.

Lemma sublist_Forall_list {A} (P : A -> Prop) (l1 l2 : list A) :
  sublist l1 l2 -> Forall P l2 -> Forall P l1.
Proof.
  induction 1 as [|y l1 l2 _ IH | y l1 l2 _ IH]; intros HP; [constructor | |].
  - apply Forall_cons_iff in HP as [Hy HP]. constructor; [exact Hy | now apply IH].
  - apply Forall_cons_iff in HP as [_ HP]. now apply IH.
Qed.

Lemma sublist_map {A B} (f : A -> B) (l1 l2 : list A) :
  sublist l1 l2 -> sublist (map f l1) (map f l2).
Proof. induction 1; simpl; now constructor. Qed.

Lemma sublist_NoDup_list {A} (l1 l2 : list A) :
  sublist l1 l2 -> List.NoDup l2 -> List.NoDup l1.
Proof.
  induction 1 as [|y l1 l2 Hsub IH | y l1 l2 _ IH]; intros Hnd; [constructor | |].
  - apply NoDup_cons_iff in Hnd as [Hnot Hnd]. constructor; [| now apply IH].
    intros Hin. apply Hnot. now apply (sublist_In l1).
  - apply NoDup_cons_iff in Hnd as [_ Hnd]. now apply IH.
Qed.

Lemma shrunk_refl (fs : gmap nat inode) : shrunk fs fs.
Proof.
  intros x. destruct (fs !! x) as [[data | sub]|]; [now eexists | | exact I].
  exists sub. split; reflexivity.
Qed.

Lemma shrunk_trans (fs1 fs2 fs3 : gmap nat inode) :
  shrunk fs1 fs2 -> shrunk fs2 fs3 -> shrunk fs1 fs3.
Proof.
  intros H12 H23 x. specialize (H12 x). specialize (H23 x).
  destruct (fs1 !! x) as [[data | sub]|]; [| | exact I].
  - destruct H12 as [data' H12]. now rewrite H12 in H23.
  - destruct H12 as (sub' & H12 & Hsub). rewrite H12 in H23.
    destruct H23 as (sub'' & H23 & Hsub'). exists sub''. split; [exact H23 |].
    now transitivity sub'.
Qed.

Lemma shrunk_root (fs fs' : gmap nat inode) :
  shrunk fs fs' -> root_is_directory fs -> root_is_directory fs'.
Proof.
  intros Hs [es Hroot]. specialize (Hs root_ino). rewrite Hroot in Hs.
  destruct Hs as (sub' & Hs & _). now exists sub'.
Qed.

Lemma tree_shrunk (fs fs' : gmap nat inode) h : forall n F,
  shrunk fs fs' -> tree fs h n F -> tree fs' h n F.
Proof.
  induction h as [|h IH]; intros n F Hs Ht; pose proof (Hs n) as Hn.
  - destruct Ht as [[data Hfile] | []]. rewrite Hfile in Hn. now left.
  - destruct Ht as [[data Hfile] | (es & Hdir & HF & Hnames & Hnodup & Hsub)].
    + rewrite Hfile in Hn. now left.
    + rewrite Hdir in Hn. destruct Hn as (sub' & Hdir' & Hsl). right.
      exists sub'. split; [exact Hdir' |]. split; [exact HF |].
      split; [exact (sublist_Forall_list _ _ _ Hsl Hnames) |].
      split; [exact (sublist_NoDup_list _ _ (sublist_map d_name _ _ Hsl) Hnodup) |].
      apply (sublist_Forall_list _ _ _ Hsl).
      apply List.Forall_forall. intros e Hin. apply IH; [exact Hs |].
      exact (proj1 (List.Forall_forall _ _) Hsub e Hin).
Qed.

(** Walks and the inodes they pass. *)
Lemma visited_last (fs : gmap nat inode) comps : forall cur m,
  walk fs cur comps = Some m -> In m (PocoFile.visited fs cur comps).
Proof.
  induction comps as [|c cs IH]; intros cur m Hw; simpl in Hw.
  - injection Hw as <-. now left.
  - simpl. destruct (fs !! cur) as [[|es]|]; try discriminate.
    destruct (lookup_entry c es) as [e|]; [| discriminate]. right. now apply IH.
Qed.

Lemma visited_app (fs : gmap nat inode) a c es e : forall cur m,
  walk fs cur a = Some m -> fs !! m = Some (IDir es) -> lookup_entry c es = Some e ->
  PocoFile.visited fs cur (a ++ [c]) = PocoFile.visited fs cur a ++ [d_ino e].
Proof.
  induction a as [|x a IH]; intros cur m Hw Hm He; simpl in Hw.
  - injection Hw as <-. simpl. now rewrite Hm, He.
  - simpl. destruct (fs !! cur) as [[|esc]|]; try discriminate.
    destruct (lookup_entry x esc) as [ex|]; [| discriminate].
    now rewrite (IH _ _ Hw Hm He).
Qed.

Lemma visited_frame (fs fs' : gmap nat inode) comps : forall cur m,
  (forall x sub, In x (PocoFile.visited fs cur comps) -> fs !! x = Some (IDir sub) ->
                 fs' !! x = Some (IDir sub)) ->
  walk fs cur comps = Some m ->
  walk fs' cur comps = Some m /\
  PocoFile.visited fs' cur comps = PocoFile.visited fs cur comps.
Proof.
  induction comps as [|c cs IH]; intros cur m Hsame Hw; simpl in Hw.
  - now split.
  - simpl in Hsame. simpl.
    destruct (fs !! cur) as [[|es]|] eqn:Hcur; try discriminate.
    rewrite (Hsame cur es (or_introl eq_refl) Hcur).
    destruct (lookup_entry c es) as [e|]; [| discriminate].
    destruct (IH (d_ino e) m) as [Hw' Hv']; [| exact Hw |].
    + intros x sub Hin. apply Hsame. now right.
    + split; [exact Hw' | now rewrite Hv'].
Qed.

End Trees.

Lemma shrunk_unlink (fs : gmap nat LocalFS.inode) d es name :
  fs !! d = Some (LocalFS.IDir es) ->
  shrunk fs (<[d := LocalFS.IDir (LocalFS.unlink_entry name es)]> fs).
Proof.
  intros Hd x. destruct (decide (x = d)) as [-> | Hne].
  - rewrite Hd, lookup_insert_eq. eexists. split; [reflexivity |].
    apply sublist_unlink_entry.
  - rewrite lookup_insert_ne by congruence.
    destruct (fs !! x) as [[data | sub]|]; [now eexists | | exact I].
    exists sub. split; reflexivity.
Qed.

Lemma shrunk_rewrite (fs : gmap nat LocalFS.inode) n old data :
  fs !! n = Some (LocalFS.IFile old) -> shrunk fs (<[n := LocalFS.IFile data]> fs).
Proof.
  intros Hn x. destruct (decide (x = n)) as [-> | Hne].
  - rewrite Hn, lookup_insert_eq. now eexists.
  - rewrite lookup_insert_ne by congruence.
    destruct (fs !! x) as [[data' | sub]|]; [now eexists | | exact I].
    exists sub. split; reflexivity.
Qed.

Lemma tree_kind (fs : gmap nat LocalFS.inode) h n F :
  tree fs h n F ->
  (exists data, fs !! n = Some (LocalFS.IFile data)) \/
  (exists es, fs !! n = Some (LocalFS.IDir es)).
Proof.
  destruct h as [|h]; intros [Hfile | Hdir]; [now left | easy | now left |].
  destruct Hdir as (es & Hdir & _). right. now exists es.
Qed.

Lemma walk_unlink_avoid (fs : gmap nat LocalFS.inode) d es nm e comps : forall cur m,
  fs !! d = Some (LocalFS.IDir es) -> LocalFS.lookup_entry nm es = Some e ->
  ~ In (LocalFS.d_ino e) (PocoFile.visited fs cur comps) ->
  LocalFS.walk fs cur comps = Some m ->
  LocalFS.walk (<[d := LocalFS.IDir (LocalFS.unlink_entry nm es)]> fs) cur comps = Some m.
Proof.
  induction comps as [|c cs IH]; intros cur m Hd He Hnot Hw; [exact Hw |].
  simpl in Hw, Hnot. simpl.
  destruct (fs !! cur) as [[|esc]|] eqn:Hcur; try discriminate.
  destruct (LocalFS.lookup_entry c esc) as [ec|] eqn:Hc; [| discriminate].
  assert (Hnext : LocalFS.d_ino ec <> LocalFS.d_ino e).
  { intros Heq. apply Hnot. right. rewrite <- Heq.
    destruct cs; simpl; now left. }
  assert (Hrest : ~ In (LocalFS.d_ino e) (PocoFile.visited fs (LocalFS.d_ino ec) cs))
    by (intros Hin; apply Hnot; now right).
  destruct (decide (cur = d)) as [-> | Hne].
  - rewrite lookup_insert_eq. assert (esc = es) as -> by congruence.
    rewrite lookup_entry_unlink_ne, Hc; [now apply IH |].
    intros ->. congruence.
  - rewrite lookup_insert_ne, Hcur, Hc by congruence. now apply IH.
Qed.

Section RemoveTree.

Variable this : IDiskRemote.
Variable keep : bool.

(** The recursive removal, in either of its two forms. *)
Variable rec : nat -> string -> M unit.

Hypothesis rec_S : forall stack path,
  rec (S stack) path
  = bind (checkStackSize (S stack)) (fun _ =>
      bind (file_isFile (metadata_path this +:+ path)) (fun is_file =>
        if is_file : bool then removeMeta this path keep
        else
          bind (iterateDirectory this path) (fun names =>
            bind (forM_ names (fun name =>
                    bind (iterator_path this path name) (fun it_path =>
                      rec stack it_path)))
                 (fun _ => file_remove (metadata_path this +:+ path))))).

Lemma remove_tree_file stack p w d es_d nm e data init F :
  root_is_directory (local_fs w) -> remote_error w = None ->
  LocalFS.split_last (LocalFS.split_path (metadata_path this +:+ p)) = Some (init, nm) ->
  LocalFS.walk (local_fs w) LocalFS.root_ino init = Some d ->
  local_fs w !! d = Some (LocalFS.IDir es_d) ->
  LocalFS.lookup_entry nm es_d = Some e ->
  local_fs w !! LocalFS.d_ino e = Some (LocalFS.IFile data) ->
  exists w',
    rec (S stack) p w = (Ok tt, w') /\
    entry_removed (local_fs w) (local_fs w') d nm F /\
    LocalFS.walk (local_fs w') LocalFS.root_ino init = Some d /\
    remote_error w' = None.
Proof.
  intros Hroot Hremote Hsplit Hwalk Hd He Hfile.
  assert (Hparent : LocalFS.parent (local_fs w) (metadata_path this +:+ p)
                    = Some (d, es_d, nm)).
  { unfold LocalFS.parent. now rewrite Hsplit, Hwalk, Hd. }
  assert (Hreg : regular_file (local_fs w) (metadata_path this +:+ p) (LocalFS.d_ino e) data).
  { split; [| exact Hfile]. now rewrite (resolve_parent _ _ _ _ _ Hparent), He. }
  destruct (removeMeta_regular_file this p keep w _ _ Hroot Hremote Hreg)
    as (w' & data' & Hrm & Hfs & Hremote').
  assert (Hnd : LocalFS.d_ino e <> d) by (intros Heq; rewrite Heq in Hfile; congruence).
  assert (Hfs' : local_fs w'
                 = <[d := LocalFS.IDir (LocalFS.unlink_entry nm es_d)]>
                     (<[LocalFS.d_ino e := LocalFS.IFile data']> (local_fs w))).
  { rewrite Hfs. unfold unlinked. now rewrite (parent_rewrite _ _ _ data' _ Hfile), Hparent. }
  exists w'. split; [| split; [| split; [| exact Hremote']]].
  - rewrite rec_S. rewrite (run_bind_ok _ _ w tt w) by reflexivity.
    now rewrite (run_bind_ok _ _ _ _ _ (run_isFile_regular _ _ _ _ Hreg)).
  - rewrite Hfs'. split; [| split].
    + exists es_d. split; [exact Hd | apply lookup_insert_eq].
    + intros x sub Hx Hxd _. rewrite !lookup_insert_ne; [exact Hx | | congruence].
      intros <-. congruence.
    + apply (shrunk_trans _ (<[LocalFS.d_ino e := LocalFS.IFile data']> (local_fs w))).
      * exact (shrunk_rewrite _ _ _ _ Hfile).
      * apply shrunk_unlink. now rewrite lookup_insert_ne by congruence.
  - rewrite Hfs'.
    apply (walk_unlink_file_frame _ _ _ _ e data' _ _ _ es_d).
    + now rewrite lookup_insert_ne by congruence.
    + exact He.
    + apply lookup_insert_eq.
    + now rewrite (walk_rewrite _ _ _ data' _ _ Hfile).
    + now rewrite lookup_insert_ne by congruence.
Qed.

(** The paths the iterator gives for the entry [c] of the directory at
    [p]. *)
Lemma iterator_path_child p w n todo c init nm :
  ends_with_slash p -> valid_name (LocalFS.d_name c) ->
  LocalFS.split_path (metadata_path this +:+ p) = init ++ [nm] ->
  LocalFS.walk (local_fs w) LocalFS.root_ino (init ++ [nm]) = Some n ->
  local_fs w !! n = Some (LocalFS.IDir (c :: todo)) ->
  exists it_path,
    (forall target, local_fs w !! LocalFS.d_ino c = Some target ->
                    iterator_path this p (LocalFS.d_name c) w = (Ok it_path, w)) /\
    LocalFS.split_last (LocalFS.split_path (metadata_path this +:+ it_path))
    = Some (init ++ [nm], LocalFS.d_name c) /\
    (is_directory_inode (local_fs w) (LocalFS.d_ino c) = true -> ends_with_slash it_path).
Proof.
  intros Hslash Hname Hcomps Hwalk Hn.
  set (name := LocalFS.d_name c).
  assert (Hend : ends_with_slash (metadata_path this +:+ p))
    by exact (ends_with_slash_app _ _ Hslash).
  assert (Hres : LocalFS.resolve (local_fs w) (metadata_path this +:+ p) = Some n)
    by (unfold LocalFS.resolve; now rewrite Hcomps).
  assert (Hc : LocalFS.lookup_entry name (c :: todo) = Some c).
  { unfold LocalFS.lookup_entry, name. simpl. now rewrite String.eqb_refl. }
  destruct (resolve_child _ _ _ _ _ _ Hend Hname Hres Hn Hc) as [Hchild1 _].
  rewrite !string_app_assoc in Hchild1.
  assert (Hfile_comps : LocalFS.split_path (metadata_path this +:+ p +:+ name)
                        = (init ++ [nm]) ++ [name]).
  { rewrite <- string_app_assoc.
    rewrite (split_path_child (metadata_path this +:+ p) name Hend Hname).
    now rewrite Hcomps. }
  assert (Hdir_comps : LocalFS.split_path (metadata_path this +:+ p +:+ name +:+ "/")
                       = (init ++ [nm]) ++ [name]).
  { rewrite <- string_app_assoc. unfold LocalFS.split_path.
    rewrite (split_path_from_app _ _ _ Hend).
    fold (LocalFS.split_path (metadata_path this +:+ p)).
    fold (LocalFS.split_path (name +:+ "/")).
    now rewrite Hcomps, (split_path_name_slash name Hname). }
  subst name.
  destruct (is_directory_inode (local_fs w) (LocalFS.d_ino c)) eqn:Hkind.
  - exists (p +:+ LocalFS.d_name c +:+ "/"). split; [| split].
    + intros target Htarget. unfold iterator_path, bind, ask_fs, LocalFS.isDirectory,
        LocalFS.stat. rewrite Hchild1. unfold is_directory_inode in Hkind.
      rewrite Htarget in *. now destruct target.
    + now rewrite Hdir_comps, split_last_app.
    + intros _. exists (p +:+ LocalFS.d_name c). now rewrite string_app_assoc.
  - exists (p +:+ LocalFS.d_name c). split; [| split; [| discriminate]].
    + intros target Htarget. unfold iterator_path, bind, ask_fs, LocalFS.isDirectory,
        LocalFS.stat. rewrite Hchild1. unfold is_directory_inode in Hkind.
      rewrite Htarget in *. now destruct target.
    + now rewrite Hfile_comps, split_last_app.
Qed.

(** The recursive removal of the entry [nm] of the directory [d], which
    leads to a tree: it returns when the stack has room for the height of the
    tree. *)
Lemma remove_tree h : forall stack w p d es_d nm e init F,
  (h <= stack)%nat ->
  root_is_directory (local_fs w) -> remote_error w = None ->
  LocalFS.split_last (LocalFS.split_path (metadata_path this +:+ p)) = Some (init, nm) ->
  LocalFS.walk (local_fs w) LocalFS.root_ino init = Some d ->
  local_fs w !! d = Some (LocalFS.IDir es_d) ->
  LocalFS.lookup_entry nm es_d = Some e ->
  (is_directory_inode (local_fs w) (LocalFS.d_ino e) = true -> ends_with_slash p) ->
  Forall (fun x => x ∉ F) (PocoFile.visited (local_fs w) LocalFS.root_ino init) ->
  tree (local_fs w) h (LocalFS.d_ino e) F ->
  exists w',
    rec (S stack) p w = (Ok tt, w') /\
    entry_removed (local_fs w) (local_fs w') d nm F /\
    LocalFS.walk (local_fs w') LocalFS.root_ino init = Some d /\
    remote_error w' = None.
Proof.
  induction h as [|h IHh];
    intros stack w p d es_d nm e init F Hstack Hroot Hremote Hsplit Hwalk Hd He Hslash
      Havoid Htree.
  { destruct Htree as [[data Hfile] | []].
    exact (remove_tree_file stack p w d es_d nm e data init F Hroot Hremote Hsplit Hwalk
             Hd He Hfile). }
  destruct Htree as [[data Hfile] | (es & Hdir & HF & Hnames & Hnodup & Hsub)].
  { exact (remove_tree_file stack p w d es_d nm e data init F Hroot Hremote Hsplit Hwalk
             Hd He Hfile). }
  destruct stack as [|stack]; [lia |].
  set (n := LocalFS.d_ino e) in *.
  set (A := PocoFile.visited (local_fs w) LocalFS.root_ino init) in *.
  assert (Hp : ends_with_slash p).
  { apply Hslash. unfold is_directory_inode. fold n. now rewrite Hdir. }
  pose proof (split_last_Some _ _ _ Hsplit) as Hcomps.
  assert (HdA : In d A) by exact (visited_last _ _ _ _ Hwalk).
  assert (HnA : forall x, In x A -> x <> n /\ x ∉ F ∖ {[n]}).
  { intros x Hin. pose proof (proj1 (List.Forall_forall _ _) Havoid x Hin) as Hx.
    split; [intros -> | intros [HxF _]%elem_of_difference]; contradiction. }
  (* the loop over the entries *)
  assert (Hloop : forall todo w1,
    root_is_directory (local_fs w1) -> remote_error w1 = None ->
    LocalFS.walk (local_fs w1) LocalFS.root_ino init = Some d ->
    PocoFile.visited (local_fs w1) LocalFS.root_ino init = A ->
    local_fs w1 !! d = Some (LocalFS.IDir es_d) ->
    local_fs w1 !! n = Some (LocalFS.IDir todo) ->
    Forall (fun c => valid_name (LocalFS.d_name c)) todo ->
    List.NoDup (map LocalFS.d_name todo) ->
    Forall (fun c => tree (local_fs w1) h (LocalFS.d_ino c) (F ∖ {[n]})) todo ->
    exists w2,
      forM_ (map LocalFS.d_name todo)
        (fun name => bind (iterator_path this p name) (fun it_path => rec (S stack) it_path))
        w1 = (Ok tt, w2) /\
      local_fs w2 !! n = Some (LocalFS.IDir []) /\
      (forall x sub, local_fs w1 !! x = Some (LocalFS.IDir sub) -> x <> n ->
                     x ∉ F ∖ {[n]} -> local_fs w2 !! x = Some (LocalFS.IDir sub)) /\
      shrunk (local_fs w1) (local_fs w2) /\ remote_error w2 = None).
  { induction todo as [|c todo IHtodo];
      intros w1 Hroot1 Hremote1 Hwalk1 HA1 Hd1 Hn1 Hnames1 Hnodup1 Htrees1.
    { exists w1. split; [reflexivity |]. split; [exact Hn1 |]. split; [now intros |].
      split; [apply shrunk_refl | exact Hremote1]. }
    apply Forall_cons_iff in Hnames1 as [Hname Hnames1].
    apply Forall_cons_iff in Htrees1 as [Htree_c Htrees1].
    cbn [map] in Hnodup1. apply NoDup_cons_iff in Hnodup1 as [Hfresh Hnodup1].
    assert (Hwalk_n : LocalFS.walk (local_fs w1) LocalFS.root_ino (init ++ [nm]) = Some n).
    { rewrite walk_app, Hwalk1. simpl. now rewrite Hd1, He. }
    destruct (iterator_path_child p w1 n todo c init nm Hp Hname Hcomps Hwalk_n Hn1)
      as (it_path & Hit & Hsplit_c & Hslash_c).
    assert (Htarget : exists target, local_fs w1 !! LocalFS.d_ino c = Some target).
    { destruct (tree_kind _ _ _ _ Htree_c) as [[x Hx] | [x Hx]]; eexists; exact Hx. }
    destruct Htarget as [target Htarget]. specialize (Hit target Htarget).
    assert (Hc : LocalFS.lookup_entry (LocalFS.d_name c) (c :: todo) = Some c).
    { unfold LocalFS.lookup_entry. simpl. now rewrite String.eqb_refl. }
    assert (Havoid_c : Forall (fun x => x ∉ F ∖ {[n]})
                         (PocoFile.visited (local_fs w1) LocalFS.root_ino (init ++ [nm]))).
    { rewrite (visited_app _ _ _ _ _ _ _ Hwalk1 Hd1 He), HA1. apply Forall_app. split.
      - apply List.Forall_forall. intros x Hin. now apply HnA.
      - constructor; [| constructor].
        intros [_ Hn]%elem_of_difference. apply Hn. now apply elem_of_singleton. }
    destruct (IHh stack w1 it_path n (c :: todo) (LocalFS.d_name c) c (init ++ [nm])
                (F ∖ {[n]}) ltac:(lia) Hroot1 Hremote1 Hsplit_c Hwalk_n Hn1 Hc Hslash_c
                Havoid_c Htree_c)
      as (w1' & Hrec & ((es_n & Hn_before & Hn_after) & Hsame_c & Hshrunk_c) & _
          & Hremote1').
    assert (es_n = c :: todo) as -> by congruence.
    assert (Hn1' : local_fs w1' !! n = Some (LocalFS.IDir todo)).
    { pose proof (unlink_entry_middle [] c todo (fun H => H) Hfresh) as Hun.
      cbn [app] in Hun. now rewrite Hn_after, Hun. }
    assert (HsameA : forall x sub,
              In x (PocoFile.visited (local_fs w1) LocalFS.root_ino init) ->
              local_fs w1 !! x = Some (LocalFS.IDir sub) ->
              local_fs w1' !! x = Some (LocalFS.IDir sub)).
    { intros x sub Hin Hx. rewrite HA1 in Hin. destruct (HnA x Hin) as [Hxn HxF].
      now apply Hsame_c. }
    destruct (visited_frame _ _ _ _ _ HsameA Hwalk1) as [Hwalk1' HA1'].
    rewrite HA1 in HA1'.
    assert (Hd1' : local_fs w1' !! d = Some (LocalFS.IDir es_d)).
    { apply HsameA; [now rewrite HA1 | exact Hd1]. }
    assert (Htrees1' : Forall (fun c => tree (local_fs w1') h (LocalFS.d_ino c)
                                          (F ∖ {[n]})) todo).
    { apply List.Forall_forall. intros c' Hin. apply (tree_shrunk _ _ _ _ _ Hshrunk_c).
      exact (proj1 (List.Forall_forall _ _) Htrees1 c' Hin). }
    destruct (IHtodo w1' (shrunk_root _ _ Hshrunk_c Hroot1) Hremote1' Hwalk1' HA1' Hd1'
                Hn1' Hnames1 Hnodup1 Htrees1')
      as (w2 & Hrest & Hempty & Hsame & Hshrunk & Hremote2).
    exists w2. split; [| split; [exact Hempty | split; [| split; [| exact Hremote2]]]].
    - cbn [map forM_].
      assert (Hbody : bind (iterator_path this p (LocalFS.d_name c))
                        (fun it_path => rec (S stack) it_path) w1 = (Ok tt, w1'))
        by now rewrite (run_bind_ok _ _ _ _ _ Hit).
      now rewrite (run_bind_ok _ _ _ _ _ Hbody).
    - intros x sub Hx Hxn HxF. apply Hsame; [| exact Hxn | exact HxF].
      now apply Hsame_c.
    - exact (shrunk_trans _ _ _ Hshrunk_c Hshrunk). }
  destruct (Hloop es w Hroot Hremote Hwalk eq_refl Hd Hdir Hnames Hnodup Hsub)
    as (w2 & Hrun & Hempty & Hsame & Hshrunk & Hremote2).
  assert (HsameA : forall x sub,
            In x (PocoFile.visited (local_fs w) LocalFS.root_ino init) ->
            local_fs w !! x = Some (LocalFS.IDir sub) ->
            local_fs w2 !! x = Some (LocalFS.IDir sub)).
  { intros x sub Hin Hx. destruct (HnA x Hin) as [Hxn HxF]. now apply Hsame. }
  destruct (visited_frame _ _ _ _ _ HsameA Hwalk) as [Hwalk2 HA2].
  assert (Hd2 : local_fs w2 !! d = Some (LocalFS.IDir es_d)) by now apply HsameA.
  assert (Hdn : d <> n) by (intros Heq; destruct (HnA d HdA) as [Hne _]; contradiction).
  exists (set_local_fs (<[d := LocalFS.IDir (LocalFS.unlink_entry nm es_d)]> (local_fs w2))
            w2).
  split; [| split; [| split; [| exact Hremote2]]].
  - rewrite rec_S. rewrite (run_bind_ok _ _ w tt w) by reflexivity.
    assert (His : file_isFile (metadata_path this +:+ p) w = (Ok false, w)).
    { unfold file_isFile, ask_fs, LocalFS.isFile, LocalFS.stat, LocalFS.resolve.
      rewrite Hcomps, walk_app, Hwalk. simpl. rewrite Hd, He. fold n. now rewrite Hdir. }
    rewrite (run_bind_ok _ _ _ _ _ His). cbv iota.
    assert (Hiter : iterateDirectory this p w = (Ok (map LocalFS.d_name es), w)).
    { unfold iterateDirectory, ask_fs, LocalFS.DirectoryIterator, LocalFS.stat,
        LocalFS.resolve.
      rewrite Hcomps, walk_app, Hwalk. simpl. rewrite Hd, He. fold n. now rewrite Hdir. }
    rewrite (run_bind_ok _ _ _ _ _ Hiter), (run_bind_ok _ _ _ _ _ Hrun).
    unfold file_remove, on_fs, LocalFS.remove, LocalFS.parent.
    rewrite Hsplit, Hwalk2, Hd2, He. fold n. rewrite Hempty. reflexivity.
  - cbn [local_fs set_local_fs]. split; [| split].
    + exists es_d. split; [exact Hd | apply lookup_insert_eq].
    + intros x sub Hx Hxd HxF. rewrite lookup_insert_ne by congruence.
      apply Hsame; [exact Hx | intros -> |]; [contradiction |].
      intros [HxF' _]%elem_of_difference. contradiction.
    + exact (shrunk_trans _ _ _ Hshrunk (shrunk_unlink _ _ _ _ Hd2)).
  - cbn [local_fs set_local_fs].
    apply (walk_unlink_avoid _ _ _ _ e _ _ _ Hd2 He); [| exact Hwalk2].
    rewrite HA2. fold A n. intros Hin. destruct (HnA n Hin) as [Hne _]. now apply Hne.
Qed.

End RemoveTree.


Lemma example_tree (data : string) :
  tree (example_tree_fs data) 2 2%nat ({[2%nat]} ∪ {[4%nat]}).
Proof.
  right. eexists. split; [vm_compute; reflexivity |].
  split; [apply elem_of_union; left; now apply elem_of_singleton |].
  split; [repeat constructor; discriminate |].
  split; [repeat constructor; cbn; intuition discriminate |].
  constructor; [left; eexists; vm_compute; reflexivity |].
  constructor; [| constructor].
  right. eexists. split; [vm_compute; reflexivity |].
  split.
  { apply elem_of_difference. split.
    - apply elem_of_union. right. now apply elem_of_singleton.
    - intros Heq%elem_of_singleton. discriminate. }
  split; [repeat constructor; discriminate |].
  split; [repeat constructor; cbn; intuition discriminate |].
  constructor; [| constructor]. left. eexists. vm_compute. reflexivity.
Qed.


(* ===================================================================== *)
(** * Clearing a directory, then removing it *)
(* ===================================================================== *)

Lemma resolve_entry (fs : gmap nat LocalFS.inode) path n :
  LocalFS.resolve fs path = Some n -> LocalFS.split_path path <> [] ->
  exists p es name e,
    LocalFS.parent fs path = Some (p, es, name) /\
    LocalFS.lookup_entry name es = Some e /\ LocalFS.d_ino e = n.
Proof.
  intros Hres Hcomps. unfold LocalFS.resolve in Hres. unfold LocalFS.parent.
  destruct (LocalFS.split_last (LocalFS.split_path path)) as [[init last]|] eqn:Hs.
  - apply split_last_Some in Hs. rewrite Hs, walk_app in Hres.
    destruct (LocalFS.walk fs LocalFS.root_ino init) as [q|]; [| discriminate].
    simpl in Hres. destruct (fs !! q) as [[|esq]|]; try discriminate.
    destruct (LocalFS.lookup_entry last esq) as [e|] eqn:He; [| discriminate].
    injection Hres as <-. now exists q, esq, last, e.
  - apply split_last_None in Hs. contradiction.
Qed.

Lemma subdirectories_of_files (fs : gmap nat LocalFS.inode) es :
  Forall (fun e => exists data, fs !! LocalFS.d_ino e = Some (LocalFS.IFile data)) es ->
  subdirectories fs es = [].
Proof.
  induction 1 as [|e es [data He] _ IH]; [reflexivity |].
  unfold subdirectories in *. cbn [List.filter]. unfold is_directory_inode at 1.
  now rewrite He.
Qed.


